(** * tg-ws-relay: a shallow embedding of the per-connection relay engine

    The development follows the TypeScript sources:
    - [HostPattern]   : [parseHostPatterns] of config.ts (wildcard host patterns
                        compiled to anchored, case-insensitive regular
                        expressions);
    - [Backpressure]  : [checkBackpressure] and [handleDrain] of
                        util/backpressure.ts;
    - [Gate]          : the admission sequence at the head of the
                        [wss.on("connection")] handler of server.ts;
    - [Relay]         : the per-connection closure of server.ts together with
                        the connector closure of upstream/connect.ts, as a
                        state machine over the events that the [ws] sockets and
                        the timers of the event loop deliver;
    - [Traffic]       : what is observed on runs of that state machine (frames
                        in each direction, byte counters, keepalive, idle
                        timers, pause and resume);
    - [Format]        : [formatBytes] of util/backpressure.ts;
    - [Config]        : the rest of config.ts ([parseLogLevel], [parseNumber],
                        [parseOrigins] and the configuration object with its
                        checks).

    JavaScript numbers that hold byte counts, close codes and thresholds are
    integers well below 2^53 and are modelled as [Z]; strings are byte strings
    ([string]); binary frames are [list byte]. *)

From Stdlib Require Import ZArith QArith Bool Ascii String List Lia.
From stdpp Require Import base option list strings gmap pretty.
Import ListNotations.

Local Open Scope string_scope.
Local Open Scope list_scope.
Local Open Scope Z_scope.

(* ===================================================================== *)
(** * Host patterns (config.ts, [parseHostPatterns]) *)
(* ===================================================================== *)

Module HostPattern.

(** The character class [[.+?^${}()|[\]\\]] of the first [replace]. *)
Definition regexSpecials : list ascii :=
  list_ascii_of_string "\.+?^${}()|[]".

Definition isRegexSpecial (c : ascii) : bool :=
  existsb (Ascii.eqb c) regexSpecials.

Definition backslash : ascii := "\"%char.

(** [.replace(/[.+?^${}()|[\]\\]/g, '\\$&')]: every special character is
    prefixed by a backslash. *)
Fixpoint escapeSpecials (s : string) : string :=
  match s with
  | EmptyString => EmptyString
  | String c rest =>
      if isRegexSpecial c
      then String backslash (String c (escapeSpecials rest))
      else String c (escapeSpecials rest)
  end.

(** [.replace(/\*/g, '.*')]. *)
Fixpoint starToDotStar (s : string) : string :=
  match s with
  | EmptyString => EmptyString
  | String c rest =>
      if Ascii.eqb c "*"
      then String "." (String "*" (starToDotStar rest))
      else String c (starToDotStar rest)
  end.

Definition regexPattern (trimmed : string) : string :=
  starToDotStar (escapeSpecials trimmed).

(** The text handed to [new RegExp(..., 'i')]: [`^${regexPattern}$`]. *)
Definition regexSource (trimmed : string) : string :=
  String "^" (regexPattern trimmed +:+ "$").

(** ** The regular expressions that [regexSource] can produce

    [RegExp] is a built-in of the language.  The sources that
    [parseHostPatterns] builds use a small part of its syntax: the two
    anchors, pattern characters, identity escapes of syntax characters and
    the group [.*].  [RegExp_new] reads exactly that part and fails on
    anything else, as the constructor would throw or mean something this
    model does not cover. *)
Inductive RxItem : Type :=
| RxChar (c : ascii)      (* a pattern character, or [\c] for a syntax character *)
| RxDotStar.              (* [.*] *)

Record RegExp : Type := mkRegExp {
  rx_items : list RxItem;   (* between [^] and [$] *)
  rx_ignoreCase : bool      (* the [i] flag *)
}.

Fixpoint parseItems (s : string) : option (list RxItem) :=
  match s with
  | EmptyString => None                       (* the closing [$] is missing *)
  | String c rest =>
      if Ascii.eqb c "$" then
        match rest with EmptyString => Some [] | _ => None end
      else if Ascii.eqb c backslash then
        match rest with
        | String d rest' =>
            if isRegexSpecial d || Ascii.eqb d "*"
            then option_map (cons (RxChar d)) (parseItems rest')
            else None
        | EmptyString => None
        end
      else if Ascii.eqb c "." then
        match rest with
        | String d rest' =>
            if Ascii.eqb d "*"
            then option_map (cons RxDotStar) (parseItems rest')
            else None
        | EmptyString => None
        end
      else if isRegexSpecial c || Ascii.eqb c "*" then None
      else option_map (cons (RxChar c)) (parseItems rest)
  end.

Definition RegExp_new (source : string) (ignoreCase : bool) : option RegExp :=
  match source with
  | String c rest =>
      if Ascii.eqb c "^"
      then option_map (fun items => mkRegExp items ignoreCase) (parseItems rest)
      else None
  | EmptyString => None
  end.

(** Canonicalisation under the [i] flag, on ASCII: [a]..[z] go to
    [A]..[Z]; every other code unit is left alone. *)
Definition canonicalize (ignoreCase : bool) (c : ascii) : ascii :=
  if ignoreCase then
    let n := nat_of_ascii c in
    if ((97 <=? n)%nat && (n <=? 122)%nat)%bool then ascii_of_nat (n - 32) else c
  else c.

(** [.] without the [s] flag matches every character that is not a line
    terminator (LF and CR among the bytes). *)
Definition dotMatches (c : ascii) : bool :=
  negb (Ascii.eqb c (ascii_of_nat 10) || Ascii.eqb c (ascii_of_nat 13)).

(** Anchored matching of a list of items against a whole string. *)
Fixpoint matchItems (ic : bool) (items : list RxItem) : string -> bool :=
  match items with
  | [] => fun s => match s with EmptyString => true | _ => false end
  | RxChar c :: items' => fun s =>
      match s with
      | String d s' =>
          Ascii.eqb (canonicalize ic c) (canonicalize ic d)
          && matchItems ic items' s'
      | EmptyString => false
      end
  | RxDotStar :: items' =>
      fix star (s : string) : bool :=
        matchItems ic items' s
        || match s with
           | String d s' => dotMatches d && star s'
           | EmptyString => false
           end
  end.

(** [pattern.test(hostname)]. *)
Definition test (re : RegExp) (hostname : string) : bool :=
  matchItems (rx_ignoreCase re) (rx_items re) hostname.

(** ** [String.prototype.trim] and [split(",")] on byte strings

    [trim] strips the white space and the line terminators; among the bytes
    these are the space and the codes 9 to 13. *)
Definition isWhiteSpace (c : ascii) : bool :=
  let n := nat_of_ascii c in
  ((n =? 32)%nat || ((9 <=? n)%nat && (n <=? 13)%nat))%bool.

Fixpoint trimStart (s : string) : string :=
  match s with
  | String c rest => if isWhiteSpace c then trimStart rest else s
  | EmptyString => EmptyString
  end.

Fixpoint trimEnd (s : string) : string :=
  match s with
  | EmptyString => EmptyString
  | String c rest =>
      match trimEnd rest with
      | EmptyString => if isWhiteSpace c then EmptyString else String c EmptyString
      | rest' => String c rest'
      end
  end.

Definition trim (s : string) : string := trimEnd (trimStart s).

(** [csv.split(",")]: always at least one piece. *)
Fixpoint splitComma (s : string) : list string :=
  match s with
  | EmptyString => [EmptyString]
  | String c rest =>
      if Ascii.eqb c ","
      then EmptyString :: splitComma rest
      else match splitComma rest with
           | piece :: pieces => String c piece :: pieces
           | [] => [String c EmptyString]
           end
  end.

(** The body of the [map] callback: [null] for an empty piece, the compiled
    expression otherwise; [inr] stands for the rethrown error. *)
Definition compile (trimmed : string) : option RegExp :=
  RegExp_new (regexSource trimmed) true.

Definition compilePattern (pattern : string) : string + option RegExp :=
  let trimmed := trim pattern in
  if String.eqb trimmed "" then inr None
  else match compile trimmed with
       | Some re => inr (Some re)
       | None => inl ("Invalid host pattern " +:+ trimmed)
       end.

(** [parseHostPatterns]: [inl] when a pattern fails to compile (the thrown
    error aborts the start of the process). *)
Fixpoint collectPatterns (pieces : list string) : string + list RegExp :=
  match pieces with
  | [] => inr []
  | p :: ps =>
      match compilePattern p with
      | inl err => inl err
      | inr r =>
          match collectPatterns ps with
          | inl err => inl err
          | inr res => inr (match r with Some re => re :: res | None => res end)
          end
      end
  end.

Definition parseHostPatterns (csv : option string) : string + list RegExp :=
  match csv with
  | None => inr []
  | Some s =>
      if String.eqb s "" || String.eqb (trim s) "" then inr []
      else collectPatterns (splitComma s)
  end.

(** ** Wildcard matching, as the specification words it

    A pattern matches a whole host name (anchored); [*] stands for any run of
    characters, every other character stands for itself, and letters are
    compared without regard to case. *)
Definition isLower (c : ascii) : bool :=
  ((97 <=? nat_of_ascii c)%nat && (nat_of_ascii c <=? 122)%nat)%bool.

Definition upperOf (c : ascii) : ascii := ascii_of_nat (nat_of_ascii c - 32).

Definition sameIgnoringCase (c d : ascii) : Prop :=
  c = d \/ (isLower c = true /\ d = upperOf c) \/ (isLower d = true /\ c = upperOf d).

Inductive wildcardMatch : string -> string -> Prop :=
| wm_empty : wildcardMatch EmptyString EmptyString
| wm_star (p run rest : string) :
    wildcardMatch p rest -> wildcardMatch (String "*" p) (run +:+ rest)
| wm_char (c d : ascii) (p h : string) :
    c <> "*"%char -> sameIgnoringCase c d -> wildcardMatch p h ->
    wildcardMatch (String c p) (String d h).

(** The items that a trimmed pattern stands for, read off the pattern. *)
Fixpoint itemsOf (p : string) : list RxItem :=
  match p with
  | EmptyString => []
  | String c rest => (if Ascii.eqb c "*" then RxDotStar else RxChar c) :: itemsOf rest
  end.

Fixpoint allChars (P : ascii -> bool) (s : string) : bool :=
  match s with
  | EmptyString => true
  | String c rest => P c && allChars P rest
  end.

(** Host names carry no line terminator (the URL parser rejects them). *)
Definition noLineTerminator (h : string) : Prop := allChars dotMatches h = true.

(** The boolean form of [sameIgnoringCase], and the 256 characters. *)
Definition sameIgnoringCaseb (c d : ascii) : bool :=
  Ascii.eqb c d
  || (isLower c && Ascii.eqb d (upperOf c))
  || (isLower d && Ascii.eqb c (upperOf d)).

Definition allAscii : list ascii := map ascii_of_nat (seq 0 256).

End HostPattern.


(* ===================================================================== *)
(** * Sockets, log lines and the other observable effects *)
(* ===================================================================== *)

(** The two legs of a connection. *)
Inductive Leg : Type := Downstream | Upstream.

(** [WebSocket.CONNECTING], [OPEN], [CLOSING], [CLOSED]. *)
Inductive ReadyState : Type := CONNECTING | OPEN | CLOSING | CLOSED.

Inductive Level : Type := LvlTrace | LvlDebug | LvlInfo | LvlWarn | LvlError.

(** The three callbacks that the code hands to [setTimeout]/[setInterval]. *)
Inductive TimerKind : Type :=
| TDownstreamIdle     (* server.ts, [resetDownstreamIdleTimer] *)
| TPing               (* server.ts, [setInterval] of the keepalive *)
| TUpstreamIdle.      (* connect.ts, [resetIdleTimer] *)

(** A binary frame. *)
Definition Buffer : Type := list Byte.byte.

(** What a handler does to the outside world, in program order.
    [LogConnectionClosed] is the stats line of [cleanup]: it carries the code,
    the reason and the two byte counters as numbers ([formatBytes] only
    renders them); the duration, read off the wall clock, is left out. *)
Inductive Effect : Type :=
| Log (lvl : Level) (msg : string)
| LogConnectionClosed (code : Z) (reason : string) (bytesDown2Up bytesUp2Down : Z)
| WsClose (leg : Leg) (code : Z) (reason : string)
| WsTerminate (leg : Leg)
| WsSend (leg : Leg) (data : Buffer)
| WsPing (leg : Leg)
| WsPause (leg : Leg)
| WsResume (leg : Leg)
| TimerSet (id : nat) (kind : TimerKind)
| TimerCleared (id : nat)
| ConnectUpstream (url : string).

Definition ReadyState_eqb (a b : ReadyState) : bool :=
  match a, b with
  | CONNECTING, CONNECTING | OPEN, OPEN | CLOSING, CLOSING | CLOSED, CLOSED => true
  | _, _ => false
  end.

(* ===================================================================== *)
(** * Backpressure (util/backpressure.ts) *)
(* ===================================================================== *)

Module Backpressure.

Record BackpressureState : Type := mkBackpressure {
  isPaused : bool;
  totalBytes : Z
}.

(** [buffered < config.maxBufferedBytes * 0.5].  Both operands are integers,
    the product with 0.5 is exact, and the comparison is the one of the
    rationals: [buffered < T/2] iff [2 * buffered < T]. *)
Definition belowHalf (buffered maxBufferedBytes : Z) : bool :=
  2 * buffered <? maxBufferedBytes.

(** [checkBackpressure(ws, state, opposite, log, direction)];
    [buffered] is the value read from [ws.bufferedAmount].  The record
    [state] is passed by reference: the result is its new content. *)
Definition checkBackpressure (maxBufferedBytes buffered : Z)
    (state : BackpressureState) (opposite : Leg)
  : BackpressureState * list Effect :=
  if (maxBufferedBytes <? buffered) && negb (isPaused state)
  then (mkBackpressure true (totalBytes state),
        [WsPause opposite;
         Log LvlWarn "Backpressure threshold exceeded, pausing opposite stream"])
  else (state, []).

(** [handleDrain(ws, state, opposite, log, direction)]. *)
Definition handleDrain (maxBufferedBytes buffered : Z)
    (state : BackpressureState) (opposite : Leg)
  : BackpressureState * list Effect :=
  if isPaused state && belowHalf buffered maxBufferedBytes
  then (mkBackpressure false (totalBytes state),
        [WsResume opposite;
         Log LvlInfo "Backpressure relieved, resuming opposite stream"])
  else (state, []).

(** One direction of forwarding, seen from its controller: a frame was
    forwarded into the receiver, or the receiver signalled a drain; each
    carries the receiver's [bufferedAmount] at that moment. *)
Inductive Signal : Type :=
| Forwarded (buffered : Z)
| Drained (buffered : Z).

Definition onSignal (maxBufferedBytes : Z) (opposite : Leg) (sg : Signal)
    (state : BackpressureState) : BackpressureState * list Effect :=
  match sg with
  | Forwarded b => checkBackpressure maxBufferedBytes b state opposite
  | Drained b => handleDrain maxBufferedBytes b state opposite
  end.

Fixpoint runSignals (maxBufferedBytes : Z) (opposite : Leg) (sgs : list Signal)
    (state : BackpressureState) : BackpressureState * list Effect :=
  match sgs with
  | [] => (state, [])
  | sg :: rest =>
      let '(state1, e1) := onSignal maxBufferedBytes opposite sg state in
      let '(state2, e2) := runSignals maxBufferedBytes opposite rest state1 in
      (state2, e1 ++ e2)
  end.

(** The pause and resume instructions among the effects, in order
    ([true] for a pause, [false] for a resume). *)
Definition flowOf (e : Effect) : option bool :=
  match e with
  | WsPause _ => Some true
  | WsResume _ => Some false
  | _ => None
  end.

Definition flow (es : list Effect) : list bool := omap flowOf es.

(** Instructions that alternate, starting from the given [isPaused]: a pause
    only while not paused, a resume only while paused. *)
Fixpoint alternates (paused : bool) (instructions : list bool) : Prop :=
  match instructions with
  | [] => True
  | b :: rest => b = negb paused /\ alternates b rest
  end.

End Backpressure.

(* ===================================================================== *)
(** * Admission (server.ts, head of the connection handler) *)
(* ===================================================================== *)

Module Gate.

(** The fields of [config] that a connection reads. *)
Record Config : Type := mkConfig {
  allowedOrigins : list string;
  token : option string;
  clientIdleTimeoutMs : Z;
  upstreamIdleTimeoutMs : Z;
  pingIntervalMs : Z;
  maxBufferedBytes : Z;
  allowedUpstreamHostPatterns : list HostPattern.RegExp
}.

(** What the handler reads from the upgrade request: the search parameters
    of [new URL(request.url, base)] ([None] when that constructor throws)
    and the [Origin] header. *)
Record Request : Type := mkRequest {
  query : option (list (string * string));
  origin : option string
}.

(** The two fields read from [new URL(upstreamUrl)]. *)
Record ParsedURL : Type := mkParsedURL {
  protocol : string;
  hostname : string
}.

(** [URLSearchParams.get]: the first value of the name, or [null]. *)
Fixpoint params_get (name : string) (params : list (string * string)) : option string :=
  match params with
  | [] => None
  | (k, v) :: rest => if String.eqb k name then Some v else params_get name rest
  end.

(** Truthiness of [string | null | undefined]: the value when it is a
    non-empty string. *)
Definition truthy (s : option string) : option string :=
  match s with
  | Some v => if String.eqb v "" then None else Some v
  | None => None
  end.

Definition validateOrigin (cfg : Config) (origin : option string) : bool :=
  if (length (allowedOrigins cfg) =? 0)%nat then true
  else match truthy origin with
       | None => false
       | Some o => existsb (String.eqb o) (allowedOrigins cfg)
       end.

Definition validateToken (cfg : Config) (providedToken : option string) : bool :=
  match truthy (token cfg) with
  | None => true
  | Some t =>
      match providedToken with
      | Some p => String.eqb p t
      | None => false
      end
  end.

Inductive Verdict : Type :=
| Reject (code : Z) (reason : string)
| Admit (upstreamUrl : string).

Section Admission.

(** The two built-ins that read the [upstream] parameter; each may throw
    ([None]). *)
Variable decodeURIComponent : string -> option string.
Variable URL_new : string -> option ParsedURL.

(** Lines 86-147 of server.ts, in program order.  The first [None] case is
    the outer [catch]. *)
Definition admission (cfg : Config) (req : Request) : Verdict :=
  match query req with
  | None => Reject 1011 "Internal server error"
  | Some params =>
      match truthy (params_get "upstream" params) with
      | None => Reject 4002 "Missing upstream URL"
      | Some upstreamParam =>
          match decodeURIComponent upstreamParam with
          | None => Reject 4002 "Invalid upstream URL"
          | Some upstreamUrl =>
              match URL_new upstreamUrl with
              | None => Reject 4002 "Invalid upstream URL"
              | Some parsedUrl =>
                  if negb (String.eqb (protocol parsedUrl) "wss:")
                     && negb (String.eqb (protocol parsedUrl) "ws:")
                  then Reject 4003 "Invalid upstream protocol"
                  else if (0 <? length (allowedUpstreamHostPatterns cfg))%nat
                  then
                    if negb (existsb (fun pattern => HostPattern.test pattern (hostname parsedUrl))
                                     (allowedUpstreamHostPatterns cfg))
                    then Reject 4004 "Upstream host not allowed"
                    else
                      let token := truthy (params_get "token" params) in
                      if negb (validateOrigin cfg (origin req))
                      then Reject 4000 "Origin not allowed"
                      else if negb (validateToken cfg token)
                      then Reject 4001 "Invalid or missing token"
                      else Admit upstreamUrl
                  else Reject 4004 "No upstream host patterns configured"
              end
          end
      end
  end.

(** What the gate does to the outside: a rejection closes the downstream
    socket with the code; an admission goes on to [connectUpstream]. *)
Definition admissionEffects (cfg : Config) (req : Request) : list Effect :=
  match admission cfg req with
  | Reject code reason => [WsClose Downstream code reason]
  | Admit upstreamUrl =>
      [Log LvlInfo "Establishing upstream connection"; ConnectUpstream upstreamUrl]
  end.

(** ** The order of the checks, as the specification words it

    Three checks in a fixed order; each either passes or names its close
    code.  [firstFailure] is the code of the earliest check that fails. *)
Inductive Check : Type := CheckUpstream | CheckOrigin | CheckToken.

Definition precedence : list Check := [CheckUpstream; CheckOrigin; CheckToken].

Definition hostAllowed (cfg : Config) (host : string) : bool :=
  existsb (fun pattern => HostPattern.test pattern host) (allowedUpstreamHostPatterns cfg).

Definition failure (cfg : Config) (params : list (string * string))
    (origin : option string) (c : Check) : option Z :=
  match c with
  | CheckUpstream =>
      match truthy (params_get "upstream" params) with
      | None => Some 4002
      | Some p =>
          match decodeURIComponent p with
          | None => Some 4002
          | Some u =>
              match URL_new u with
              | None => Some 4002
              | Some parsed =>
                  if String.eqb (protocol parsed) "wss:" || String.eqb (protocol parsed) "ws:"
                  then if hostAllowed cfg (hostname parsed) then None else Some 4004
                  else Some 4003
              end
          end
      end
  | CheckOrigin => if validateOrigin cfg origin then None else Some 4000
  | CheckToken =>
      if validateToken cfg (truthy (params_get "token" params)) then None else Some 4001
  end.

Fixpoint firstFailure (cfg : Config) (params : list (string * string))
    (origin : option string) (checks : list Check) : option Z :=
  match checks with
  | [] => None
  | c :: rest =>
      match failure cfg params origin c with
      | Some code => Some code
      | None => firstFailure cfg params origin rest
      end
  end.

End Admission.

Definition verdictCode (v : Verdict) : option Z :=
  match v with
  | Reject code _ => Some code
  | Admit _ => None
  end.

(** A reader of URLs of the shape [scheme://host] or [scheme://host/path]
    with a host free of [:], [/], [?] and [#]; used to run the gate on
    concrete requests.  [decodeURIComponent] is the identity on strings
    without [%]. *)
Fixpoint splitAt (stop : ascii -> bool) (s : string) : string * string :=
  match s with
  | EmptyString => (EmptyString, EmptyString)
  | String c rest =>
      if stop c then (EmptyString, s)
      else let '(a, b) := splitAt stop rest in (String c a, b)
  end.

Definition plainURL (s : string) : option ParsedURL :=
  let '(scheme, rest) := splitAt (Ascii.eqb ":") s in
  match rest with
  | String _ (String s1 (String s2 rest')) =>
      if Ascii.eqb s1 "/" && Ascii.eqb s2 "/" && negb (String.eqb scheme "") then
        let '(host, tail) := splitAt (fun c => Ascii.eqb c "/" || Ascii.eqb c ":"
                                               || Ascii.eqb c "?" || Ascii.eqb c "#") rest' in
        if String.eqb host "" then None
        else match tail with
             | EmptyString => Some (mkParsedURL (scheme +:+ ":") host)
             | String c _ => if Ascii.eqb c "/" then Some (mkParsedURL (scheme +:+ ":") host) else None
             end
      else None
  | _ => None
  end.

Definition plainDecode (s : string) : option string :=
  if existsb (Ascii.eqb "%") (list_ascii_of_string s) then None else Some s.

(** ** Example configurations and requests *)

(** A configuration with no host pattern, and one with an origin allowlist,
    a token and the pattern [*.web.telegram.org]. *)
Definition cfgNoPatterns : Config :=
  mkConfig [] None 120000 120000 25000 5000000 [].

Definition cfgTelegram : Config :=
  mkConfig ["https://web.telegram.org"] (Some "secret123") 120000 120000 25000 1000
           [HostPattern.mkRegExp (HostPattern.itemsOf "*.web.telegram.org") true].

Definition requestFor (upstream : string) (o : option string) : Request :=
  mkRequest (Some [("upstream", upstream)]) o.

End Gate.

(* ===================================================================== *)
(** * The relay engine (server.ts and upstream/connect.ts) *)
(* ===================================================================== *)

Module Relay.

Import Backpressure.

(** The variables that the handlers of one connection share: the closure of
    the connection handler of server.ts, the closure of [connectUpstream],
    the [readyState] of the two sockets, and the timers that the event loop
    holds for this connection. *)
Record World : Type := mkWorld {
  bytesDownstreamToUpstream : Z;   (* stats.bytesDownstreamToUpstream *)
  bytesUpstreamToDownstream : Z;   (* stats.bytesUpstreamToDownstream *)
  downstreamIdleTimer : option nat;   (* NodeJS.Timeout | null *)
  pingTimer : option nat;   (* NodeJS.Timeout | null *)
  downstreamAlive : bool;
  closed : bool;
  pendingMessages : list Buffer;
  downstreamBackpressure : BackpressureState;
  upstreamBackpressure : BackpressureState;
  idleTimer : option nat;   (* connect.ts: the connector's [idleTimer] *)
  downstreamReadyState : ReadyState;   (* downstream.readyState *)
  upstreamReadyState : ReadyState;   (* upstream.readyState *)
  timers : gmap nat TimerKind;   (* the armed timers of the event loop *)
  nextTimerId : nat   (* the next fresh timer handle *)
}.

(** Assignment to one variable. *)
Definition set_bytesDownstreamToUpstream (v : Z) (w : World) : World :=
  mkWorld v (bytesUpstreamToDownstream w) (downstreamIdleTimer w) (pingTimer w) (downstreamAlive w) (closed w) (pendingMessages w) (downstreamBackpressure w) (upstreamBackpressure w) (idleTimer w) (downstreamReadyState w) (upstreamReadyState w) (timers w) (nextTimerId w).
Definition set_bytesUpstreamToDownstream (v : Z) (w : World) : World :=
  mkWorld (bytesDownstreamToUpstream w) v (downstreamIdleTimer w) (pingTimer w) (downstreamAlive w) (closed w) (pendingMessages w) (downstreamBackpressure w) (upstreamBackpressure w) (idleTimer w) (downstreamReadyState w) (upstreamReadyState w) (timers w) (nextTimerId w).
Definition set_downstreamIdleTimer (v : option nat) (w : World) : World :=
  mkWorld (bytesDownstreamToUpstream w) (bytesUpstreamToDownstream w) v (pingTimer w) (downstreamAlive w) (closed w) (pendingMessages w) (downstreamBackpressure w) (upstreamBackpressure w) (idleTimer w) (downstreamReadyState w) (upstreamReadyState w) (timers w) (nextTimerId w).
Definition set_pingTimer (v : option nat) (w : World) : World :=
  mkWorld (bytesDownstreamToUpstream w) (bytesUpstreamToDownstream w) (downstreamIdleTimer w) v (downstreamAlive w) (closed w) (pendingMessages w) (downstreamBackpressure w) (upstreamBackpressure w) (idleTimer w) (downstreamReadyState w) (upstreamReadyState w) (timers w) (nextTimerId w).
Definition set_downstreamAlive (v : bool) (w : World) : World :=
  mkWorld (bytesDownstreamToUpstream w) (bytesUpstreamToDownstream w) (downstreamIdleTimer w) (pingTimer w) v (closed w) (pendingMessages w) (downstreamBackpressure w) (upstreamBackpressure w) (idleTimer w) (downstreamReadyState w) (upstreamReadyState w) (timers w) (nextTimerId w).
Definition set_closed (v : bool) (w : World) : World :=
  mkWorld (bytesDownstreamToUpstream w) (bytesUpstreamToDownstream w) (downstreamIdleTimer w) (pingTimer w) (downstreamAlive w) v (pendingMessages w) (downstreamBackpressure w) (upstreamBackpressure w) (idleTimer w) (downstreamReadyState w) (upstreamReadyState w) (timers w) (nextTimerId w).
Definition set_pendingMessages (v : list Buffer) (w : World) : World :=
  mkWorld (bytesDownstreamToUpstream w) (bytesUpstreamToDownstream w) (downstreamIdleTimer w) (pingTimer w) (downstreamAlive w) (closed w) v (downstreamBackpressure w) (upstreamBackpressure w) (idleTimer w) (downstreamReadyState w) (upstreamReadyState w) (timers w) (nextTimerId w).
Definition set_downstreamBackpressure (v : BackpressureState) (w : World) : World :=
  mkWorld (bytesDownstreamToUpstream w) (bytesUpstreamToDownstream w) (downstreamIdleTimer w) (pingTimer w) (downstreamAlive w) (closed w) (pendingMessages w) v (upstreamBackpressure w) (idleTimer w) (downstreamReadyState w) (upstreamReadyState w) (timers w) (nextTimerId w).
Definition set_upstreamBackpressure (v : BackpressureState) (w : World) : World :=
  mkWorld (bytesDownstreamToUpstream w) (bytesUpstreamToDownstream w) (downstreamIdleTimer w) (pingTimer w) (downstreamAlive w) (closed w) (pendingMessages w) (downstreamBackpressure w) v (idleTimer w) (downstreamReadyState w) (upstreamReadyState w) (timers w) (nextTimerId w).
Definition set_idleTimer (v : option nat) (w : World) : World :=
  mkWorld (bytesDownstreamToUpstream w) (bytesUpstreamToDownstream w) (downstreamIdleTimer w) (pingTimer w) (downstreamAlive w) (closed w) (pendingMessages w) (downstreamBackpressure w) (upstreamBackpressure w) v (downstreamReadyState w) (upstreamReadyState w) (timers w) (nextTimerId w).
Definition set_downstreamReadyState (v : ReadyState) (w : World) : World :=
  mkWorld (bytesDownstreamToUpstream w) (bytesUpstreamToDownstream w) (downstreamIdleTimer w) (pingTimer w) (downstreamAlive w) (closed w) (pendingMessages w) (downstreamBackpressure w) (upstreamBackpressure w) (idleTimer w) v (upstreamReadyState w) (timers w) (nextTimerId w).
Definition set_upstreamReadyState (v : ReadyState) (w : World) : World :=
  mkWorld (bytesDownstreamToUpstream w) (bytesUpstreamToDownstream w) (downstreamIdleTimer w) (pingTimer w) (downstreamAlive w) (closed w) (pendingMessages w) (downstreamBackpressure w) (upstreamBackpressure w) (idleTimer w) (downstreamReadyState w) v (timers w) (nextTimerId w).
Definition set_timers (v : gmap nat TimerKind) (w : World) : World :=
  mkWorld (bytesDownstreamToUpstream w) (bytesUpstreamToDownstream w) (downstreamIdleTimer w) (pingTimer w) (downstreamAlive w) (closed w) (pendingMessages w) (downstreamBackpressure w) (upstreamBackpressure w) (idleTimer w) (downstreamReadyState w) (upstreamReadyState w) v (nextTimerId w).
Definition set_nextTimerId (v : nat) (w : World) : World :=
  mkWorld (bytesDownstreamToUpstream w) (bytesUpstreamToDownstream w) (downstreamIdleTimer w) (pingTimer w) (downstreamAlive w) (closed w) (pendingMessages w) (downstreamBackpressure w) (upstreamBackpressure w) (idleTimer w) (downstreamReadyState w) (upstreamReadyState w) (timers w) v.

(** ** Handlers as state transformers that emit effects *)
Definition M (A : Type) : Type := World -> A * World * list Effect.

#[global] Instance M_ret : MRet M := fun A x w => (x, w, []).

#[global] Instance M_bind : MBind M := fun A B k m w =>
  let '(x, w1, e1) := m w in
  let '(y, w2, e2) := k x w1 in
  (y, w2, e1 ++ e2).

Definition gets {A : Type} (f : World -> A) : M A := fun w => (f w, w, []).
Definition modify (f : World -> World) : M unit := fun w => (tt, f w, []).
Definition emit (e : Effect) : M unit := fun w => (tt, w, [e]).
Definition log (lvl : Level) (msg : string) : M unit := emit (Log lvl msg).
Definition skip : M unit := mret tt.

Definition exec {A : Type} (m : M A) (w : World) : World * list Effect :=
  let '(_, w', e) := m w in (w', e).

(** ** The event loop: [setTimeout]/[setInterval] and [clearTimeout]/[clearInterval] *)
Definition setTimer (kind : TimerKind) : M nat := fun w =>
  let id := nextTimerId w in
  (id, set_nextTimerId (S id) (set_timers (<[id := kind]> (timers w)) w),
   [TimerSet id kind]).

Definition clearTimer (id : nat) : M unit := fun w =>
  (tt, set_timers (delete id (timers w)) w, [TimerCleared id]).

(** ** The [ws] sockets

    [close()] and [terminate()] leave a socket that is not yet [CLOSED] in
    [CLOSING]; the [close] event, later, brings it to [CLOSED]. *)
Definition readyState (leg : Leg) (w : World) : ReadyState :=
  match leg with
  | Downstream => downstreamReadyState w
  | Upstream => upstreamReadyState w
  end.

Definition set_readyState (leg : Leg) (rs : ReadyState) (w : World) : World :=
  match leg with
  | Downstream => set_downstreamReadyState rs w
  | Upstream => set_upstreamReadyState rs w
  end.

Definition beginClosing (leg : Leg) (w : World) : World :=
  match readyState leg w with
  | CLOSED => w
  | _ => set_readyState leg CLOSING w
  end.

Definition wsClose (leg : Leg) (code : Z) (reason : string) : M unit :=
  modify (beginClosing leg) ;; emit (WsClose leg code reason).

Definition wsTerminate (leg : Leg) : M unit :=
  modify (beginClosing leg) ;; emit (WsTerminate leg).

Definition wsSend (leg : Leg) (data : Buffer) : M unit := emit (WsSend leg data).
Definition wsPing (leg : Leg) : M unit := emit (WsPing leg).

(** ** server.ts: the closure of the connection handler *)

(** [resetDownstreamIdleTimer]. *)
Definition resetDownstreamIdleTimer : M unit :=
  h ← gets downstreamIdleTimer;
  match h with
  | Some id => clearTimer id
  | None => skip
  end ;;
  id ← setTimer TDownstreamIdle;
  modify (set_downstreamIdleTimer (Some id)).

(** [(code === 1005 || code === 1006) ? 1000 : code]. *)
Definition safeCode (code : Z) : Z :=
  if (code =? 1005) || (code =? 1006) then 1000 else code.

(** [cleanup(code, reason)]. *)
Definition cleanup (code : Z) (reason : string) : M unit :=
  c ← gets closed;
  if (c : bool) then skip
  else
    modify (set_closed true) ;;
    d2u ← gets bytesDownstreamToUpstream;
    u2d ← gets bytesUpstreamToDownstream;
    emit (LogConnectionClosed code reason d2u u2d) ;;
    h ← gets downstreamIdleTimer;
    match h with
    | Some id => clearTimer id ;; modify (set_downstreamIdleTimer None)
    | None => skip
    end ;;
    p ← gets pingTimer;
    match p with
    | Some id => clearTimer id ;; modify (set_pingTimer None)
    | None => skip
    end ;;
    rsd ← gets downstreamReadyState;
    (if ReadyState_eqb rsd OPEN
     then wsClose Downstream (safeCode code) reason
     else wsTerminate Downstream) ;;
    rsu ← gets upstreamReadyState;
    if ReadyState_eqb rsu OPEN
    then wsClose Upstream (safeCode code) reason
    else wsTerminate Upstream.

(** The callback of [downstreamIdleTimer]. *)
Definition downstreamIdleTimeout : M unit :=
  log LvlWarn "Downstream idle timeout reached, closing connection" ;;
  cleanup 1000 "Idle timeout".

(** The callback of [pingTimer]. *)
Definition pingTick : M unit :=
  alive ← gets downstreamAlive;
  if negb (alive : bool) then
    log LvlWarn "Downstream ping timeout, terminating connection" ;;
    cleanup 1000 "Ping timeout"
  else
    modify (set_downstreamAlive false) ;;
    wsPing Downstream ;;
    log LvlTrace "Sent ping to downstream".

(** [checkBackpressure] and [handleDrain] on a record of the closure. *)
Definition applyBackpressure
    (f : BackpressureState -> BackpressureState * list Effect)
    (get : World -> BackpressureState) (set : BackpressureState -> World -> World)
  : M unit := fun w =>
  let '(st, e) := f (get w) in (tt, set st w, e).

(** [downstream.on("message", (data, isBinary) => ...)]; [buffered] is what
    [upstream.bufferedAmount] reads after the [send]. *)
Definition onDownstreamMessage (cfg : Gate.Config) (data : Buffer) (isBinary : bool)
    (buffered : Z) : M unit :=
  if negb isBinary then
    log LvlWarn "Received non-binary message from downstream, ignoring"
  else
    let bytes := Z.of_nat (length data) in
    modify (fun w => set_bytesDownstreamToUpstream (bytesDownstreamToUpstream w + bytes) w) ;;
    log LvlDebug "Received message from downstream" ;;
    resetDownstreamIdleTimer ;;
    rs ← gets upstreamReadyState;
    match rs with
    | OPEN =>
        wsSend Upstream data ;;
        applyBackpressure
          (fun st => checkBackpressure (Gate.maxBufferedBytes cfg) buffered st Downstream)
          upstreamBackpressure set_upstreamBackpressure
    | CONNECTING =>
        log LvlDebug "Buffering message until upstream is ready" ;;
        modify (fun w => set_pendingMessages (pendingMessages w ++ [data]) w)
    | _ =>
        log LvlWarn "Upstream closed/closing, dropping message"
    end.

(** [downstream.on("pong")]. *)
Definition onDownstreamPong : M unit :=
  log LvlTrace "Received pong from downstream" ;;
  modify (set_downstreamAlive true) ;;
  resetDownstreamIdleTimer.

(** [downstream.on("ping")]. *)
Definition onDownstreamPing : M unit :=
  log LvlTrace "Received ping from downstream" ;;
  resetDownstreamIdleTimer.

(** [reason?.toString() || fallback]. *)
Definition reasonOr (reason fallback : string) : string :=
  if String.eqb reason "" then fallback else reason.

(** [downstream.on("close", (code, reason) => ...)]. *)
Definition onDownstreamClose (code : Z) (reason : string) : M unit :=
  log LvlInfo "Downstream closed" ;;
  cleanup code (reasonOr reason "Downstream closed").

(** [downstream.on("error")]. *)
Definition onDownstreamError : M unit :=
  log LvlError "Downstream error" ;;
  cleanup 1011 "Downstream error".

(** [upstream.on("open")] of server.ts: the flush of [pendingMessages]. *)
Fixpoint sendAll (leg : Leg) (messages : list Buffer) : M unit :=
  match messages with
  | [] => skip
  | message :: rest => wsSend leg message ;; sendAll leg rest
  end.

Definition onUpstreamOpen : M unit :=
  log LvlInfo "Upstream connected successfully" ;;
  pending ← gets pendingMessages;
  if (0 <? length (pending : list Buffer))%nat then
    log LvlInfo "Flushing buffered messages to upstream" ;;
    sendAll Upstream pending ;;
    modify (set_pendingMessages [])
  else skip.

(** [upstream.on("message", (data, isBinary) => ...)] of server.ts;
    [buffered] is what [downstream.bufferedAmount] reads after the [send]. *)
Definition onUpstreamMessage (cfg : Gate.Config) (data : Buffer) (isBinary : bool)
    (buffered : Z) : M unit :=
  if negb isBinary then
    log LvlWarn "Received non-binary message from upstream, ignoring"
  else
    let bytes := Z.of_nat (length data) in
    modify (fun w => set_bytesUpstreamToDownstream (bytesUpstreamToDownstream w + bytes) w) ;;
    log LvlDebug "Received message from upstream" ;;
    rs ← gets downstreamReadyState;
    if ReadyState_eqb rs OPEN then
      wsSend Downstream data ;;
      applyBackpressure
        (fun st => checkBackpressure (Gate.maxBufferedBytes cfg) buffered st Upstream)
        downstreamBackpressure set_downstreamBackpressure
    else
      log LvlWarn "Downstream not open, dropping message".

(** [upstream.on("close")] and [upstream.on("error")] of server.ts. *)
Definition onUpstreamClose (code : Z) (reason : string) : M unit :=
  log LvlInfo "Upstream closed" ;;
  cleanup code (reasonOr reason "Upstream closed").

Definition onUpstreamError : M unit :=
  log LvlError "Upstream error" ;;
  cleanup 1011 "Upstream error".

(** [downstream.on("drain")] and [upstream.on("drain")]. *)
Definition onDownstreamDrain (cfg : Gate.Config) (buffered : Z) : M unit :=
  applyBackpressure
    (fun st => handleDrain (Gate.maxBufferedBytes cfg) buffered st Upstream)
    downstreamBackpressure set_downstreamBackpressure.

Definition onUpstreamDrain (cfg : Gate.Config) (buffered : Z) : M unit :=
  applyBackpressure
    (fun st => handleDrain (Gate.maxBufferedBytes cfg) buffered st Downstream)
    upstreamBackpressure set_upstreamBackpressure.

(** ** upstream/connect.ts: the closure of [connectUpstream] *)

(** [resetIdleTimer]. *)
Definition resetIdleTimer : M unit :=
  h ← gets idleTimer;
  match h with
  | Some id => clearTimer id
  | None => skip
  end ;;
  id ← setTimer TUpstreamIdle;
  modify (set_idleTimer (Some id)).

(** The callback of [idleTimer]. *)
Definition upstreamIdleTimeout : M unit :=
  log LvlWarn "Upstream idle timeout reached, closing connection" ;;
  wsTerminate Upstream.

Definition connectorOnOpen : M unit :=
  log LvlInfo "Upstream connection opened" ;;
  resetIdleTimer.

Definition connectorOnMessage : M unit :=
  log LvlTrace "Received message from upstream" ;;
  resetIdleTimer.

Definition connectorOnPing : M unit :=
  log LvlTrace "Received ping from upstream" ;;
  resetIdleTimer.

Definition connectorOnPong : M unit :=
  log LvlTrace "Received pong from upstream" ;;
  resetIdleTimer.

Definition cancelIdleTimer : M unit :=
  h ← gets idleTimer;
  match h with
  | Some id => clearTimer id ;; modify (set_idleTimer None)
  | None => skip
  end.

Definition connectorOnClose : M unit :=
  log LvlInfo "Upstream connection closed" ;;
  cancelIdleTimer.

Definition connectorOnError : M unit :=
  log LvlError "Upstream connection error" ;;
  cancelIdleTimer.

Definition connectorOnUnexpectedResponse : M unit :=
  log LvlError "Unexpected response from upstream".

(** ** Events *)

(** What the sockets and the event loop deliver to the connection.  A
    message event carries the [bufferedAmount] that the handler will read
    from the opposite socket after its [send]; a drain event carries the one
    of the draining socket. *)
Inductive Event : Type :=
| DownstreamMessage (data : Buffer) (isBinary : bool) (buffered : Z)
| DownstreamPong
| DownstreamPing
| DownstreamClose (code : Z) (reason : string)
| DownstreamError
| DownstreamDrain (buffered : Z)
| UpstreamOpen
| UpstreamMessage (data : Buffer) (isBinary : bool) (buffered : Z)
| UpstreamPing
| UpstreamPong
| UpstreamClose (code : Z) (reason : string)
| UpstreamError
| UpstreamDrain (buffered : Z)
| UpstreamUnexpectedResponse
| TimerFired (id : nat).

(** The listeners of an event, in the order of their registration: the
    connector registers its listeners inside [connectUpstream], before
    server.ts registers its own on the returned socket. *)
Definition timerCallback (kind : TimerKind) : M unit :=
  match kind with
  | TDownstreamIdle => downstreamIdleTimeout
  | TPing => pingTick
  | TUpstreamIdle => upstreamIdleTimeout
  end.

Definition handle (cfg : Gate.Config) (ev : Event) : M unit :=
  match ev with
  | DownstreamMessage data isBinary buffered => onDownstreamMessage cfg data isBinary buffered
  | DownstreamPong => onDownstreamPong
  | DownstreamPing => onDownstreamPing
  | DownstreamClose code reason => onDownstreamClose code reason
  | DownstreamError => onDownstreamError
  | DownstreamDrain buffered => onDownstreamDrain cfg buffered
  | UpstreamOpen => connectorOnOpen ;; onUpstreamOpen
  | UpstreamMessage data isBinary buffered =>
      connectorOnMessage ;; onUpstreamMessage cfg data isBinary buffered
  | UpstreamPing => connectorOnPing
  | UpstreamPong => connectorOnPong
  | UpstreamClose code reason => connectorOnClose ;; onUpstreamClose code reason
  | UpstreamError => connectorOnError ;; onUpstreamError
  | UpstreamDrain buffered => onUpstreamDrain cfg buffered
  | UpstreamUnexpectedResponse => connectorOnUnexpectedResponse
  | TimerFired id =>
      kind ← gets (fun w => timers w !! id);
      match kind with
      | Some TPing => pingTick                    (* an interval stays armed *)
      | Some k => modify (fun w => set_timers (delete id (timers w)) w) ;; timerCallback k
      | None => skip
      end
  end.

(** What the socket has done by the time it emits the event: [open] is
    emitted in [OPEN], [close] in [CLOSED], [error] on a socket that is
    closing. *)
Definition deliver (ev : Event) (w : World) : World :=
  match ev with
  | UpstreamOpen => set_upstreamReadyState OPEN w
  | UpstreamClose _ _ => set_upstreamReadyState CLOSED w
  | DownstreamClose _ _ => set_downstreamReadyState CLOSED w
  | UpstreamError => beginClosing Upstream w
  | DownstreamError => beginClosing Downstream w
  | _ => w
  end.

Definition receiving (rs : ReadyState) : bool :=
  match rs with
  | OPEN | CLOSING => true
  | _ => false
  end.

(** When the environment can deliver the event: a socket emits [open] once,
    from [CONNECTING]; frames, pings, pongs and drains while it is [OPEN] or
    [CLOSING]; nothing after [close]; a timer fires only while armed. *)
Definition enabled (ev : Event) (w : World) : bool :=
  match ev with
  | DownstreamMessage _ _ _ | DownstreamPong | DownstreamPing | DownstreamDrain _ =>
      receiving (downstreamReadyState w)
  | DownstreamClose _ _ | DownstreamError =>
      negb (ReadyState_eqb (downstreamReadyState w) CLOSED)
  | UpstreamOpen | UpstreamUnexpectedResponse =>
      ReadyState_eqb (upstreamReadyState w) CONNECTING
  | UpstreamMessage _ _ _ | UpstreamPing | UpstreamPong | UpstreamDrain _ =>
      receiving (upstreamReadyState w)
  | UpstreamClose _ _ | UpstreamError =>
      negb (ReadyState_eqb (upstreamReadyState w) CLOSED)
  | TimerFired id => bool_decide (is_Some (timers w !! id))
  end.

Definition step (cfg : Gate.Config) (ev : Event) (w : World) : World * list Effect :=
  if enabled ev w then exec (handle cfg ev) (deliver ev w) else (w, []).

Fixpoint run (cfg : Gate.Config) (evs : list Event) (w : World) : World * list Effect :=
  match evs with
  | [] => (w, [])
  | ev :: rest =>
      let '(w1, e1) := step cfg ev w in
      let '(w2, e2) := run cfg rest w1 in
      (w2, e1 ++ e2)
  end.

(** ** The start of a connection

    After admission: [connectUpstream] returns a socket in [CONNECTING], the
    variables of the closure take their initial values,
    [resetDownstreamIdleTimer()] arms the idle timer and [setInterval] arms
    the keepalive. *)
Definition blank : World :=
  mkWorld 0 0 None None true false [] (mkBackpressure false 0) (mkBackpressure false 0)
          None OPEN CONNECTING ∅ 0%nat.

Definition start : M unit :=
  resetDownstreamIdleTimer ;;
  id ← setTimer TPing;
  modify (set_pingTimer (Some id)).

Definition initial : World := fst (exec start blank).

(** ** Observations on traces of effects *)

Definition isClosedLog (e : Effect) : bool :=
  match e with
  | LogConnectionClosed _ _ _ _ => true
  | _ => false
  end.

(** How many times the stats line of [cleanup] was written. *)
Fixpoint closedLogs (es : list Effect) : nat :=
  match es with
  | [] => 0%nat
  | e :: rest => ((if isClosedLog e then 1 else 0) + closedLogs rest)%nat
  end.

Definition Leg_eqb (a b : Leg) : bool :=
  match a, b with
  | Downstream, Downstream | Upstream, Upstream => true
  | _, _ => false
  end.

(** The frames handed to [send] on a leg, in order. *)
Definition sentOn (leg : Leg) (e : Effect) : option Buffer :=
  match e with
  | WsSend l data => if Leg_eqb l leg then Some data else None
  | _ => None
  end.

Definition sends (leg : Leg) (es : list Effect) : list Buffer := omap (sentOn leg) es.

(** The side effects of the terminal transition, as the specification lists
    them: the stats line, the cancellation of the two timers of the closure,
    and the closing of both sockets (a close handshake with the safe code on
    an open socket, [terminate()] otherwise). *)
Definition cancelOf (handle : option nat) : list Effect :=
  match handle with
  | Some id => [TimerCleared id]
  | None => []
  end.

Definition shutdownOf (leg : Leg) (rs : ReadyState) (code : Z) (reason : string) : Effect :=
  match rs with
  | OPEN => WsClose leg (safeCode code) reason
  | _ => WsTerminate leg
  end.

Definition cleanupEffects (code : Z) (reason : string) (w : World) : list Effect :=
  [LogConnectionClosed code reason (bytesDownstreamToUpstream w) (bytesUpstreamToDownstream w)]
  ++ cancelOf (downstreamIdleTimer w)
  ++ cancelOf (pingTimer w)
  ++ [shutdownOf Downstream (downstreamReadyState w) code reason;
      shutdownOf Upstream (upstreamReadyState w) code reason].

(** The [close()] and [terminate()] calls on a leg, in order. *)
Definition socketActionOn (leg : Leg) (e : Effect) : bool :=
  match e with
  | WsClose l _ _ | WsTerminate l => Leg_eqb l leg
  | _ => false
  end.

Definition socketActions (leg : Leg) (es : list Effect) : list Effect :=
  List.filter (socketActionOn leg) es.

(** A sequence of invocations of [cleanup], whatever their triggers. *)
Fixpoint cleanups (calls : list (Z * string)) : M unit :=
  match calls with
  | [] => skip
  | (code, reason) :: rest => cleanup code reason ;; cleanups rest
  end.

(** The events that ask for the terminal transition: a close or an error
    of either socket, the expiry of the downstream idle timer, and a tick of
    the keepalive that finds no pong since the last one. *)
Definition trigger (ev : Event) (w : World) : bool :=
  match ev with
  | DownstreamClose _ _ | DownstreamError | UpstreamClose _ _ | UpstreamError => true
  | TimerFired id =>
      match timers w !! id with
      | Some TDownstreamIdle => true
      | Some TPing => negb (downstreamAlive w)
      | _ => false
      end
  | _ => false
  end.

(** A handler that always leaves the connection closed. *)
Definition closes {A : Type} (m : M A) : Prop :=
  forall w, closed (snd (fst (m w))) = true.

(** ** Handlers that respect a relation

    [R w w' es] relates the state before a handler, the state after it and
    the effects it emitted. *)
Definition sat {A : Type} (R : World -> World -> list Effect -> Prop) (m : M A) : Prop :=
  forall w, R w (snd (fst (m w))) (snd (m w)).

Class Composable (R : World -> World -> list Effect -> Prop) : Prop := {
  composable_refl : forall w, R w w [];
  composable_trans : forall w1 w2 w3 e1 e2,
      R w1 w2 e1 -> R w2 w3 e2 -> R w1 w3 (e1 ++ e2)
}.

(** [cleanup] runs its body at most once: the stats lines written so far
    and the flag [closed] add up. *)
Definition closedOnce (w w' : World) (es : list Effect) : Prop :=
  (closedLogs es + Nat.b2n (closed w) = Nat.b2n (closed w'))%nat.

(** ** Invariants of the timers and of the sockets *)

Definition handleOf (kind : TimerKind) (w : World) : option nat :=
  match kind with
  | TDownstreamIdle => downstreamIdleTimer w
  | TPing => pingTimer w
  | TUpstreamIdle => idleTimer w
  end.

(** Every armed timer is the one that the variable of its kind holds. *)
Definition timersOwned (w : World) : Prop :=
  forall id kind, timers w !! id = Some kind -> handleOf kind w = Some id.

Definition ownedStep (w w' : World) (es : list Effect) : Prop :=
  timersOwned w -> timersOwned w'.

(** A socket on which [close()] or [terminate()] has been called, or that
    has closed. *)
Definition shut (rs : ReadyState) : bool :=
  match rs with
  | CLOSING | CLOSED => true
  | _ => false
  end.

(** Once [cleanup] has run neither socket is connecting or open. *)
Definition closedSockets (w : World) : Prop :=
  closed w = true ->
  shut (downstreamReadyState w) = true /\ shut (upstreamReadyState w) = true.

Definition socketsStep (w w' : World) (es : list Effect) : Prop :=
  closedSockets w -> closedSockets w'.

(** What no event changes once the connection is closed and both sockets
    are shut: the flag, the keepalive handle and the queue stay as they are,
    and no frame is forwarded on either leg. *)
Definition quiescent (w w' : World) (es : list Effect) : Prop :=
  closed w' = true
  /\ shut (downstreamReadyState w') = true
  /\ shut (upstreamReadyState w') = true
  /\ pingTimer w' = pingTimer w
  /\ pendingMessages w' = pendingMessages w
  /\ sends Upstream es = []
  /\ sends Downstream es = [].

(** ** The frames that travel upstream *)

(** A socket to which frames can still go: now, or after it has opened. *)
Definition forwardable (rs : ReadyState) : bool :=
  match rs with
  | CONNECTING | OPEN => true
  | _ => false
  end.

(** The frame that an event hands over for upstream: a binary frame from
    downstream, delivered while upstream is connecting or open. *)
Definition acceptedBy (ev : Event) (w : World) : list Buffer :=
  match ev with
  | DownstreamMessage data true _ =>
      if enabled ev w && forwardable (upstreamReadyState w) then [data] else []
  | _ => []
  end.

Fixpoint accepted (cfg : Gate.Config) (evs : list Event) (w : World) : list Buffer :=
  match evs with
  | [] => []
  | ev :: rest => acceptedBy ev w ++ accepted cfg rest (fst (step cfg ev w))
  end.

(** Nothing waits in the queue while upstream is open. *)
Definition flushedWhenOpen (w : World) : Prop :=
  upstreamReadyState w = OPEN -> pendingMessages w = [].

(** The events other than a downstream frame and the opening of upstream. *)
Definition passive (ev : Event) : bool :=
  match ev with
  | DownstreamMessage _ _ _ | UpstreamOpen => false
  | _ => true
  end.

(** A handler that neither sends upstream nor touches the queue, and that
    can only shut the upstream socket. *)
Definition bystander (w w' : World) (es : list Effect) : Prop :=
  sends Upstream es = []
  /\ pendingMessages w' = pendingMessages w
  /\ (upstreamReadyState w' = upstreamReadyState w \/ shut (upstreamReadyState w') = true).

End Relay.

(* ===================================================================== *)
(** * Observations on the traffic of a connection *)
(* ===================================================================== *)

Module Traffic.

Import Backpressure Relay.

(** A handler that leaves a variable (or any reading of the state) as it
    is. *)
Definition keeps {A : Type} (f : World -> A) (w w' : World) (es : list Effect) : Prop :=
  f w' = f w.

(** A handler that sends no frame on a leg. *)
Definition silent (leg : Leg) (w w' : World) (es : list Effect) : Prop :=
  sends leg es = [].

(** The frame that an event hands over for downstream: a binary frame from
    upstream, delivered while the downstream socket is open. *)
Definition relayedBy (ev : Event) (w : World) : list Buffer :=
  match ev with
  | UpstreamMessage data true _ =>
      if enabled ev w && ReadyState_eqb (downstreamReadyState w) OPEN then [data] else []
  | _ => []
  end.

Fixpoint relayed (cfg : Gate.Config) (evs : list Event) (w : World) : list Buffer :=
  match evs with
  | [] => []
  | ev :: rest => relayedBy ev w ++ relayed cfg rest (fst (step cfg ev w))
  end.

(** A sequence of events that the sockets and the event loop can deliver:
    each one is enabled when its turn comes. *)
Fixpoint feasible (cfg : Gate.Config) (evs : list Event) (w : World) : bool :=
  match evs with
  | [] => true
  | ev :: rest => enabled ev w && feasible cfg rest (fst (step cfg ev w))
  end.

(** The binary frames that arrive on a leg, in order. *)
Definition binaryFrom (leg : Leg) (ev : Event) : list Buffer :=
  match leg, ev with
  | Downstream, DownstreamMessage data true _ => [data]
  | Upstream, UpstreamMessage data true _ => [data]
  | _, _ => []
  end.

Definition framesFrom (leg : Leg) (evs : list Event) : list Buffer :=
  flat_map (binaryFrom leg) evs.

(** The bytes of a list of frames. *)
Definition bytesOf (frames : list Buffer) : Z :=
  fold_right (fun frame total => Z.of_nat (length frame) + total) 0 frames.

(** The keepalive of a connection that is not closed: the interval that
    [start] armed (handle 1) is still armed, and no other variable holds its
    handle. *)
Definition keepalive (w : World) : Prop :=
  (closed w = false -> timers w !! 1%nat = Some TPing)
  /\ downstreamIdleTimer w <> Some 1%nat
  /\ idleTimer w <> Some 1%nat
  /\ (2 <= nextTimerId w)%nat.

Definition keepaliveStep (w w' : World) (es : list Effect) : Prop :=
  keepalive w -> keepalive w'.

(** The same for a connection that is closed. *)
Definition closedStep (w w' : World) (es : list Effect) : Prop :=
  closed w = true /\ keepalive w -> closed w' = true /\ keepalive w'.

(** A handler that does not record a sign of life from downstream. *)
Definition unanswered (w w' : World) (es : list Effect) : Prop :=
  downstreamAlive w = false -> downstreamAlive w' = false.

(** A listener that touches neither the sockets nor the flag [closed]. *)
Definition aside (w w' : World) (es : list Effect) : Prop :=
  (forall leg, socketActions leg es = [])
  /\ closed w' = closed w
  /\ (forall leg, readyState leg w' = readyState leg w).

(** The pause and resume instructions given to a leg, in order ([true] for
    a pause, [false] for a resume). *)
Definition flowOn (leg : Leg) (e : Effect) : option bool :=
  match e with
  | WsPause l => if Leg_eqb l leg then Some true else None
  | WsResume l => if Leg_eqb l leg then Some false else None
  | _ => None
  end.

Definition flowsOn (leg : Leg) (es : list Effect) : list bool := omap (flowOn leg) es.

(** The flag that records whether a leg is paused: the downstream socket
    is paused on behalf of upstream, and the other way round. *)
Definition pausedBy (leg : Leg) (w : World) : bool :=
  match leg with
  | Downstream => isPaused (upstreamBackpressure w)
  | Upstream => isPaused (downstreamBackpressure w)
  end.

(** The instruction that an event gives to a leg: a pause when a binary
    frame from that leg has just been sent to the open socket of the other
    leg and that socket buffers more than the threshold; a resume when the
    other socket drains below half of the threshold. *)
Definition flowBy (cfg : Gate.Config) (leg : Leg) (ev : Event) (w : World) : list bool :=
  match leg, ev with
  | Downstream, DownstreamMessage _ true buffered =>
      if enabled ev w && ReadyState_eqb (upstreamReadyState w) OPEN
         && (Gate.maxBufferedBytes cfg <? buffered) && negb (pausedBy Downstream w)
      then [true] else []
  | Downstream, UpstreamDrain buffered =>
      if enabled ev w && pausedBy Downstream w
         && belowHalf buffered (Gate.maxBufferedBytes cfg)
      then [false] else []
  | Upstream, UpstreamMessage _ true buffered =>
      if enabled ev w && ReadyState_eqb (downstreamReadyState w) OPEN
         && (Gate.maxBufferedBytes cfg <? buffered) && negb (pausedBy Upstream w)
      then [true] else []
  | Upstream, DownstreamDrain buffered =>
      if enabled ev w && pausedBy Upstream w
         && belowHalf buffered (Gate.maxBufferedBytes cfg)
      then [false] else []
  | _, _ => []
  end.

(** A handler that gives a leg no instruction and leaves its flag. *)
Definition calm (leg : Leg) (w w' : World) (es : list Effect) : Prop :=
  flowsOn leg es = [] /\ pausedBy leg w' = pausedBy leg w.

(** The events that count as activity for an idle timer: binary frames,
    pings and pongs from downstream for the one of server.ts; the opening
    of upstream and its frames, pings and pongs for the one of the
    connector.  Nothing re-arms the keepalive. *)
Definition activity (kind : TimerKind) (ev : Event) : bool :=
  match kind, ev with
  | TDownstreamIdle, (DownstreamMessage _ true _ | DownstreamPong | DownstreamPing) => true
  | TUpstreamIdle, (UpstreamOpen | UpstreamMessage _ _ _ | UpstreamPing | UpstreamPong) => true
  | _, _ => false
  end.

(** A handler that arms no timer of a kind. *)
Definition armsNo (kind : TimerKind) (w w' : World) (es : list Effect) : Prop :=
  forall id, timers w' !! id = Some kind -> timers w !! id = Some kind.

(** Once the connection is closed the keepalive handle is null. *)
Definition pingCleared (w : World) : Prop := closed w = true -> pingTimer w = None.

Definition pingClearedStep (w w' : World) (es : list Effect) : Prop :=
  pingCleared w -> pingCleared w'.

(** A handler that sends no ping. *)
Definition isPing (e : Effect) : bool :=
  match e with
  | WsPing _ => true
  | _ => false
  end.

Definition pingless (w w' : World) (es : list Effect) : Prop :=
  forallb (fun e => negb (isPing e)) es = true.

(** The downstream socket is never opened by a handler: where it is open
    afterwards it was open before. *)
Definition stillOpen (w w' : World) (es : list Effect) : Prop :=
  downstreamReadyState w' = OPEN -> downstreamReadyState w = OPEN.

(** The events whose handlers call [checkBackpressure] or [handleDrain]. *)
Definition regulates (ev : Event) : bool :=
  match ev with
  | DownstreamMessage _ _ _ | UpstreamMessage _ _ _ | DownstreamDrain _ | UpstreamDrain _ => true
  | _ => false
  end.

(** A session: a frame arrives before upstream opens, then frames travel
    both ways, with a text frame from upstream and a pong from downstream
    among them. *)
Definition exampleSession : list Event :=
  [DownstreamMessage [Byte.x01] true 0; UpstreamOpen;
   DownstreamMessage [Byte.x02; Byte.x03] true 0;
   UpstreamMessage [Byte.x04] true 0; UpstreamMessage [Byte.x05] false 0;
   DownstreamPong; UpstreamMessage [Byte.x06; Byte.x07] true 0].

End Traffic.

(* ===================================================================== *)
(** * The figures of the stats line (util/backpressure.ts, [formatBytes]) *)
(* ===================================================================== *)

Module Format.

(** [x.toFixed(2)] for a quotient [x = num / den] that the division
    computes exactly (an integer below 2^53 over a power of two): the
    integer [n] nearest to [100 * x], the larger one of two, written with
    its last two digits after the point. *)
Definition hundredths (num den : Z) : Z := (200 * num + den) / (2 * den).

Definition twoDigits (n : Z) : string :=
  if n <? 10 then "0" +:+ pretty n else pretty n.

Definition toFixed2 (num den : Z) : string :=
  let n := hundredths num den in
  pretty (n / 100) +:+ "." +:+ twoDigits (n mod 100).

(** [formatBytes(bytes)]. *)
Definition formatBytes (bytes : Z) : string :=
  if bytes <? 1024 then pretty bytes +:+ "B"
  else if bytes <? 1024 * 1024 then toFixed2 bytes 1024 +:+ "KB"
  else toFixed2 bytes (1024 * 1024) +:+ "MB".

End Format.

(* ===================================================================== *)
(** * Configuration (config.ts) *)
(* ===================================================================== *)

Module Config.

Import HostPattern.

(** The values of the environment are byte strings; white space is the
    white space of ASCII, as in [trim] above. *)

(** [String.prototype.toLowerCase] on [A]..[Z]. *)
Definition toLowerAscii (c : ascii) : ascii :=
  let n := nat_of_ascii c in
  if ((65 <=? n)%nat && (n <=? 90)%nat)%bool then ascii_of_nat (n + 32) else c.

Fixpoint toLowerCase (s : string) : string :=
  match s with
  | EmptyString => EmptyString
  | String c rest => String (toLowerAscii c) (toLowerCase rest)
  end.

Definition validLevels : list string := ["trace"; "debug"; "info"; "warn"; "error"].

(** [parseLogLevel]: [level?.toLowerCase()] when it is a valid level,
    ["debug"] otherwise (also for [undefined]). *)
Definition parseLogLevel (level : option string) : string :=
  match level with
  | Some l =>
      let normalized := toLowerCase l in
      if existsb (String.eqb normalized) validLevels then normalized else "debug"
  | None => "debug"
  end.

(** ** [parseInt(value, 10)]

    Leading white space is skipped, one sign is read, and the longest run of
    decimal digits that follows is the value; [None] stands for [NaN], the
    result when no digit follows.  The value is exact (the rounding of
    integers above 2^53 is not modelled). *)
Definition digitValue (c : ascii) : option Z :=
  let n := nat_of_ascii c in
  if ((48 <=? n)%nat && (n <=? 57)%nat)%bool then Some (Z.of_nat n - 48) else None.

Fixpoint digitsPrefix (acc : Z) (s : string) : Z :=
  match s with
  | EmptyString => acc
  | String c rest =>
      match digitValue c with
      | Some d => digitsPrefix (10 * acc + d) rest
      | None => acc
      end
  end.

Definition startsWithDigit (s : string) : bool :=
  match s with
  | String c _ => match digitValue c with Some _ => true | None => false end
  | EmptyString => false
  end.

Definition parseInt10 (s : string) : option Z :=
  let s1 := trimStart s in
  let '(sign, s2) :=
    match s1 with
    | String c rest =>
        if Ascii.eqb c "-" then (-1, rest)
        else if Ascii.eqb c "+" then (1, rest)
        else (1, s1)
    | EmptyString => (1, s1)
    end in
  if startsWithDigit s2 then Some (sign * digitsPrefix 0 s2) else None.

(** The largest magnitude below which every integer is a JavaScript number. *)
Definition maxSafe : Z := 2 ^ 53.

(** [parseNumber(value, defaultValue)]; [inl] is the thrown error. *)
Definition parseNumber (value : option string) (defaultValue : Z) : string + Z :=
  match Gate.truthy value with
  | None => inr defaultValue
  | Some v =>
      match parseInt10 v with
      | None => inl ("Invalid number value: " +:+ v)
      | Some parsed => inr parsed
      end
  end.

Definition nonEmpty (s : string) : bool := negb (String.eqb s "").

(** [parseOrigins]: [csv.split(",").map(origin => origin.trim()).filter(Boolean)]. *)
Definition parseOrigins (csv : option string) : list string :=
  match csv with
  | None => []
  | Some s =>
      if String.eqb s "" || String.eqb (trim s) "" then []
      else List.filter nonEmpty (map trim (splitComma s))
  end.

(** The [Config] interface. *)
Record Settings : Type := mkSettings {
  port : Z;
  allowedOrigins : list string;
  token : option string;
  logLevel : string;
  logPretty : bool;
  clientIdleTimeoutMs : Z;
  upstreamIdleTimeoutMs : Z;
  pingIntervalMs : Z;
  maxBufferedBytes : Z;
  allowedUpstreamHostPatterns : list RegExp
}.

(** Sequencing of steps that may throw. *)
Definition andThen {A B : Type} (r : string + A) (k : A -> string + B) : string + B :=
  match r with
  | inl err => inl err
  | inr x => k x
  end.

Definition check (failed : bool) (message : string) : string + unit :=
  if failed then inl message else inr tt.

(** The module body of config.ts on the environment [process.env] (after
    [loadEnv()]): the object literal, field by field, then the five
    checks, in their order.  The bounds of the checks are small integers, so
    a number above 2^53, which JavaScript rounds, falls on the same side of
    each of them as its exact value. *)
Definition loadConfig (env : gmap string string) : string + Settings :=
  andThen (parseNumber (env !! "PORT") 8080) (fun port =>
  let allowedOrigins := parseOrigins (env !! "ALLOWED_ORIGINS") in
  let token := Gate.truthy (env !! "TOKEN") in
  let logLevel := parseLogLevel (env !! "LOG_LEVEL") in
  let logPretty :=
    match env !! "LOG_PRETTY" with
    | Some v => String.eqb v "true"
    | None => false
    end in
  andThen (parseNumber (env !! "CLIENT_IDLE_TIMEOUT_MS") 120000) (fun clientIdle =>
  andThen (parseNumber (env !! "UPSTREAM_IDLE_TIMEOUT_MS") 120000) (fun upstreamIdle =>
  andThen (parseNumber (env !! "PING_INTERVAL_MS") 25000) (fun pingInterval =>
  andThen (parseNumber (env !! "MAX_BUFFERED_BYTES") 5000000) (fun maxBuffered =>
  andThen (parseHostPatterns (env !! "ALLOWED_UPSTREAM_HOSTS")) (fun patterns =>
  andThen (check ((port <? 1) || (65535 <? port))
                 ("Invalid PORT: " +:+ pretty port)) (fun _ =>
  andThen (check (clientIdle <? 1000)
                 ("CLIENT_IDLE_TIMEOUT_MS too low: " +:+ pretty clientIdle)) (fun _ =>
  andThen (check (upstreamIdle <? 1000)
                 ("UPSTREAM_IDLE_TIMEOUT_MS too low: " +:+ pretty upstreamIdle)) (fun _ =>
  andThen (check (pingInterval <? 1000)
                 ("PING_INTERVAL_MS too low: " +:+ pretty pingInterval)) (fun _ =>
  andThen (check (maxBuffered <? 1024)
                 ("MAX_BUFFERED_BYTES too low: " +:+ pretty maxBuffered)) (fun _ =>
  inr (mkSettings port allowedOrigins token logLevel logPretty
                  clientIdle upstreamIdle pingInterval maxBuffered patterns)))))))))))).



Definition isBlank (s : string) : bool := allChars isWhiteSpace s.



(** An environment and the configuration it loads to, used to run the
    loader on a concrete input. *)
Definition exampleEnv : gmap string string :=
  <["PORT" := "443"]>
    (<["ALLOWED_ORIGINS" := " https://web.telegram.org ,"]>
       (<["TOKEN" := "secret123"]>
          (<["LOG_LEVEL" := "WARN"]>
             (<["MAX_BUFFERED_BYTES" := "65536 bytes"]>
                (<["ALLOWED_UPSTREAM_HOSTS" := "*.web.telegram.org, pluto.example.com"]> ∅))))).

Definition exampleSettings : Settings :=
  mkSettings 443 ["https://web.telegram.org"] (Some "secret123") "warn" false
             120000 120000 25000 65536
             [mkRegExp (itemsOf "*.web.telegram.org") true;
              mkRegExp (itemsOf "pluto.example.com") true].

End Config.

(* ===================================================================== *)
(** * Properties of host patterns *)
(* ===================================================================== *)

Section HostPatternFacts.

Import HostPattern.

(** The source built from a pattern always compiles, and to the items that
    the pattern stands for: the [catch] of [parseHostPatterns] is dead. *)
Lemma append_String (c : ascii) (s t : string) :
  String c s +:+ t = String c (s +:+ t).
Proof. reflexivity. Qed.

Lemma append_Empty (t : string) : EmptyString +:+ t = t.
Proof. reflexivity. Qed.

Lemma parseItems_escaped (c : ascii) (r : string) :
  isRegexSpecial c = true ->
  parseItems (String backslash (String c r)) = option_map (cons (RxChar c)) (parseItems r).
Proof.
  intros H. cbn [parseItems].
  change (Ascii.eqb backslash "$") with false.
  change (Ascii.eqb backslash backslash) with true.
  cbv iota. now rewrite H.
Qed.

Lemma parseItems_dotStar (r : string) :
  parseItems (String "." (String "*" r)) = option_map (cons RxDotStar) (parseItems r).
Proof. reflexivity. Qed.

Lemma parseItems_plain (c : ascii) (r : string) :
  isRegexSpecial c = false -> Ascii.eqb c "*" = false ->
  parseItems (String c r) = option_map (cons (RxChar c)) (parseItems r).
Proof.
  destruct c as [[] [] [] [] [] [] [] []]; intros H1 H2;
    vm_compute in H1; vm_compute in H2; try discriminate; reflexivity.
Qed.

Lemma isRegexSpecial_not_star (c : ascii) :
  isRegexSpecial c = true -> Ascii.eqb c "*" = false.
Proof.
  destruct (Ascii.eqb_spec c "*") as [->|]; [discriminate|reflexivity].
Qed.

(** The source built from a pattern always compiles, and to the items that
    the pattern stands for: the [catch] of [parseHostPatterns] is dead. *)
Lemma parseItems_regexPattern (p : string) :
  parseItems (regexPattern p +:+ "$") = Some (itemsOf p).
Proof.
  unfold regexPattern.
  induction p as [|c p IH]; [reflexivity|].
  cbn [escapeSpecials itemsOf].
  destruct (isRegexSpecial c) eqn:Hs.
  - pose proof (isRegexSpecial_not_star c Hs) as Hn.
    cbn [starToDotStar]. change (Ascii.eqb backslash "*") with false.
    cbv iota. rewrite Hn, !append_String.
    rewrite (parseItems_escaped c _ Hs), IH. reflexivity.
  - cbn [starToDotStar]. destruct (Ascii.eqb c "*") eqn:Hn.
    + rewrite !append_String, parseItems_dotStar, IH. reflexivity.
    + rewrite append_String, (parseItems_plain c _ Hs Hn), IH. reflexivity.
Qed.

Lemma compile_itemsOf (p : string) :
  compile p = Some (mkRegExp (itemsOf p) true).
Proof.
  unfold compile, regexSource, RegExp_new.
  change (Ascii.eqb "^" "^") with true; cbv iota.
  now rewrite parseItems_regexPattern.
Qed.

(** *** Case-insensitive comparison *)


Lemma sameIgnoringCaseb_spec (c d : ascii) :
  sameIgnoringCaseb c d = true <-> sameIgnoringCase c d.
Proof.
  unfold sameIgnoringCaseb, sameIgnoringCase.
  rewrite !orb_true_iff, !andb_true_iff, !Ascii.eqb_eq. tauto.
Qed.


Lemma allAscii_complete (c : ascii) : In c allAscii.
Proof.
  unfold allAscii. rewrite <- (ascii_nat_embedding c).
  apply in_map, in_seq. pose proof (nat_ascii_bounded c). lia.
Qed.

Lemma canonicalize_table :
  forallb (fun c => forallb (fun d =>
    Bool.eqb (Ascii.eqb (canonicalize true c) (canonicalize true d))
             (sameIgnoringCaseb c d)) allAscii) allAscii = true.
Proof. vm_compute. reflexivity. Qed.

Lemma canonicalize_same (c d : ascii) :
  Ascii.eqb (canonicalize true c) (canonicalize true d) = true <-> sameIgnoringCase c d.
Proof.
  rewrite <- sameIgnoringCaseb_spec.
  pose proof canonicalize_table as T.
  rewrite forallb_forall in T. specialize (T c (allAscii_complete c)).
  rewrite forallb_forall in T. specialize (T d (allAscii_complete d)).
  apply Bool.eqb_prop in T. now rewrite T.
Qed.

(** *** The matcher against the wording of the specification *)

Lemma matchItems_dotStar (ic : bool) (items : list RxItem) (s : string) :
  matchItems ic (RxDotStar :: items) s
  = matchItems ic items s
    || match s with
       | String d s' => dotMatches d && matchItems ic (RxDotStar :: items) s'
       | EmptyString => false
       end.
Proof. destruct s; reflexivity. Qed.

Lemma allChars_append (P : ascii -> bool) (s t : string) :
  allChars P (s +:+ t) = allChars P s && allChars P t.
Proof.
  induction s as [|c s IH]; [reflexivity|].
  rewrite append_String. cbn [allChars]. now rewrite IH, andb_assoc.
Qed.

Lemma matchItems_dotStar_run (ic : bool) (items : list RxItem) (s : string) :
  matchItems ic (RxDotStar :: items) s = true <->
  exists run rest,
    s = run +:+ rest /\ allChars dotMatches run = true /\ matchItems ic items rest = true.
Proof.
  induction s as [|d s IH]; rewrite matchItems_dotStar.
  - rewrite orb_false_r. split.
    + intros H. now exists EmptyString, EmptyString.
    + intros ([|? ?] & rest & E & _ & H); [|discriminate].
      rewrite append_Empty in E. now subst rest.
  - rewrite orb_true_iff, andb_true_iff, IH. split.
    + intros [H | (Hd & run & rest & -> & Hrun & H)].
      * now exists EmptyString, (String d s).
      * exists (String d run), rest. rewrite append_String. cbn [allChars].
        now rewrite Hd, Hrun.
    + intros ([|c run] & rest & E & Hrun & H).
      * left. rewrite append_Empty in E. now subst rest.
      * right. rewrite append_String in E. injection E as -> ->.
        cbn [allChars] in Hrun. apply andb_true_iff in Hrun as [Hc Hrun].
        split; [exact Hc|]. now exists run, rest.
Qed.

Lemma matchItems_sound (p h : string) :
  matchItems true (itemsOf p) h = true -> wildcardMatch p h.
Proof.
  revert h. induction p as [|c p IH]; intros h H.
  - destruct h; [constructor | discriminate].
  - cbn [itemsOf] in H. destruct (Ascii.eqb_spec c "*") as [->|Hc].
    + apply matchItems_dotStar_run in H as (run & rest & -> & _ & H).
      constructor. now apply IH.
    + destruct h as [|d h]; [discriminate|].
      cbn [matchItems] in H. apply andb_true_iff in H as [Hcd H].
      constructor; [exact Hc | now apply canonicalize_same | now apply IH].
Qed.

Lemma matchItems_complete (p h : string) :
  wildcardMatch p h -> noLineTerminator h -> matchItems true (itemsOf p) h = true.
Proof.
  unfold noLineTerminator.
  induction 1 as [|p run rest _ IH|c d p h Hc Hcd _ IH]; intros Hlt.
  - reflexivity.
  - rewrite allChars_append in Hlt. apply andb_true_iff in Hlt as [Hrun Hrest].
    cbn [itemsOf]. change (Ascii.eqb "*" "*") with true. cbv iota.
    apply matchItems_dotStar_run. exists run, rest. auto.
  - cbn [allChars] in Hlt. apply andb_true_iff in Hlt as [_ Hh].
    cbn [itemsOf]. destruct (Ascii.eqb_spec c "*") as [E|_]; [contradiction|].
    cbn [matchItems]. apply andb_true_iff. split.
    + now apply canonicalize_same.
    + now apply IH.
Qed.

(** C9. Host-pattern matching is anchored and case-insensitive, with [*]
    matching any run of characters and every other pattern character
    literal: a pattern always compiles, the compiled expression accepts a
    host name exactly when the pattern matches it as a wildcard over the
    whole name, and the compiled pattern [*.telegram.org] accepts
    [venus.web.telegram.org] and refuses [telegram.org.evil.com]. *)
Theorem host_pattern_wildcard_matching :
  (forall (p h : string) (re : RegExp),
      compile p = Some re -> noLineTerminator h ->
      (test re h = true <-> wildcardMatch p h))
  /\ (forall p : string, exists re, compile p = Some re)
  /\ (exists re,
        parseHostPatterns (Some "*.telegram.org") = inr [re]
        /\ test re "venus.web.telegram.org" = true
        /\ test re "telegram.org.evil.com" = false).
Proof.
  split; [|split].
  - intros p h re Hre Hlt. rewrite compile_itemsOf in Hre.
    injection Hre as <-. unfold test; cbn [rx_ignoreCase rx_items].
    split; [apply matchItems_sound | intros H; now apply matchItems_complete].
  - intros p. rewrite compile_itemsOf. eauto.
  - eexists. repeat split; vm_compute; reflexivity.
Qed.

Lemma host_pattern_wildcard_matching_witness :
  noLineTerminator "venus.web.telegram.org"
  /\ wildcardMatch "*.telegram.org" "venus.web.telegram.org"
  /\ ~ wildcardMatch "*.telegram.org" "telegram.org.evil.com".
Proof.
  pose proof (proj1 host_pattern_wildcard_matching) as H.
  split; [reflexivity|]. split.
  - apply (H "*.telegram.org" "venus.web.telegram.org"
             (mkRegExp (itemsOf "*.telegram.org") true));
      vm_compute; reflexivity.
  - intros W.
    apply (H "*.telegram.org" "telegram.org.evil.com"
             (mkRegExp (itemsOf "*.telegram.org") true)) in W;
      [vm_compute in W; discriminate | vm_compute; reflexivity | reflexivity].
Defined.

End HostPatternFacts.

(* ===================================================================== *)
(** * Properties of the backpressure controller *)
(* ===================================================================== *)

Section BackpressureFacts.

Import Backpressure.

(** The integer test of [handleDrain] is the comparison with [T * 0.5]. *)
Lemma belowHalf_rational (buffered T : Z) :
  belowHalf buffered T = true <-> (inject_Z buffered < inject_Z T * Qmake 1 2)%Q.
Proof.
  unfold belowHalf, Qlt. cbn [Qnum Qden inject_Z Qmult].
  rewrite Z.ltb_lt. lia.
Qed.

Lemma checkBackpressure_pauses (T buffered : Z) (st : BackpressureState) (opposite : Leg) :
  T < buffered -> isPaused st = false ->
  checkBackpressure T buffered st opposite
  = (mkBackpressure true (totalBytes st),
     [WsPause opposite;
      Log LvlWarn "Backpressure threshold exceeded, pausing opposite stream"]).
Proof.
  intros Hb Hp. unfold checkBackpressure.
  rewrite Hp. apply Z.ltb_lt in Hb. now rewrite Hb.
Qed.

Lemma checkBackpressure_idle (T buffered : Z) (st : BackpressureState) (opposite : Leg) :
  buffered <= T \/ isPaused st = true ->
  checkBackpressure T buffered st opposite = (st, []).
Proof.
  intros [Hb | Hp]; unfold checkBackpressure.
  - apply Z.ltb_ge in Hb. now rewrite Hb.
  - now rewrite Hp, andb_false_r.
Qed.

Lemma handleDrain_resumes (T buffered : Z) (st : BackpressureState) (opposite : Leg) :
  isPaused st = true -> 2 * buffered < T ->
  handleDrain T buffered st opposite
  = (mkBackpressure false (totalBytes st),
     [WsResume opposite;
      Log LvlInfo "Backpressure relieved, resuming opposite stream"]).
Proof.
  intros Hp Hb. unfold handleDrain, belowHalf.
  rewrite Hp. apply Z.ltb_lt in Hb. now rewrite Hb.
Qed.

Lemma handleDrain_idle (T buffered : Z) (st : BackpressureState) (opposite : Leg) :
  isPaused st = false \/ T <= 2 * buffered ->
  handleDrain T buffered st opposite = (st, []).
Proof.
  intros [Hp | Hb]; unfold handleDrain, belowHalf.
  - now rewrite Hp.
  - apply Z.ltb_ge in Hb. now rewrite Hb, andb_false_r.
Qed.

(** One signal emits at most one instruction, and the flag follows it. *)
Lemma onSignal_flow (T : Z) (opposite : Leg) (sg : Signal) (st : BackpressureState) :
  let '(st', e) := onSignal T opposite sg st in
  (flow e = [] /\ st' = st)
  \/ (flow e = [negb (isPaused st)] /\ isPaused st' = negb (isPaused st)).
Proof.
  destruct sg as [b|b]; cbn [onSignal];
    unfold checkBackpressure, handleDrain;
    destruct (isPaused st) eqn:Hp;
    rewrite ?andb_false_r; cbn [negb andb];
    try (left; split; reflexivity).
  - rewrite andb_true_r. destruct (T <? b); [right | left]; split; reflexivity.
  - destruct (belowHalf b T); [right | left]; split; reflexivity.
Qed.

Lemma last_nonempty_default {A : Type} (b : A) (l : list A) (d1 d2 : A) :
  List.last (b :: l) d1 = List.last (b :: l) d2.
Proof.
  revert b. induction l as [|a l IH]; intros b; [reflexivity|].
  change (List.last (a :: l) d1 = List.last (a :: l) d2). apply IH.
Qed.

Lemma runSignals_alternates (T : Z) (opposite : Leg) (sgs : list Signal) :
  forall st : BackpressureState,
    alternates (isPaused st) (flow (snd (runSignals T opposite sgs st)))
    /\ isPaused (fst (runSignals T opposite sgs st))
       = List.last (flow (snd (runSignals T opposite sgs st))) (isPaused st).
Proof.
  induction sgs as [|sg sgs IH]; intros st; [now split|].
  cbn [runSignals].
  pose proof (onSignal_flow T opposite sg st) as H1.
  destruct (onSignal T opposite sg st) as [st1 e1].
  specialize (IH st1).
  destruct (runSignals T opposite sgs st1) as [st2 e2].
  cbn [fst snd] in *. unfold flow in *. rewrite omap_app.
  destruct H1 as [[-> ->] | [-> Hp]]; [exact IH|].
  rewrite Hp in IH. destruct IH as [IHa IHl].
  split.
  - cbn [app alternates]. now split.
  - rewrite IHl. cbn [app]. destruct (omap flowOf e2) as [|b l]; [reflexivity|].
    change (List.last (negb (isPaused st) :: b :: l) (isPaused st))
      with (List.last (b :: l) (isPaused st)).
    apply last_nonempty_default.
Qed.

(** C7. Backpressure hysteresis with threshold [T]: after a forwarded frame
    the sender is paused exactly when the receiver's buffered bytes exceed
    [T] while [isPaused] is false; on a drain the sender is resumed exactly
    when [isPaused] is true and the buffered bytes are below [T/2], so for
    buffered amounts from [T/2] up no resume occurs; and over any sequence of
    forwards and drains the pause and resume instructions alternate, [isPaused]
    flipping false to true on a pause and true to false on a resume. *)
Theorem backpressure_hysteresis (T : Z) (opposite : Leg) :
  (forall buffered st,
      T < buffered -> isPaused st = false ->
      isPaused (fst (checkBackpressure T buffered st opposite)) = true
      /\ flow (snd (checkBackpressure T buffered st opposite)) = [true]
      /\ In (WsPause opposite) (snd (checkBackpressure T buffered st opposite)))
  /\ (forall buffered st,
      buffered <= T \/ isPaused st = true ->
      checkBackpressure T buffered st opposite = (st, []))
  /\ (forall buffered st,
      isPaused st = true -> 2 * buffered < T ->
      isPaused (fst (handleDrain T buffered st opposite)) = false
      /\ flow (snd (handleDrain T buffered st opposite)) = [false]
      /\ In (WsResume opposite) (snd (handleDrain T buffered st opposite)))
  /\ (forall buffered st,
      isPaused st = false \/ T <= 2 * buffered ->
      handleDrain T buffered st opposite = (st, []))
  /\ (forall sgs st,
      alternates (isPaused st) (flow (snd (runSignals T opposite sgs st)))
      /\ isPaused (fst (runSignals T opposite sgs st))
         = List.last (flow (snd (runSignals T opposite sgs st))) (isPaused st)).
Proof.
  repeat apply conj.
  - intros b st Hb Hp. rewrite (checkBackpressure_pauses _ _ _ _ Hb Hp).
    cbn. auto.
  - intros b st H. now apply checkBackpressure_idle.
  - intros b st Hp Hb. rewrite (handleDrain_resumes _ _ _ _ Hp Hb).
    cbn. auto.
  - intros b st H. now apply handleDrain_idle.
  - intros sgs st. apply runSignals_alternates.
Qed.

(** Threshold 1000: a forward at 1001 buffered bytes pauses, a drain at 700
    does not resume, a drain at 499 resumes. *)
Lemma backpressure_hysteresis_witness :
  flow (snd (runSignals 1000 Downstream
               [Forwarded 1001; Forwarded 5000; Drained 700; Drained 500; Drained 499; Drained 0]
               (mkBackpressure false 0)))
  = [true; false]
  /\ handleDrain 1000 700 (mkBackpressure true 0) Downstream = (mkBackpressure true 0, [])
  /\ isPaused (fst (checkBackpressure 1000 1001 (mkBackpressure false 0) Downstream)) = true
  /\ isPaused (fst (handleDrain 1000 499 (mkBackpressure true 0) Downstream)) = false.
Proof.
  destruct (backpressure_hysteresis 1000 Downstream) as (Hc & _ & Hd & Hi & _).
  split; [reflexivity|]. split; [|split].
  - apply Hi. right. lia.
  - apply Hc; [lia | reflexivity].
  - apply Hd; [reflexivity | lia].
Defined.

End BackpressureFacts.

(* ===================================================================== *)
(** * Properties of the admission sequence *)
(* ===================================================================== *)

Section GateFacts.

Import Gate.

Variable decodeURIComponent : string -> option string.
Variable URL_new : string -> option ParsedURL.

Local Abbreviation gate := (admission decodeURIComponent URL_new).
Local Abbreviation gateEffects := (admissionEffects decodeURIComponent URL_new).

(** The close code of the gate is the code of the first check that fails,
    in the order upstream, origin, token. *)
Lemma admission_firstFailure (cfg : Config) (req : Request)
    (params : list (string * string)) :
  query req = Some params ->
  verdictCode (gate cfg req)
  = firstFailure decodeURIComponent URL_new cfg params (origin req) precedence.
Proof.
  intros Hq. unfold admission, precedence. rewrite Hq.
  cbn [firstFailure failure].
  destruct (truthy (params_get "upstream" params)) as [p|]; [|reflexivity].
  destruct (decodeURIComponent p) as [u|]; [|reflexivity].
  destruct (URL_new u) as [parsed|]; [|reflexivity].
  destruct (String.eqb (protocol parsed) "wss:"),
           (String.eqb (protocol parsed) "ws:"); cbn [negb andb orb];
    try reflexivity;
    unfold hostAllowed;
    (destruct (allowedUpstreamHostPatterns cfg) as [|re res] eqn:Hp;
     [reflexivity|]);
    change (0 <? length (re :: res))%nat with true; cbv iota;
    (destruct (existsb _ (re :: res)); cbn [negb]; [|reflexivity]);
    (destruct (validateOrigin cfg (origin req)); cbn [negb]; [|reflexivity]);
    (destruct (validateToken cfg _); reflexivity).
Qed.

Lemma failure_upstream_codes (cfg : Config) (params : list (string * string))
    (o : option string) (code : Z) :
  failure decodeURIComponent URL_new cfg params o CheckUpstream = Some code ->
  code = 4002 \/ code = 4003 \/ code = 4004.
Proof.
  cbn [failure].
  repeat match goal with
         | |- context [match ?x with _ => _ end] => destruct x
         end; intros [= <-]; auto.
Qed.

(** C10. The admission checks run in a fixed order: the checks of the
    upstream URL (codes 4002, 4003, 4004) before the origin check (4000),
    and the origin check before the token check (4001); the close code of a
    request that fails several checks is the code of the earliest one, so a
    request with a disallowed host and a disallowed origin is closed with
    4004. *)
Theorem admission_precedence (cfg : Config) (req : Request)
    (params : list (string * string)) :
  query req = Some params ->
  verdictCode (gate cfg req)
  = firstFailure decodeURIComponent URL_new cfg params (origin req)
      [CheckUpstream; CheckOrigin; CheckToken]
  /\ (forall code,
        failure decodeURIComponent URL_new cfg params (origin req) CheckUpstream = Some code ->
        verdictCode (gate cfg req) = Some code
        /\ (code = 4002 \/ code = 4003 \/ code = 4004))
  /\ (failure decodeURIComponent URL_new cfg params (origin req) CheckUpstream = None ->
      validateOrigin cfg (origin req) = false ->
      verdictCode (gate cfg req) = Some 4000)
  /\ (failure decodeURIComponent URL_new cfg params (origin req) CheckUpstream = None ->
      validateOrigin cfg (origin req) = true ->
      validateToken cfg (truthy (params_get "token" params)) = false ->
      verdictCode (gate cfg req) = Some 4001)
  /\ (forall p u parsed,
        truthy (params_get "upstream" params) = Some p ->
        decodeURIComponent p = Some u ->
        URL_new u = Some parsed ->
        protocol parsed = "wss:" \/ protocol parsed = "ws:" ->
        hostAllowed cfg (hostname parsed) = false ->
        validateOrigin cfg (origin req) = false ->
        verdictCode (gate cfg req) = Some 4004).
Proof.
  intros Hq. pose proof (admission_firstFailure cfg req params Hq) as E.
  unfold precedence in E. rewrite E. cbn [firstFailure].
  split; [reflexivity|]. split; [|split; [|split]].
  - intros code Hc. rewrite Hc. split; [reflexivity|].
    now apply failure_upstream_codes in Hc.
  - intros Hu Ho. rewrite Hu. cbn [failure]. now rewrite Ho.
  - intros Hu Ho Ht. rewrite Hu. cbn [failure]. now rewrite Ho, Ht.
  - intros p u parsed Hp Hd Hn Hs Hh _.
    cbn [failure]. rewrite Hp, Hd, Hn, Hh.
    destruct Hs as [-> | ->]; reflexivity.
Qed.

(** C6, as the code has it. With no host pattern configured no request is
    admitted and no upstream connection is attempted; the close code is 4004
    for every request whose [upstream] parameter is present and reads as a
    URL of scheme [ws] or [wss], whatever its host. (A request that fails an
    earlier check of the upstream parameter is closed with the code of that
    check.) *)
Theorem empty_allowlist_rejects_all (cfg : Config) (req : Request) :
  allowedUpstreamHostPatterns cfg = [] ->
  (forall u, gate cfg req <> Admit u)
  /\ (forall u, ~ In (ConnectUpstream u) (gateEffects cfg req))
  /\ (forall params p u parsed,
        query req = Some params ->
        truthy (params_get "upstream" params) = Some p ->
        decodeURIComponent p = Some u ->
        URL_new u = Some parsed ->
        protocol parsed = "wss:" \/ protocol parsed = "ws:" ->
        gate cfg req = Reject 4004 "No upstream host patterns configured"
        /\ gateEffects cfg req
           = [WsClose Downstream 4004 "No upstream host patterns configured"]).
Proof.
  intros He.
  assert (Hno : forall u, gate cfg req <> Admit u).
  { intros u. unfold admission. rewrite He. cbn [length].
    change (0 <? 0)%nat with false.
    repeat match goal with
           | |- context [match ?x with _ => _ end] => destruct x
           end; discriminate. }
  split; [exact Hno|]. split.
  - intros u. unfold admissionEffects.
    destruct (gate cfg req) as [code reason|u'] eqn:E.
    + cbn. intros [H|[]]. discriminate.
    + exfalso. exact (Hno u' eq_refl).
  - intros params p u parsed Hq Hp Hd Hn Hs.
    assert (E : gate cfg req = Reject 4004 "No upstream host patterns configured").
    { unfold admission. rewrite Hq, Hp, Hd, Hn, He.
      destruct Hs as [-> | ->]; reflexivity. }
    split; [exact E|]. unfold admissionEffects. now rewrite E.
Qed.

End GateFacts.

Section GateExamples.

Import Gate.


(** C6, as stated, fails: with no pattern configured a request without the
    [upstream] parameter is closed with 4002, and one with an [http] target
    with 4003, not with 4004. *)
Lemma empty_allowlist_not_always_4004 :
  allowedUpstreamHostPatterns cfgNoPatterns = []
  /\ (forall dec url,
        admission dec url cfgNoPatterns (mkRequest (Some []) None)
        = Reject 4002 "Missing upstream URL")
  /\ admission plainDecode plainURL cfgNoPatterns
       (requestFor "http://venus.web.telegram.org/apiws" None)
     = Reject 4003 "Invalid upstream protocol".
Proof. repeat split. Qed.

Lemma empty_allowlist_rejects_all_witness :
  admission plainDecode plainURL cfgNoPatterns
    (requestFor "wss://venus.web.telegram.org/apiws" None)
  = Reject 4004 "No upstream host patterns configured".
Proof.
  refine (proj1 (proj2 (proj2
    (empty_allowlist_rejects_all plainDecode plainURL cfgNoPatterns
       (requestFor "wss://venus.web.telegram.org/apiws" None) eq_refl))
    [("upstream", "wss://venus.web.telegram.org/apiws")]
    "wss://venus.web.telegram.org/apiws" "wss://venus.web.telegram.org/apiws"
    (mkParsedURL "wss:" "venus.web.telegram.org") eq_refl eq_refl eq_refl eq_refl _)).
  left; reflexivity.
Defined.

(** A disallowed host together with a disallowed origin and a missing
    token: closed with 4004. *)
Lemma admission_precedence_witness :
  verdictCode (admission plainDecode plainURL cfgTelegram
                 (requestFor "wss://telegram.org.evil.com/apiws" (Some "https://evil.com")))
  = Some 4004.
Proof.
  refine (proj2 (proj2 (proj2 (proj2
    (admission_precedence plainDecode plainURL cfgTelegram
       (requestFor "wss://telegram.org.evil.com/apiws" (Some "https://evil.com"))
       [("upstream", "wss://telegram.org.evil.com/apiws")] eq_refl))))
    "wss://telegram.org.evil.com/apiws" "wss://telegram.org.evil.com/apiws"
    (mkParsedURL "wss:" "telegram.org.evil.com") eq_refl eq_refl eq_refl _ eq_refl eq_refl).
  left; reflexivity.
Defined.

End GateExamples.

(* ===================================================================== *)
(** * Properties of the relay engine *)
(* ===================================================================== *)

Section RelayFacts.

Import Backpressure Relay.

(** ** Composition of handlers *)

Section Sat.

Context (R : World -> World -> list Effect -> Prop) `{!Composable R}.

Lemma sat_ret {A : Type} (x : A) : sat R (mret x).
Proof. intros w. apply composable_refl. Qed.

Lemma sat_gets {A : Type} (f : World -> A) : sat R (gets f).
Proof. intros w. apply composable_refl. Qed.

Lemma sat_bind {A B : Type} (m : M A) (k : A -> M B) :
  sat R m -> (forall x, sat R (k x)) -> sat R (m ≫= k).
Proof.
  intros Hm Hk w. unfold mbind, M_bind.
  specialize (Hm w). destruct (m w) as [[x w1] e1].
  specialize (Hk x w1). destruct (k x w1) as [[y w2] e2].
  cbn [fst snd] in *. eapply composable_trans; eassumption.
Qed.

Lemma sat_exec {A : Type} (m : M A) (w : World) :
  sat R m -> R w (fst (exec m w)) (snd (exec m w)).
Proof.
  intros Hm. specialize (Hm w). unfold exec.
  now destruct (m w) as [[x w1] e1].
Qed.

End Sat.

(** Breaks a handler into its primitive steps; [leaf] closes the steps it
    knows before they are taken apart. *)
Ltac sat_split leaf :=
  repeat first
    [ leaf
    | apply sat_ret; typeclasses eauto
    | apply sat_gets; typeclasses eauto
    | apply sat_bind; [typeclasses eauto| |intros ?]
    | match goal with
      | |- sat _ (match ?x with _ => _ end) => destruct x
      end ].

(** The listeners of the events, down to the functions that the closures
    share ([cleanup] and the three functions on the idle timers). *)
Ltac unfold_events :=
  unfold handle,
    onDownstreamMessage, onDownstreamPong, onDownstreamPing, onDownstreamClose,
    onDownstreamError, onDownstreamDrain, onUpstreamOpen, onUpstreamMessage,
    onUpstreamClose, onUpstreamError, onUpstreamDrain,
    connectorOnOpen, connectorOnMessage, connectorOnPing, connectorOnPong,
    connectorOnClose, connectorOnError, connectorOnUnexpectedResponse,
    upstreamIdleTimeout, downstreamIdleTimeout, pingTick,
    wsClose, wsTerminate, wsSend, wsPing, log, skip.

Ltac unfold_handlers :=
  unfold handle, timerCallback,
    onDownstreamMessage, onDownstreamPong, onDownstreamPing, onDownstreamClose,
    onDownstreamError, onDownstreamDrain, onUpstreamOpen, onUpstreamMessage,
    onUpstreamClose, onUpstreamError, onUpstreamDrain,
    connectorOnOpen, connectorOnMessage, connectorOnPing, connectorOnPong,
    connectorOnClose, connectorOnError, connectorOnUnexpectedResponse,
    cancelIdleTimer, resetIdleTimer, upstreamIdleTimeout,
    downstreamIdleTimeout, pingTick, resetDownstreamIdleTimer,
    wsClose, wsTerminate, wsSend, wsPing, log, skip.

(** ** [cleanup] runs once *)

Lemma closedLogs_app (e1 e2 : list Effect) :
  closedLogs (e1 ++ e2) = (closedLogs e1 + closedLogs e2)%nat.
Proof. induction e1 as [|e e1 IH]; cbn [app closedLogs]; lia. Qed.

#[local] Instance closedOnce_composable : Composable closedOnce.
Proof.
  split; unfold closedOnce.
  - intros w. reflexivity.
  - intros w1 w2 w3 e1 e2 H1 H2. rewrite closedLogs_app. lia.
Qed.

Lemma cleanup_closed (code : Z) (reason : string) (w : World) :
  closed w = true -> cleanup code reason w = (tt, w, []).
Proof.
  intros H. unfold cleanup, mbind, M_bind, gets. now rewrite H.
Qed.

(** Runs a handler on a symbolic state, splitting on what it reads. *)
Ltac unfold_monad :=
  unfold mbind, M_bind, mret, M_ret, gets, modify, emit, clearTimer, setTimer,
    applyBackpressure, exec in *.

Ltac case_reads :=
  repeat (cbn;
    match goal with
    | |- context [match ?x with Some _ => _ | None => _ end] => is_var x; destruct x eqn:?
    | |- context [ReadyState_eqb ?x OPEN] => is_var x; destruct x eqn:?
    | |- context [match ?x with CONNECTING => _ | _ => _ end] => is_var x; destruct x eqn:?
    | |- context [if ?x then _ else _] => is_var x; destruct x eqn:?
    end);
  cbn.

Lemma cleanup_first (code : Z) (reason : string) (w : World) :
  closed w = false ->
  snd (cleanup code reason w) = cleanupEffects code reason w
  /\ closed (snd (fst (cleanup code reason w))) = true.
Proof.
  intros H. destruct w; cbn in H; subst.
  unfold cleanup, cleanupEffects.
  unfold_handlers. unfold_monad. unfold beginClosing, readyState.
  case_reads; split; reflexivity.
Qed.

Lemma closedOnce_modify (f : World -> World) :
  (forall w, closed (f w) = closed w) -> sat closedOnce (modify f).
Proof. intros H w. unfold closedOnce, modify. cbn. now rewrite H. Qed.

Lemma closedOnce_emit (e : Effect) :
  isClosedLog e = false -> sat closedOnce (emit e).
Proof. intros H w. unfold closedOnce, emit. cbn. now rewrite H. Qed.

Lemma closedOnce_setTimer (kind : TimerKind) : sat closedOnce (setTimer kind).
Proof. intros w. reflexivity. Qed.

Lemma closedOnce_clearTimer (id : nat) : sat closedOnce (clearTimer id).
Proof. intros w. reflexivity. Qed.

Lemma closedLogs_checkBackpressure (T b : Z) (st : BackpressureState) (opposite : Leg) :
  closedLogs (snd (checkBackpressure T b st opposite)) = 0%nat.
Proof. unfold checkBackpressure. now destruct (_ && _). Qed.

Lemma closedLogs_handleDrain (T b : Z) (st : BackpressureState) (opposite : Leg) :
  closedLogs (snd (handleDrain T b st opposite)) = 0%nat.
Proof. unfold handleDrain. now destruct (_ && _). Qed.

Lemma closedOnce_applyBackpressure f get set :
  (forall st, closedLogs (snd (f st)) = 0%nat) ->
  (forall st w, closed (set st w) = closed w) ->
  sat closedOnce (applyBackpressure f get set).
Proof.
  intros Hf Hs w. unfold closedOnce, applyBackpressure.
  specialize (Hf (get w)). destruct (f (get w)) as [st e].
  cbn [fst snd] in *. now rewrite Hf, Hs.
Qed.

Lemma closedOnce_sendAll (leg : Leg) (messages : list Buffer) :
  sat closedOnce (sendAll leg messages).
Proof.
  induction messages as [|m ms IH]; cbn [sendAll].
  - apply sat_ret; typeclasses eauto.
  - apply sat_bind; [typeclasses eauto | now apply closedOnce_emit | intros _; exact IH].
Qed.

Lemma closedLogs_cleanupEffects (code : Z) (reason : string) (w : World) :
  closedLogs (cleanupEffects code reason w) = 1%nat.
Proof.
  unfold cleanupEffects, cancelOf, shutdownOf.
  destruct (downstreamIdleTimer w), (pingTimer w),
    (downstreamReadyState w), (upstreamReadyState w); reflexivity.
Qed.

Lemma closedOnce_cleanup (code : Z) (reason : string) :
  sat closedOnce (cleanup code reason).
Proof.
  intros w. unfold closedOnce. destruct (closed w) eqn:H.
  - rewrite (cleanup_closed code reason w H). cbn. now rewrite H.
  - destruct (cleanup_first code reason w H) as [-> ->].
    now rewrite closedLogs_cleanupEffects.
Qed.

Lemma closed_beginClosing (leg : Leg) (w : World) :
  closed (beginClosing leg w) = closed w.
Proof.
  unfold beginClosing, readyState, set_readyState.
  destruct leg, w; cbn;
    match goal with |- context [match ?x with _ => _ end] => destruct x end;
    reflexivity.
Qed.

Ltac closedOnce_leaf :=
  first
    [ apply closedOnce_cleanup
    | apply closedOnce_modify; intros ?; apply closed_beginClosing
    | apply closedOnce_sendAll
    | apply closedOnce_setTimer
    | apply closedOnce_clearTimer
    | apply closedOnce_modify; intros []; reflexivity
    | apply closedOnce_emit; reflexivity
    | apply closedOnce_applyBackpressure;
      [ intros ?; first [apply closedLogs_checkBackpressure | apply closedLogs_handleDrain]
      | intros ? []; reflexivity ] ].

Lemma closedOnce_handle (cfg : Gate.Config) (ev : Event) :
  sat closedOnce (handle cfg ev).
Proof.
  destruct ev; unfold_handlers; sat_split closedOnce_leaf.
Qed.

Lemma closed_deliver (ev : Event) (w : World) : closed (deliver ev w) = closed w.
Proof.
  destruct ev; try reflexivity; cbn [deliver];
    first [apply closed_beginClosing | now destruct w].
Qed.

Lemma closedOnce_step (cfg : Gate.Config) (ev : Event) (w : World) :
  closedOnce w (fst (step cfg ev w)) (snd (step cfg ev w)).
Proof.
  unfold step. destruct (enabled ev w).
  - pose proof (sat_exec closedOnce (handle cfg ev) (deliver ev w)
                  (closedOnce_handle cfg ev)) as H.
    unfold closedOnce in *. now rewrite closed_deliver in H.
  - apply composable_refl.
Qed.

Lemma closedOnce_run (cfg : Gate.Config) (evs : list Event) (w : World) :
  closedOnce w (fst (run cfg evs w)) (snd (run cfg evs w)).
Proof.
  revert w. induction evs as [|ev evs IH]; intros w; cbn [run].
  - apply composable_refl.
  - pose proof (closedOnce_step cfg ev w) as H1.
    destruct (step cfg ev w) as [w1 e1]. specialize (IH w1).
    destruct (run cfg evs w1) as [w2 e2]. cbn [fst snd] in *.
    eapply composable_trans; eassumption.
Qed.

Lemma cleanups_closed (calls : list (Z * string)) (w : World) :
  closed w = true -> cleanups calls w = (tt, w, []).
Proof.
  intros H. induction calls as [|[code reason] calls IH]; [reflexivity|].
  cbn [cleanups]. unfold mbind, M_bind.
  now rewrite (cleanup_closed code reason w H), IH.
Qed.

Lemma cleanups_first (code : Z) (reason : string) (calls : list (Z * string)) (w : World) :
  closed w = false ->
  exec (cleanups ((code, reason) :: calls)) w = exec (cleanup code reason) w.
Proof.
  intros H. unfold exec. cbn [cleanups]. unfold mbind, M_bind.
  destruct (cleanup_first code reason w H) as [_ Hc].
  destruct (cleanup code reason w) as [[[] w1] e1]. cbn [fst snd] in Hc.
  rewrite (cleanups_closed calls w1 Hc). now rewrite app_nil_r.
Qed.

Lemma closed_stays (cfg : Gate.Config) (ev : Event) (w : World) :
  closed w = true -> closed (fst (step cfg ev w)) = true.
Proof.
  intros Hc. pose proof (closedOnce_step cfg ev w) as H.
  unfold closedOnce in H. rewrite Hc in H.
  destruct (closed (fst (step cfg ev w))); [reflexivity|].
  cbn [Nat.b2n] in H. lia.
Qed.

Lemma closes_cleanup (code : Z) (reason : string) : closes (cleanup code reason).
Proof.
  intros w. destruct (closed w) eqn:Hc.
  - now rewrite (cleanup_closed code reason w Hc).
  - now destruct (cleanup_first code reason w Hc).
Qed.

Lemma closes_bind {A B : Type} (m : M A) (k : A -> M B) :
  (forall x, closes (k x)) -> closes (m ≫= k).
Proof.
  intros Hk w. unfold mbind, M_bind. destruct (m w) as [[x w1] e1].
  specialize (Hk x w1). now destruct (k x w1) as [[y w2] e2].
Qed.

Lemma closes_gets {A B : Type} (f : World -> A) (k : A -> M B) (w : World) :
  closed (snd (fst (k (f w) w))) = true ->
  closed (snd (fst ((gets f ≫= k) w))) = true.
Proof.
  intros Hk. unfold mbind, M_bind, gets.
  now destruct (k (f w) w) as [[y w2] e2].
Qed.

Lemma closes_log_cleanup (lvl : Level) (msg : string) (code : Z) (reason : string) :
  closes (log lvl msg ;; cleanup code reason).
Proof. apply closes_bind. intros _. apply closes_cleanup. Qed.

Lemma exec_fst {A : Type} (m : M A) (w : World) : fst (exec m w) = snd (fst (m w)).
Proof. unfold exec. now destruct (m w) as [[x w'] e]. Qed.

Lemma trigger_closes (cfg : Gate.Config) (ev : Event) (w : World) :
  enabled ev w = true -> trigger ev w = true ->
  closed (fst (step cfg ev w)) = true.
Proof.
  intros He Ht. unfold step. rewrite He, exec_fst. clear He.
  destruct ev; try discriminate; cbn [handle deliver trigger] in *.
  - apply closes_log_cleanup.
  - apply closes_log_cleanup.
  - apply closes_bind. intros _. apply closes_log_cleanup.
  - apply closes_bind. intros _. apply closes_log_cleanup.
  - apply closes_gets.
    destruct (timers w !! id) as [[]|]; try discriminate.
    + apply closes_bind. intros _. apply closes_log_cleanup.
    + unfold pingTick. apply closes_gets.
      destruct (downstreamAlive w); [discriminate|]. apply closes_log_cleanup.
Qed.

(** C1. The terminal cleanup is idempotent. An invocation on a connection
    that is already closed changes nothing and has no effect; the first
    invocation writes the stats line once, cancels the timers of the closure
    and closes or terminates each socket once; any number of further
    invocations, with whatever codes and in whatever order, add nothing to
    it; over every sequence of events, from every state, the stats line is
    written at most once: exactly once if the connection ends closed and was
    not closed before; and every trigger that is delivered (a close or an
    error of either socket, the idle timeout, the ping timeout) leaves the
    connection closed. *)
Theorem cleanup_idempotent :
  (forall w code reason,
      closed w = true -> cleanup code reason w = (tt, w, []))
  /\ (forall w code reason,
        closed w = false ->
        snd (exec (cleanup code reason) w) = cleanupEffects code reason w
        /\ closedLogs (snd (exec (cleanup code reason) w)) = 1%nat
        /\ closed (fst (exec (cleanup code reason) w)) = true)
  /\ (forall w code reason calls,
        closed w = false ->
        exec (cleanups ((code, reason) :: calls)) w = exec (cleanup code reason) w)
  /\ (forall cfg evs w,
        (closedLogs (snd (run cfg evs w)) + Nat.b2n (closed w)
         = Nat.b2n (closed (fst (run cfg evs w))))%nat)
  /\ (forall cfg ev w,
        enabled ev w = true -> trigger ev w = true ->
        closed (fst (step cfg ev w)) = true).
Proof.
  split; [|split; [|split; [|split]]]; [| | | |apply trigger_closes].
  - intros w code reason H. now apply cleanup_closed.
  - intros w code reason H.
    destruct (cleanup_first code reason w H) as [He Hc].
    unfold exec. destruct (cleanup code reason w) as [[[] w1] e1].
    cbn [fst snd] in *. subst e1.
    repeat split; [apply closedLogs_cleanupEffects | exact Hc].
  - intros w code reason calls H. now apply cleanups_first.
  - intros cfg evs w. apply closedOnce_run.
Qed.

(** Upstream opens; then the downstream idle timer fires, and a downstream
    error, a downstream close and an upstream close follow: one stats line. *)
Lemma cleanup_idempotent_witness :
  closedLogs (snd (run Gate.cfgTelegram
                     [UpstreamOpen; TimerFired 0; DownstreamError;
                      DownstreamClose 1006 ""; UpstreamClose 1006 ""]
                     initial)) = 1%nat
  /\ exec (cleanups [(1011, "Downstream error"); (1006, "Downstream closed");
                     (1006, "Upstream closed")]) initial
     = exec (cleanup 1011 "Downstream error") initial.
Proof.
  destruct cleanup_idempotent as (_ & _ & H3 & H4 & _). split.
  - pose proof (H4 Gate.cfgTelegram
                  [UpstreamOpen; TimerFired 0; DownstreamError;
                   DownstreamClose 1006 ""; UpstreamClose 1006 ""] initial) as H.
    rewrite Nat.add_0_r in H. rewrite H. vm_compute. reflexivity.
  - apply H3. reflexivity.
Defined.

(** ** The close code and the closing of the sockets *)

Lemma safeCode_cases (code : Z) :
  (code = 1005 \/ code = 1006 -> safeCode code = 1000)
  /\ (code <> 1005 -> code <> 1006 -> safeCode code = code)
  /\ safeCode code <> 1005 /\ safeCode code <> 1006.
Proof.
  unfold safeCode.
  destruct (Z.eqb_spec code 1005), (Z.eqb_spec code 1006); cbn [orb];
    repeat split; intros; try lia.
Qed.

Lemma socketActions_cleanupEffects (leg : Leg) (code : Z) (reason : string) (w : World) :
  socketActions leg (cleanupEffects code reason w)
  = [shutdownOf leg (readyState leg w) code reason].
Proof.
  unfold cleanupEffects, cancelOf, shutdownOf, readyState.
  destruct leg, (downstreamIdleTimer w), (pingTimer w),
    (downstreamReadyState w), (upstreamReadyState w); reflexivity.
Qed.

(** C8. When the terminal transition closes a socket that is open it uses
    the code of the trigger, except that 1005 (no code was given) and 1006
    (abnormal closure), and only these, are replaced by 1000; a socket that
    is not open is terminated instead. Each leg sees exactly one of the two
    calls, and no close call ever carries 1005 or 1006. *)
Theorem cleanup_safe_close_code (w : World) (code : Z) (reason : string) (leg : Leg) :
  closed w = false ->
  (readyState leg w = OPEN ->
   socketActions leg (snd (exec (cleanup code reason) w))
   = [WsClose leg (if (code =? 1005) || (code =? 1006) then 1000 else code) reason])
  /\ (readyState leg w <> OPEN ->
      socketActions leg (snd (exec (cleanup code reason) w)) = [WsTerminate leg])
  /\ (code = 1005 \/ code = 1006 -> safeCode code = 1000)
  /\ (code <> 1005 -> code <> 1006 -> safeCode code = code)
  /\ (forall l c r,
        In (WsClose l c r) (snd (exec (cleanup code reason) w)) ->
        c = safeCode code /\ c <> 1005 /\ c <> 1006 /\ readyState l w = OPEN).
Proof.
  intros H.
  assert (E : snd (exec (cleanup code reason) w) = cleanupEffects code reason w).
  { destruct (cleanup_first code reason w H) as [He _]. unfold exec.
    now destruct (cleanup code reason w) as [[[] w1] e1]. }
  rewrite E, socketActions_cleanupEffects.
  destruct (safeCode_cases code) as (S1 & S2 & S3 & S4).
  split; [|split; [|split; [|split]]]; auto.
  - intros ->. reflexivity.
  - intros Hn. unfold shutdownOf. now destruct (readyState leg w).
  - intros l c r. unfold cleanupEffects, cancelOf, shutdownOf.
    destruct (downstreamIdleTimer w), (pingTimer w),
      (downstreamReadyState w) eqn:Ed, (upstreamReadyState w) eqn:Eu;
      cbn [app In]; intros Hin;
      repeat match goal with
             | H : _ \/ _ |- _ => destruct H
             | H : False |- _ => destruct H
             | H : _ = WsClose _ _ _ |- _ => inversion H; subst; clear H
             end;
      repeat split; auto.
Qed.

Lemma cleanup_safe_close_code_witness :
  socketActions Downstream (snd (exec (cleanup 1006 "Upstream closed") initial))
  = [WsClose Downstream 1000 "Upstream closed"]
  /\ socketActions Upstream (snd (exec (cleanup 1006 "Upstream closed") initial))
     = [WsTerminate Upstream].
Proof.
  split.
  - apply (proj1 (cleanup_safe_close_code initial 1006 "Upstream closed" Downstream
                    ltac:(vm_compute; reflexivity))).
    vm_compute. reflexivity.
  - apply (proj1 (proj2 (cleanup_safe_close_code initial 1006 "Upstream closed" Upstream
                           ltac:(vm_compute; reflexivity)))).
    vm_compute. discriminate.
Defined.

(** ** Frames that are not binary *)

(** C3, as the code has it. A non-binary frame is dropped and logged on
    either leg. On the upstream leg it still counts as liveness: the
    connector resets its idle timer before server.ts drops the frame. On the
    downstream leg the handler returns at once: nothing is forwarded, counted
    or reset, and the state is left as it was. *)
Theorem non_binary_frames_dropped (cfg : Gate.Config) (w : World)
    (data : Buffer) (buffered : Z) :
  exec (handle cfg (DownstreamMessage data false buffered)) w
  = (w, [Log LvlWarn "Received non-binary message from downstream, ignoring"])
  /\ snd (exec (handle cfg (UpstreamMessage data false buffered)) w)
     = [Log LvlTrace "Received message from upstream"]
       ++ cancelOf (idleTimer w)
       ++ [TimerSet (nextTimerId w) TUpstreamIdle;
           Log LvlWarn "Received non-binary message from upstream, ignoring"]
  /\ sends Downstream (snd (exec (handle cfg (UpstreamMessage data false buffered)) w)) = []
  /\ idleTimer (fst (exec (handle cfg (UpstreamMessage data false buffered)) w))
     = Some (nextTimerId w)
  /\ timers (fst (exec (handle cfg (UpstreamMessage data false buffered)) w))
       !! nextTimerId w = Some TUpstreamIdle
  /\ bytesUpstreamToDownstream (fst (exec (handle cfg (UpstreamMessage data false buffered)) w))
     = bytesUpstreamToDownstream w.
Proof.
  split; [reflexivity|].
  destruct w. unfold_handlers. unfold_monad. cbn.
  match goal with |- context [match ?x with Some _ => _ | None => _ end] => destruct x end;
    cbn; repeat split; apply lookup_insert_eq.
Qed.

(** C3, as stated, fails on the downstream leg: a non-binary frame leaves
    the idle timer of the start (handle 0) in place, where a binary frame
    replaces it. *)
Lemma downstream_text_frame_does_not_reset_idle_timer :
  step Gate.cfgTelegram (DownstreamMessage [Byte.x68; Byte.x69] false 0) initial
  = (initial, [Log LvlWarn "Received non-binary message from downstream, ignoring"])
  /\ downstreamIdleTimer initial = Some 0%nat
  /\ downstreamIdleTimer
       (fst (step Gate.cfgTelegram (DownstreamMessage [Byte.x68; Byte.x69] true 0) initial))
     = Some 2%nat.
Proof. repeat split; vm_compute; reflexivity. Qed.

(** ** The timers *)

#[local] Instance ownedStep_composable : Composable ownedStep.
Proof. split; unfold ownedStep; auto. Qed.

(** Looks an armed timer up after insertions and deletions, and sends it
    back to the invariant of the state before. *)
Ltac owned_solve Hinv :=
  let j := fresh "j" in
  let k := fresh "k" in
  let Hj := fresh "Hj" in
  intros j k Hj; cbn in *;
  repeat first
    [ rewrite lookup_insert in Hj
    | rewrite lookup_delete in Hj
    | rewrite lookup_empty in Hj ];
  repeat case_decide; simplify_eq; try reflexivity;
  try (apply Hinv in Hj; destruct k; cbn in *; congruence).

Ltac owned_exec :=
  let Hinv := fresh "Hinv" in
  intros w Hinv; destruct w; unfold timersOwned in Hinv; cbn in Hinv;
  unfold cleanup; unfold_handlers; unfold_monad;
  unfold timersOwned, handleOf, beginClosing, readyState, set_readyState in *;
  case_reads; owned_solve Hinv.

Lemma owned_resetDownstreamIdleTimer : sat ownedStep resetDownstreamIdleTimer.
Proof. owned_exec. Qed.

Lemma owned_resetIdleTimer : sat ownedStep resetIdleTimer.
Proof. owned_exec. Qed.

Lemma owned_cancelIdleTimer : sat ownedStep cancelIdleTimer.
Proof. owned_exec. Qed.

Lemma owned_cleanup (code : Z) (reason : string) : sat ownedStep (cleanup code reason).
Proof. owned_exec. Qed.

Lemma owned_applyBackpressure f get set :
  (forall st w, timers (set st w) = timers w
                /\ forall kind, handleOf kind (set st w) = handleOf kind w) ->
  sat ownedStep (applyBackpressure f get set).
Proof.
  intros Hs w Hinv. unfold applyBackpressure.
  destruct (f (get w)) as [st e]. cbn [fst snd].
  destruct (Hs st w) as [Ht Hh]. intros j k Hj.
  rewrite Ht in Hj. rewrite Hh. now apply Hinv.
Qed.

Lemma owned_sendAll (leg : Leg) (messages : list Buffer) :
  sat ownedStep (sendAll leg messages).
Proof.
  induction messages as [|m ms IH]; cbn [sendAll].
  - apply sat_ret; typeclasses eauto.
  - apply sat_bind; [typeclasses eauto | now intros w | intros _; exact IH].
Qed.

Ltac owned_leaf :=
  idtac;
  match goal with
  | |- sat _ (cleanup _ _) => apply owned_cleanup
  | |- sat _ resetDownstreamIdleTimer => apply owned_resetDownstreamIdleTimer
  | |- sat _ resetIdleTimer => apply owned_resetIdleTimer
  | |- sat _ cancelIdleTimer => apply owned_cancelIdleTimer
  | |- sat _ (sendAll _ _) => apply owned_sendAll
  | |- sat _ (applyBackpressure _ _ _) =>
      apply owned_applyBackpressure; intros ? []; split; [reflexivity | intros []; reflexivity]
  | |- sat _ (modify _) => owned_exec
  | |- sat _ (emit _) => owned_exec
  | |- sat _ (log _ _) => owned_exec
  | |- sat _ (clearTimer _) => owned_exec
  end.

Lemma owned_handle (cfg : Gate.Config) (ev : Event) : sat ownedStep (handle cfg ev).
Proof.
  destruct ev; unfold_events; unfold timerCallback; sat_split owned_leaf.
Qed.

Lemma owned_deliver (ev : Event) (w : World) :
  timersOwned w -> timersOwned (deliver ev w).
Proof.
  intros Hinv. assert (E : timers (deliver ev w) = timers w
                           /\ forall kind, handleOf kind (deliver ev w) = handleOf kind w).
  { destruct ev, w; unfold deliver, beginClosing, readyState, set_readyState; cbn;
      try (split; [reflexivity | intros []; reflexivity]);
      match goal with |- context [match ?x with _ => _ end] => destruct x end;
      (split; [reflexivity | intros []; reflexivity]). }
  destruct E as [Et Eh]. intros j k Hj. rewrite Et in Hj. rewrite Eh. now apply Hinv.
Qed.

Lemma owned_step (cfg : Gate.Config) (ev : Event) (w : World) :
  timersOwned w -> timersOwned (fst (step cfg ev w)).
Proof.
  intros Hinv. unfold step. destruct (enabled ev w); [|exact Hinv].
  apply (sat_exec ownedStep (handle cfg ev) (deliver ev w) (owned_handle cfg ev)).
  now apply owned_deliver.
Qed.

Lemma owned_run (cfg : Gate.Config) (evs : list Event) (w : World) :
  timersOwned w -> timersOwned (fst (run cfg evs w)).
Proof.
  revert w. induction evs as [|ev evs IH]; intros w Hinv; cbn [run]; [exact Hinv|].
  pose proof (owned_step cfg ev w Hinv) as H1.
  destruct (step cfg ev w) as [w1 e1]. specialize (IH w1 H1).
  now destruct (run cfg evs w1) as [w2 e2].
Qed.

Lemma initial_eq :
  initial
  = mkWorld 0 0 (Some 0%nat) (Some 1%nat) true false []
      (mkBackpressure false 0) (mkBackpressure false 0) None OPEN CONNECTING
      (<[1%nat := TPing]> (<[0%nat := TDownstreamIdle]> ∅)) 2.
Proof. reflexivity. Qed.

Lemma owned_initial : timersOwned initial.
Proof.
  rewrite initial_eq. intros j k Hj. cbn in Hj.
  rewrite !lookup_insert, lookup_empty in Hj.
  repeat case_decide; simplify_eq; reflexivity.
Qed.

Lemma cleanup_timers (code : Z) (reason : string) (w : World) :
  timersOwned w -> closed w = false ->
  downstreamIdleTimer (fst (exec (cleanup code reason) w)) = None
  /\ pingTimer (fst (exec (cleanup code reason) w)) = None
  /\ (forall id kind,
        timers (fst (exec (cleanup code reason) w)) !! id = Some kind ->
        kind = TUpstreamIdle)
  /\ idleTimer (fst (exec (cleanup code reason) w)) = idleTimer w.
Proof.
  intros Hinv Hc. destruct w; unfold timersOwned, handleOf in Hinv; cbn in Hinv, Hc; subst.
  unfold cleanup; unfold_handlers; unfold_monad;
    unfold beginClosing, readyState, set_readyState.
  case_reads; repeat split; intros j k Hj; cbn in Hj;
    repeat rewrite lookup_delete in Hj; repeat case_decide; simplify_eq;
    apply Hinv in Hj; destruct k; congruence.
Qed.

Lemma upstream_close_clears_timers (cfg : Gate.Config) (ev : Event) (w : World) :
  timersOwned w -> closed w = false ->
  (ev = UpstreamError \/ exists code reason, ev = UpstreamClose code reason) ->
  enabled ev w = true ->
  closed (fst (step cfg ev w)) = true /\ timers (fst (step cfg ev w)) = ∅.
Proof.
  intros Hinv Hc Hev Hen. unfold step. rewrite Hen.
  destruct w; unfold timersOwned, handleOf in Hinv; cbn in Hinv, Hc; subst.
  destruct Hev as [-> | (code & reason & ->)];
    unfold handle, deliver; unfold_handlers; unfold cleanup; unfold_handlers;
    unfold_monad; unfold beginClosing, readyState, set_readyState;
    case_reads; (split; [reflexivity|]);
    apply map_eq; intros j; rewrite lookup_empty;
    repeat rewrite lookup_delete; repeat case_decide; try reflexivity;
    match goal with
    | |- ?m !! j = None => destruct (m !! j) as [k|] eqn:Hj; [|reflexivity]
    end;
    apply Hinv in Hj; destruct k; congruence.
Qed.

(** C4, as the code has it. During the terminal transition [cleanup]
    cancels the two timers of its own closure, the downstream idle timer and
    the keepalive: afterwards both variables are null and no timer of these
    kinds is armed. The upstream idle timer belongs to the connector, and
    [cleanup] leaves its variable as it is; the connector cancels it in its
    own [close] and [error] listeners, which run before those of server.ts,
    so that after a terminal transition triggered by an upstream close or
    error no timer is armed at all. The invariant assumed here holds in
    every state that a connection reaches. *)
Theorem cleanup_cancels_own_timers (cfg : Gate.Config) (w : World) :
  timersOwned w -> closed w = false ->
  (forall code reason,
      downstreamIdleTimer (fst (exec (cleanup code reason) w)) = None
      /\ pingTimer (fst (exec (cleanup code reason) w)) = None
      /\ (forall id kind,
            timers (fst (exec (cleanup code reason) w)) !! id = Some kind ->
            kind = TUpstreamIdle)
      /\ idleTimer (fst (exec (cleanup code reason) w)) = idleTimer w)
  /\ (forall ev,
        (ev = UpstreamError \/ exists code reason, ev = UpstreamClose code reason) ->
        enabled ev w = true ->
        closed (fst (step cfg ev w)) = true /\ timers (fst (step cfg ev w)) = ∅)
  /\ (forall evs, timersOwned (fst (run cfg evs initial))).
Proof.
  intros Hinv Hc. split; [|split].
  - intros code reason. now apply cleanup_timers.
  - intros ev Hev Hen. now apply upstream_close_clears_timers.
  - intros evs. apply owned_run, owned_initial.
Qed.

Lemma cleanup_cancels_own_timers_witness :
  timers (fst (step Gate.cfgTelegram (UpstreamClose 1000 "bye")
                 (fst (run Gate.cfgTelegram [UpstreamOpen] initial)))) = ∅.
Proof.
  refine (proj2 (proj1 (proj2
    (cleanup_cancels_own_timers Gate.cfgTelegram
       (fst (run Gate.cfgTelegram [UpstreamOpen] initial))
       (owned_run _ _ _ owned_initial) _)) (UpstreamClose 1000 "bye") _ _)).
  - vm_compute. reflexivity.
  - right. eauto.
  - vm_compute. reflexivity.
Defined.

(** C4, as stated, fails: after a terminal transition triggered from
    downstream the upstream idle timer (handle 2) is still armed although
    the connection is closed; it can fire, and its callback terminates the
    upstream socket. *)
Lemma upstream_idle_timer_survives_cleanup :
  closed (fst (run Gate.cfgTelegram [UpstreamOpen; DownstreamClose 1000 ""] initial)) = true
  /\ timers (fst (run Gate.cfgTelegram [UpstreamOpen; DownstreamClose 1000 ""] initial))
       !! 2%nat = Some TUpstreamIdle
  /\ enabled (TimerFired 2)
       (fst (run Gate.cfgTelegram [UpstreamOpen; DownstreamClose 1000 ""] initial)) = true
  /\ snd (step Gate.cfgTelegram (TimerFired 2)
            (fst (run Gate.cfgTelegram [UpstreamOpen; DownstreamClose 1000 ""] initial)))
     = [Log LvlWarn "Upstream idle timeout reached, closing connection";
        WsTerminate Upstream].
Proof. repeat split; vm_compute; reflexivity. Qed.

(** ** After the terminal transition *)

Ltac case_more :=
  repeat (cbn;
    match goal with
    | |- context [match ?x with Some _ => _ | None => _ end] => is_var x; destruct x eqn:?
    | |- context [ReadyState_eqb ?x OPEN] => is_var x; destruct x eqn:?
    | |- context [match ?x with CONNECTING => _ | _ => _ end] => is_var x; destruct x eqn:?
    | |- context [if ?x then _ else _] => is_var x; destruct x eqn:?
    | |- context [negb ?x] => is_var x; destruct x
    | |- context [?x && _] => is_var x; destruct x
    | |- context [isPaused ?x] => is_var x; destruct x
    | |- context [belowHalf ?a ?b] => destruct (belowHalf a b) eqn:?
    | |- context [(?a <? ?b)%Z] => destruct (a <? b)%Z eqn:?
    | |- context [bool_decide ?P] => destruct (bool_decide P) eqn:?
    | |- context [match ?m !! ?i with _ => _ end] => destruct (m !! i) as [[]|] eqn:?
    end);
  cbn.

Lemma quiescent_step (cfg : Gate.Config) (ev : Event) (w : World) :
  closed w = true ->
  shut (downstreamReadyState w) = true -> shut (upstreamReadyState w) = true ->
  quiescent w (fst (step cfg ev w)) (snd (step cfg ev w)).
Proof.
  intros Hc Hd Hu. destruct w; cbn in Hc, Hd, Hu; subst.
  destruct downstreamReadyState0; try discriminate;
    destruct upstreamReadyState0; try discriminate;
    destruct ev;
    unfold quiescent, step, enabled, receiving, deliver;
    unfold handle, timerCallback; unfold_handlers; unfold cleanup; unfold_handlers;
    unfold_monad; unfold checkBackpressure, handleDrain, beginClosing, readyState, set_readyState;
    case_more; repeat split.
Qed.

Lemma sends_app (leg : Leg) (e1 e2 : list Effect) :
  sends leg (e1 ++ e2) = sends leg e1 ++ sends leg e2.
Proof. apply omap_app. Qed.

Lemma quiescent_run (cfg : Gate.Config) (evs : list Event) (w : World) :
  closed w = true ->
  shut (downstreamReadyState w) = true -> shut (upstreamReadyState w) = true ->
  quiescent w (fst (run cfg evs w)) (snd (run cfg evs w)).
Proof.
  revert w. induction evs as [|ev evs IH]; intros w Hc Hd Hu; cbn [run].
  - now repeat split.
  - pose proof (quiescent_step cfg ev w Hc Hd Hu) as H1.
    destruct (step cfg ev w) as [w1 e1]. cbn [fst snd] in H1.
    destruct H1 as (Hc1 & Hd1 & Hu1 & Hp1 & Hq1 & Hsu1 & Hsd1).
    specialize (IH w1 Hc1 Hd1 Hu1).
    destruct (run cfg evs w1) as [w2 e2]. cbn [fst snd] in *.
    destruct IH as (Hc2 & Hd2 & Hu2 & Hp2 & Hq2 & Hsu2 & Hsd2).
    unfold quiescent. rewrite !sends_app, Hsu1, Hsu2, Hsd1, Hsd2.
    repeat split; auto; congruence.
Qed.

#[local] Instance socketsStep_composable : Composable socketsStep.
Proof. split; unfold socketsStep; auto. Qed.

Ltac sockets_exec :=
  let Hinv := fresh "Hinv" in
  intros w Hinv; destruct w; unfold closedSockets in *; cbn in Hinv;
  unfold cleanup; unfold_handlers; unfold_monad;
  unfold beginClosing, readyState, set_readyState in *;
  case_reads;
  first [ exact Hinv
        | intros _; split; reflexivity
        | let Hc := fresh "Hc" in
          intros Hc; destruct (Hinv Hc); split; first [assumption | reflexivity | discriminate] ].

Lemma sockets_cleanup (code : Z) (reason : string) : sat socketsStep (cleanup code reason).
Proof. sockets_exec. Qed.

Lemma sockets_applyBackpressure f get set :
  (forall st w, closed (set st w) = closed w
                /\ downstreamReadyState (set st w) = downstreamReadyState w
                /\ upstreamReadyState (set st w) = upstreamReadyState w) ->
  sat socketsStep (applyBackpressure f get set).
Proof.
  intros Hs w Hinv. unfold applyBackpressure.
  destruct (f (get w)) as [st e]. cbn [fst snd].
  destruct (Hs st w) as (Hc & Hd & Hu). unfold closedSockets.
  now rewrite Hc, Hd, Hu.
Qed.

Lemma sockets_sendAll (leg : Leg) (messages : list Buffer) :
  sat socketsStep (sendAll leg messages).
Proof.
  induction messages as [|m ms IH]; cbn [sendAll].
  - apply sat_ret; typeclasses eauto.
  - apply sat_bind; [typeclasses eauto | now intros w | intros _; exact IH].
Qed.

Ltac sockets_leaf :=
  idtac;
  match goal with
  | |- sat _ (cleanup _ _) => apply sockets_cleanup
  | |- sat _ (sendAll _ _) => apply sockets_sendAll
  | |- sat _ (applyBackpressure _ _ _) =>
      apply sockets_applyBackpressure; intros ? []; repeat split
  | |- sat _ (modify _) => sockets_exec
  | |- sat _ (emit _) => sockets_exec
  | |- sat _ (log _ _) => sockets_exec
  | |- sat _ (clearTimer _) => sockets_exec
  | |- sat _ (setTimer _) => sockets_exec
  end.

Lemma sockets_handle (cfg : Gate.Config) (ev : Event) : sat socketsStep (handle cfg ev).
Proof.
  destruct ev; unfold_handlers; unfold timerCallback; sat_split sockets_leaf.
Qed.

Lemma sockets_deliver (ev : Event) (w : World) :
  enabled ev w = true -> closedSockets w -> closedSockets (deliver ev w).
Proof.
  destruct w; unfold closedSockets, enabled, deliver, beginClosing, readyState,
    set_readyState, receiving; cbn.
  destruct ev, downstreamReadyState0, upstreamReadyState0, closed0; cbn;
    intros He Hinv Hc; try discriminate He; try discriminate Hc;
    destruct (Hinv eq_refl) as [? ?]; try discriminate; split; reflexivity.
Qed.

Lemma sockets_step (cfg : Gate.Config) (ev : Event) (w : World) :
  closedSockets w -> closedSockets (fst (step cfg ev w)).
Proof.
  intros Hinv. unfold step. destruct (enabled ev w) eqn:He; [|exact Hinv].
  apply (sat_exec socketsStep (handle cfg ev) (deliver ev w) (sockets_handle cfg ev)).
  now apply sockets_deliver.
Qed.

Lemma sockets_run (cfg : Gate.Config) (evs : list Event) (w : World) :
  closedSockets w -> closedSockets (fst (run cfg evs w)).
Proof.
  revert w. induction evs as [|ev evs IH]; intros w Hinv; cbn [run]; [exact Hinv|].
  pose proof (sockets_step cfg ev w Hinv) as H1.
  destruct (step cfg ev w) as [w1 e1]. specialize (IH w1 H1).
  now destruct (run cfg evs w1) as [w2 e2].
Qed.

Lemma sockets_initial : closedSockets initial.
Proof. rewrite initial_eq. intros H. discriminate. Qed.

(** C5, as the code has it. The flag [closed] goes from false to true at
    most once: no event turns it back. After the transition every further
    invocation of [cleanup] leaves every variable as it is and has no
    effect; and in the states that a connection reaches (closed with both
    sockets shut) no event changes the flag, the keepalive handle or
    [pendingMessages], and none forwards a frame. The handlers of frames,
    pings, pongs and drains do not test the flag: what they write (byte
    counters, idle-timer handles, [downstreamAlive], [isPaused]) is not
    covered. *)
Theorem closed_is_final (cfg : Gate.Config) :
  (forall ev w, closed w = true -> closed (fst (step cfg ev w)) = true)
  /\ (forall w code reason,
        closed w = true -> exec (cleanup code reason) w = (w, []))
  /\ (forall evs w,
        closed w = true ->
        shut (downstreamReadyState w) = true -> shut (upstreamReadyState w) = true ->
        closed (fst (run cfg evs w)) = true
        /\ pingTimer (fst (run cfg evs w)) = pingTimer w
        /\ pendingMessages (fst (run cfg evs w)) = pendingMessages w
        /\ sends Upstream (snd (run cfg evs w)) = []
        /\ sends Downstream (snd (run cfg evs w)) = [])
  /\ (forall evs, closedSockets (fst (run cfg evs initial))).
Proof.
  split; [|split; [|split]].
  - intros ev w. apply closed_stays.
  - intros w code reason Hc. unfold exec. now rewrite (cleanup_closed code reason w Hc).
  - intros evs w Hc Hd Hu.
    destruct (quiescent_run cfg evs w Hc Hd Hu) as (H1 & _ & _ & H4 & H5 & H6 & H7).
    auto.
  - intros evs. apply sockets_run, sockets_initial.
Qed.

Lemma closed_is_final_witness :
  closed (fst (run Gate.cfgTelegram
                 [DownstreamMessage [Byte.x01] true 0; TimerFired 3; DownstreamPong]
                 (fst (run Gate.cfgTelegram [UpstreamOpen; UpstreamClose 1000 "bye"] initial))))
  = true
  /\ sends Upstream
       (snd (run Gate.cfgTelegram
               [DownstreamMessage [Byte.x01] true 0; TimerFired 3; DownstreamPong]
               (fst (run Gate.cfgTelegram [UpstreamOpen; UpstreamClose 1000 "bye"] initial))))
     = [].
Proof.
  destruct (proj1 (proj2 (proj2 (closed_is_final Gate.cfgTelegram)))
              [DownstreamMessage [Byte.x01] true 0; TimerFired 3; DownstreamPong]
              (fst (run Gate.cfgTelegram [UpstreamOpen; UpstreamClose 1000 "bye"] initial))
              ltac:(vm_compute; reflexivity) ltac:(vm_compute; reflexivity)
              ltac:(vm_compute; reflexivity))
    as (H1 & _ & _ & H4 & _).
  split; assumption.
Defined.

(** C5, as stated, fails: upstream closes and [cleanup] runs; downstream is
    closing and can still deliver a frame; its handler adds the two bytes to
    the counter and arms a new idle timer (handle 3), on a connection whose
    flag is already true. *)
Lemma closed_connection_still_counts_and_arms :
  closed (fst (run Gate.cfgTelegram [UpstreamOpen; UpstreamClose 1000 "bye"] initial)) = true
  /\ enabled (DownstreamMessage [Byte.x01; Byte.x02] true 0)
       (fst (run Gate.cfgTelegram [UpstreamOpen; UpstreamClose 1000 "bye"] initial)) = true
  /\ bytesDownstreamToUpstream
       (fst (run Gate.cfgTelegram [UpstreamOpen; UpstreamClose 1000 "bye"] initial)) = 0
  /\ bytesDownstreamToUpstream
       (fst (step Gate.cfgTelegram (DownstreamMessage [Byte.x01; Byte.x02] true 0)
               (fst (run Gate.cfgTelegram [UpstreamOpen; UpstreamClose 1000 "bye"] initial)))) = 2
  /\ downstreamIdleTimer
       (fst (run Gate.cfgTelegram [UpstreamOpen; UpstreamClose 1000 "bye"] initial)) = None
  /\ downstreamIdleTimer
       (fst (step Gate.cfgTelegram (DownstreamMessage [Byte.x01; Byte.x02] true 0)
               (fst (run Gate.cfgTelegram [UpstreamOpen; UpstreamClose 1000 "bye"] initial))))
     = Some 3%nat
  /\ timers
       (fst (step Gate.cfgTelegram (DownstreamMessage [Byte.x01; Byte.x02] true 0)
               (fst (run Gate.cfgTelegram [UpstreamOpen; UpstreamClose 1000 "bye"] initial))))
       !! 3%nat = Some TDownstreamIdle.
Proof. repeat split; vm_compute; reflexivity. Qed.

(** ** The queue of pending frames *)

#[local] Instance bystander_composable : Composable bystander.
Proof.
  split; unfold bystander.
  - intros w. auto.
  - intros w1 w2 w3 e1 e2 (S1 & P1 & R1) (S2 & P2 & R2).
    rewrite sends_app, S1, S2. repeat split; [congruence|].
    destruct R2 as [R2|R2]; [|now right].
    rewrite R2. exact R1.
Qed.

Ltac bystander_exec :=
  intros w; destruct w; unfold bystander;
  unfold cleanup; unfold_handlers; unfold_monad;
  unfold beginClosing, readyState, set_readyState in *;
  case_reads; repeat split; first [left; reflexivity | right; reflexivity].

Lemma bystander_cleanup (code : Z) (reason : string) : sat bystander (cleanup code reason).
Proof. bystander_exec. Qed.

Lemma sends_checkBackpressure (leg : Leg) (T b : Z) (st : BackpressureState) (opposite : Leg) :
  sends leg (snd (checkBackpressure T b st opposite)) = [].
Proof. unfold checkBackpressure. now destruct (_ && _). Qed.

Lemma sends_handleDrain (leg : Leg) (T b : Z) (st : BackpressureState) (opposite : Leg) :
  sends leg (snd (handleDrain T b st opposite)) = [].
Proof. unfold handleDrain. now destruct (_ && _). Qed.

Lemma bystander_applyBackpressure f get set :
  (forall st, sends Upstream (snd (f st)) = []) ->
  (forall st w, pendingMessages (set st w) = pendingMessages w
                /\ upstreamReadyState (set st w) = upstreamReadyState w) ->
  sat bystander (applyBackpressure f get set).
Proof.
  intros Hf Hs w. unfold bystander, applyBackpressure.
  specialize (Hf (get w)). destruct (f (get w)) as [st e]. cbn [fst snd] in *.
  destruct (Hs st w) as [Hp Hr]. auto.
Qed.

Ltac bystander_leaf :=
  idtac;
  match goal with
  | |- sat _ (cleanup _ _) => apply bystander_cleanup
  | |- sat _ (applyBackpressure _ _ _) =>
      apply bystander_applyBackpressure;
      [ intros ?; first [apply sends_checkBackpressure | apply sends_handleDrain]
      | intros ? []; split; reflexivity ]
  | |- sat _ (modify _) => bystander_exec
  | |- sat _ (emit _) => bystander_exec
  | |- sat _ (log _ _) => bystander_exec
  | |- sat _ (clearTimer _) => bystander_exec
  | |- sat _ (setTimer _) => bystander_exec
  end.

Lemma bystander_handle (cfg : Gate.Config) (ev : Event) :
  passive ev = true -> sat bystander (handle cfg ev).
Proof.
  destruct ev; try discriminate; intros _;
    unfold_handlers; unfold timerCallback; sat_split bystander_leaf.
Qed.

Lemma sendAll_run (leg : Leg) (messages : list Buffer) (w : World) :
  sendAll leg messages w = (tt, w, map (WsSend leg) messages).
Proof.
  induction messages as [|m ms IH]; [reflexivity|].
  cbn [sendAll map]. unfold mbind, M_bind, wsSend, emit. now rewrite IH.
Qed.

Lemma sends_map_WsSend (leg : Leg) (messages : list Buffer) :
  sends leg (map (WsSend leg) messages) = messages.
Proof.
  induction messages as [|m ms IH]; [reflexivity|].
  cbn [map]. unfold sends in *. cbn [omap sentOn list_omap].
  destruct leg; cbn; now rewrite IH.
Qed.

(** A binary frame from downstream, by the state of upstream. *)
Lemma downstream_frame_connecting (cfg : Gate.Config) (w : World) (data : Buffer) (buffered : Z) :
  upstreamReadyState w = CONNECTING ->
  pendingMessages (fst (exec (handle cfg (DownstreamMessage data true buffered)) w))
  = pendingMessages w ++ [data]
  /\ sends Upstream (snd (exec (handle cfg (DownstreamMessage data true buffered)) w)) = []
  /\ upstreamReadyState (fst (exec (handle cfg (DownstreamMessage data true buffered)) w))
     = CONNECTING.
Proof.
  intros H. destruct w; cbn in H; subst.
  unfold handle; unfold_handlers; unfold_monad; case_reads; repeat split.
Qed.

Lemma downstream_frame_open (cfg : Gate.Config) (w : World) (data : Buffer) (buffered : Z) :
  upstreamReadyState w = OPEN ->
  pendingMessages (fst (exec (handle cfg (DownstreamMessage data true buffered)) w))
  = pendingMessages w
  /\ sends Upstream (snd (exec (handle cfg (DownstreamMessage data true buffered)) w)) = [data]
  /\ upstreamReadyState (fst (exec (handle cfg (DownstreamMessage data true buffered)) w))
     = OPEN.
Proof.
  intros H. destruct w; cbn in H; subst.
  unfold handle; unfold_handlers; unfold_monad; unfold checkBackpressure;
    case_more; repeat split.
Qed.

Lemma downstream_frame_shut (cfg : Gate.Config) (w : World) (data : Buffer) (buffered : Z) :
  shut (upstreamReadyState w) = true ->
  pendingMessages (fst (exec (handle cfg (DownstreamMessage data true buffered)) w))
  = pendingMessages w
  /\ sends Upstream (snd (exec (handle cfg (DownstreamMessage data true buffered)) w)) = []
  /\ upstreamReadyState (fst (exec (handle cfg (DownstreamMessage data true buffered)) w))
     = upstreamReadyState w
  /\ In (Log LvlWarn "Upstream closed/closing, dropping message")
        (snd (exec (handle cfg (DownstreamMessage data true buffered)) w)).
Proof.
  intros H. destruct w; cbn in H.
  destruct upstreamReadyState0; try discriminate;
    unfold handle; unfold_handlers; unfold_monad; case_reads; repeat split;
    rewrite ?in_app_iff; cbn; auto 10.
Qed.

Lemma downstream_text_frame (cfg : Gate.Config) (w : World) (data : Buffer) (buffered : Z) :
  exec (handle cfg (DownstreamMessage data false buffered)) w
  = (w, [Log LvlWarn "Received non-binary message from downstream, ignoring"]).
Proof. reflexivity. Qed.

(** The flush on [open]. *)
Lemma upstream_open_flushes (cfg : Gate.Config) (w : World) :
  sends Upstream (snd (exec (handle cfg UpstreamOpen) w)) = pendingMessages w
  /\ pendingMessages (fst (exec (handle cfg UpstreamOpen) w)) = []
  /\ upstreamReadyState (fst (exec (handle cfg UpstreamOpen) w)) = upstreamReadyState w.
Proof.
  destruct w. unfold handle; unfold_handlers; unfold_monad.
  destruct pendingMessages0 as [|m ms], idleTimer0; cbn -[sendAll];
    rewrite ?sendAll_run; cbn -[sends]; rewrite ?app_nil_r;
    repeat split;
    repeat match goal with
           | |- context [sends Upstream (?e :: ?es)] =>
               change (sends Upstream (e :: es)) with (sends Upstream ([e] ++ es));
               rewrite (sends_app Upstream [e] es); cbn [sends omap sentOn list_omap app]
           end;
    change (omap (sentOn Upstream)) with (sends Upstream);
    rewrite ?sends_map_WsSend; reflexivity.
Qed.

Lemma deliver_bystander (ev : Event) (w : World) :
  passive ev = true -> bystander w (deliver ev w) [].
Proof.
  destruct ev, w; try discriminate; intros _;
    unfold bystander, deliver, beginClosing, readyState, set_readyState; cbn;
    repeat split; auto;
    match goal with
    | |- context [match ?x with _ => _ end] => destruct x; cbn; auto
    end.
Qed.

Lemma bystander_step (cfg : Gate.Config) (ev : Event) (w : World) :
  passive ev = true -> bystander w (fst (step cfg ev w)) (snd (step cfg ev w)).
Proof.
  intros Hp. unfold step. destruct (enabled ev w).
  - change (snd (exec (handle cfg ev) (deliver ev w)))
      with ([] ++ snd (exec (handle cfg ev) (deliver ev w))).
    refine (composable_trans w (deliver ev w) _ [] _ (deliver_bystander ev w Hp) _).
    apply (sat_exec bystander). now apply bystander_handle.
  - apply composable_refl.
Qed.

Lemma frames_step (cfg : Gate.Config) (ev : Event) (w : World) :
  flushedWhenOpen w ->
  sends Upstream (snd (step cfg ev w)) ++ pendingMessages (fst (step cfg ev w))
  = pendingMessages w ++ acceptedBy ev w
  /\ flushedWhenOpen (fst (step cfg ev w)).
Proof.
  intros Hinv. destruct (passive ev) eqn:Hp.
  - destruct (bystander_step cfg ev w Hp) as (Hs & Hq & Hr).
    rewrite Hs, Hq. split.
    + destruct ev; try discriminate; cbn [acceptedBy app]; now rewrite app_nil_r.
    + intros Ho. rewrite Hq. apply Hinv.
      destruct Hr as [Hr|Hr]; [congruence|]. rewrite Ho in Hr. discriminate.
  - unfold step. destruct ev as [data isBinary buffered| | | | | | | | | | | | | | ];
      try discriminate; destruct (enabled _ w) eqn:He; cbn [fst snd app].
    + cbn [deliver acceptedBy]. rewrite He. destruct isBinary.
      * destruct (upstreamReadyState w) eqn:Hu; cbn [forwardable andb].
        -- destruct (downstream_frame_connecting cfg w data buffered Hu) as (-> & -> & Hu').
           split; [reflexivity|]. intros Ho. congruence.
        -- destruct (downstream_frame_open cfg w data buffered Hu) as (Hq & -> & Hu').
           rewrite Hq, (Hinv Hu). split; [reflexivity|]. intros _. now rewrite Hq, (Hinv Hu).
        -- destruct (downstream_frame_shut cfg w data buffered) as (-> & -> & Hu' & _);
             [now rewrite Hu|].
           rewrite app_nil_r. split; [reflexivity|]. intros Ho. congruence.
        -- destruct (downstream_frame_shut cfg w data buffered) as (-> & -> & Hu' & _);
             [now rewrite Hu|].
           rewrite app_nil_r. split; [reflexivity|]. intros Ho. congruence.
      * rewrite downstream_text_frame. cbn [fst snd]. split; [|exact Hinv].
        symmetry. apply app_nil_r.
    + destruct isBinary; cbn [acceptedBy]; rewrite ?He; cbn [andb];
        rewrite app_nil_r; auto.
    + destruct (upstream_open_flushes cfg (deliver UpstreamOpen w)) as (Hs & Hq & _).
      rewrite Hs, Hq. cbn [acceptedBy]. rewrite !app_nil_r.
      split; [now destruct w|]. intros _. exact Hq.
    + cbn [acceptedBy]. rewrite app_nil_r. auto.
Qed.

Lemma frames_run (cfg : Gate.Config) (evs : list Event) (w : World) :
  flushedWhenOpen w ->
  sends Upstream (snd (run cfg evs w)) ++ pendingMessages (fst (run cfg evs w))
  = pendingMessages w ++ accepted cfg evs w
  /\ flushedWhenOpen (fst (run cfg evs w)).
Proof.
  revert w. induction evs as [|ev evs IH]; intros w Hinv; cbn [run accepted].
  - cbn. rewrite app_nil_r. auto.
  - destruct (frames_step cfg ev w Hinv) as [H1 Hinv1].
    destruct (step cfg ev w) as [w1 e1]. cbn [fst snd] in *.
    destruct (IH w1 Hinv1) as [H2 Hinv2].
    destruct (run cfg evs w1) as [w2 e2]. cbn [fst snd] in *.
    split; [|exact Hinv2].
    rewrite sends_app, <- app_assoc, H2, !app_assoc. now rewrite H1.
Qed.

Lemma enabled_open (w : World) :
  enabled UpstreamOpen w = true -> upstreamReadyState w = CONNECTING.
Proof. unfold enabled. now destruct (upstreamReadyState w). Qed.

Lemma pending_changes (cfg : Gate.Config) (ev : Event) (w : World) :
  pendingMessages (fst (step cfg ev w)) <> pendingMessages w ->
  (exists data buffered,
      ev = DownstreamMessage data true buffered
      /\ upstreamReadyState w = CONNECTING
      /\ pendingMessages (fst (step cfg ev w)) = pendingMessages w ++ [data])
  \/ (ev = UpstreamOpen
      /\ upstreamReadyState w = CONNECTING
      /\ pendingMessages (fst (step cfg ev w)) = []).
Proof.
  destruct (passive ev) eqn:Hp.
  - destruct (bystander_step cfg ev w Hp) as (_ & Hq & _). congruence.
  - unfold step.
    destruct ev as [data isBinary buffered| | | | | | | | | | | | | | ];
      try discriminate; (destruct (enabled _ w) eqn:He; [|cbn; congruence]).
    + cbn [deliver]. destruct isBinary; [|rewrite downstream_text_frame; cbn; congruence].
      destruct (upstreamReadyState w) eqn:Hu.
      * destruct (downstream_frame_connecting cfg w data buffered Hu) as (Hq & _).
        intros _. left. exists data, buffered. auto.
      * destruct (downstream_frame_open cfg w data buffered Hu) as (Hq & _). congruence.
      * destruct (downstream_frame_shut cfg w data buffered) as (Hq & _);
          [now rewrite Hu | congruence].
      * destruct (downstream_frame_shut cfg w data buffered) as (Hq & _);
          [now rewrite Hu | congruence].
    + destruct (upstream_open_flushes cfg (deliver UpstreamOpen w)) as (_ & Hq & _).
      intros _. right. auto using enabled_open.
Qed.

Lemma connecting_only_once (cfg : Gate.Config) (ev : Event) (w : World) :
  upstreamReadyState w <> CONNECTING ->
  upstreamReadyState (fst (step cfg ev w)) <> CONNECTING.
Proof.
  intros Hn. destruct (passive ev) eqn:Hp.
  - destruct (bystander_step cfg ev w Hp) as (_ & _ & [Hr|Hr]); [congruence|].
    intros E. rewrite E in Hr. discriminate.
  - unfold step.
    destruct ev as [data isBinary buffered| | | | | | | | | | | | | | ];
      try discriminate; (destruct (enabled _ w) eqn:He; [|exact Hn]).
    + cbn [deliver]. destruct isBinary; [|now rewrite downstream_text_frame].
      destruct (upstreamReadyState w) eqn:Hu; [congruence| | |].
      * destruct (downstream_frame_open cfg w data buffered Hu) as (_ & _ & Hr). congruence.
      * destruct (downstream_frame_shut cfg w data buffered) as (_ & _ & Hr & _);
          [now rewrite Hu | congruence].
      * destruct (downstream_frame_shut cfg w data buffered) as (_ & _ & Hr & _);
          [now rewrite Hu | congruence].
    + apply enabled_open in He. congruence.
Qed.

(** C2. Binary frames that arrive from downstream while upstream is
    connecting are appended to [pendingMessages] and nothing is sent; the
    queue changes in no other way than by such an append or by the flush on
    the [open] event, which sends the queue to upstream in its order and
    empties it; upstream never returns to the connecting phase, so the flush
    happens once; a binary frame that arrives while upstream is open is sent
    at once and not queued; one that arrives while upstream is closing or
    closed is dropped, logged and not queued. Over every run of a
    connection, the frames sent upstream followed by the frames still queued
    are exactly the accepted frames in their order of arrival, and the queue
    is empty whenever upstream is open. *)
Theorem pending_messages_flush_in_order (cfg : Gate.Config) :
  (forall w data buffered,
      upstreamReadyState w = CONNECTING ->
      pendingMessages (fst (exec (handle cfg (DownstreamMessage data true buffered)) w))
      = pendingMessages w ++ [data]
      /\ sends Upstream (snd (exec (handle cfg (DownstreamMessage data true buffered)) w)) = [])
  /\ (forall w data buffered,
        upstreamReadyState w = OPEN ->
        pendingMessages (fst (exec (handle cfg (DownstreamMessage data true buffered)) w))
        = pendingMessages w
        /\ sends Upstream (snd (exec (handle cfg (DownstreamMessage data true buffered)) w))
           = [data])
  /\ (forall w data buffered,
        upstreamReadyState w = CLOSING \/ upstreamReadyState w = CLOSED ->
        pendingMessages (fst (exec (handle cfg (DownstreamMessage data true buffered)) w))
        = pendingMessages w
        /\ sends Upstream (snd (exec (handle cfg (DownstreamMessage data true buffered)) w)) = []
        /\ In (Log LvlWarn "Upstream closed/closing, dropping message")
              (snd (exec (handle cfg (DownstreamMessage data true buffered)) w)))
  /\ (forall w,
        sends Upstream (snd (exec (handle cfg UpstreamOpen) w)) = pendingMessages w
        /\ pendingMessages (fst (exec (handle cfg UpstreamOpen) w)) = [])
  /\ (forall ev w,
        pendingMessages (fst (step cfg ev w)) <> pendingMessages w ->
        (exists data buffered,
            ev = DownstreamMessage data true buffered
            /\ upstreamReadyState w = CONNECTING
            /\ pendingMessages (fst (step cfg ev w)) = pendingMessages w ++ [data])
        \/ (ev = UpstreamOpen
            /\ upstreamReadyState w = CONNECTING
            /\ pendingMessages (fst (step cfg ev w)) = []))
  /\ (forall ev w,
        upstreamReadyState w <> CONNECTING ->
        upstreamReadyState (fst (step cfg ev w)) <> CONNECTING)
  /\ (forall evs,
        sends Upstream (snd (run cfg evs initial))
        ++ pendingMessages (fst (run cfg evs initial))
        = accepted cfg evs initial
        /\ (upstreamReadyState (fst (run cfg evs initial)) = OPEN ->
            pendingMessages (fst (run cfg evs initial)) = [])).
Proof.
  repeat apply conj.
  - intros w data buffered Hu.
    destruct (downstream_frame_connecting cfg w data buffered Hu) as (H1 & H2 & _). auto.
  - intros w data buffered Hu.
    destruct (downstream_frame_open cfg w data buffered Hu) as (H1 & H2 & _). auto.
  - intros w data buffered Hu.
    destruct (downstream_frame_shut cfg w data buffered) as (H1 & H2 & _ & H4); [|auto].
    destruct Hu as [-> | ->]; reflexivity.
  - intros w. destruct (upstream_open_flushes cfg w) as (H1 & H2 & _). auto.
  - apply pending_changes.
  - apply connecting_only_once.
  - intros evs.
    assert (H0 : flushedWhenOpen initial) by (rewrite initial_eq; intros H; discriminate).
    destruct (frames_run cfg evs initial H0) as [H1 H2].
    split; [|exact H2]. rewrite H1. now rewrite initial_eq.
Qed.

(** Three frames arrive before upstream opens: all three go to upstream,
    in their order, at the opening, and the queue is left empty. *)
Lemma pending_messages_flush_in_order_witness :
  sends Upstream
    (snd (run Gate.cfgTelegram
            [DownstreamMessage [Byte.x01] true 0; DownstreamMessage [Byte.x02] true 0;
             DownstreamMessage [Byte.x03] true 0; UpstreamOpen]
            initial))
  = [[Byte.x01]; [Byte.x02]; [Byte.x03]]
  /\ pendingMessages
       (fst (run Gate.cfgTelegram
               [DownstreamMessage [Byte.x01] true 0; DownstreamMessage [Byte.x02] true 0;
                DownstreamMessage [Byte.x03] true 0; UpstreamOpen]
               initial))
     = [].
Proof.
  destruct (proj2 (proj2 (proj2 (proj2 (proj2 (proj2
              (pending_messages_flush_in_order Gate.cfgTelegram))))))
              [DownstreamMessage [Byte.x01] true 0; DownstreamMessage [Byte.x02] true 0;
               DownstreamMessage [Byte.x03] true 0; UpstreamOpen]) as [H1 H2].
  specialize (H2 ltac:(vm_compute; reflexivity)).
  rewrite H2, app_nil_r in H1. split; [|exact H2].
  rewrite H1. vm_compute. reflexivity.
Defined.

(* ===================================================================== *)
(** ** The traffic of a connection *)
(* ===================================================================== *)

Section TrafficFacts.
Import Traffic.

#[local] Instance keeps_composable {A : Type} (f : World -> A) : Composable (keeps f).
Proof. split; unfold keeps; [reflexivity | congruence]. Qed.

#[local] Instance silent_composable (leg : Leg) : Composable (silent leg).
Proof.
  split; unfold silent; [reflexivity|].
  intros w1 w2 w3 e1 e2 H1 H2. now rewrite sends_app, H1, H2.
Qed.

Lemma silent_sendAll (leg other : Leg) (messages : list Buffer) :
  Leg_eqb other leg = false -> sat (silent leg) (sendAll other messages).
Proof.
  intros Hne w. rewrite sendAll_run. unfold silent. cbn [snd].
  induction messages as [|m ms IH]; [reflexivity|].
  cbn [map]. unfold sends in *. cbn [omap sentOn list_omap]. now rewrite Hne.
Qed.

Lemma silent_applyBackpressure (leg : Leg) f get set :
  (forall st, sends leg (snd (f st)) = []) ->
  sat (silent leg) (applyBackpressure f get set).
Proof.
  intros Hf w. unfold silent, applyBackpressure.
  specialize (Hf (get w)). now destruct (f (get w)) as [st e].
Qed.

Ltac silent_leaf :=
  idtac;
  match goal with
  | |- sat _ (sendAll _ _) => apply silent_sendAll; reflexivity
  | |- sat _ (applyBackpressure _ _ _) =>
      apply silent_applyBackpressure; intros ?;
      first [apply sends_checkBackpressure | apply sends_handleDrain]
  | |- sat _ (modify _) => intros ?; reflexivity
  | |- sat _ (emit _) => intros ?; reflexivity
  | |- sat _ (clearTimer _) => intros ?; reflexivity
  | |- sat _ (setTimer _) => intros ?; reflexivity
  end.

Ltac unfold_all := unfold_handlers; unfold cleanup; unfold_handlers.

(** No handler but the one of upstream frames sends downstream. *)
Lemma silent_downstream_handle (cfg : Gate.Config) (ev : Event) :
  (forall data buffered, ev <> UpstreamMessage data true buffered) ->
  sat (silent Downstream) (handle cfg ev).
Proof.
  intros Hev. destruct ev; try solve [unfold_all; sat_split silent_leaf].
  destruct isBinary; [now destruct (Hev data buffered)|].
  unfold_all. cbv [negb]. cbv iota. sat_split silent_leaf.
Qed.

Lemma upstream_frame_relayed (cfg : Gate.Config) (w : World) (data : Buffer) (buffered : Z) :
  sends Downstream (snd (exec (handle cfg (UpstreamMessage data true buffered)) w))
  = (if ReadyState_eqb (downstreamReadyState w) OPEN then [data] else [])
  /\ downstreamReadyState (fst (exec (handle cfg (UpstreamMessage data true buffered)) w))
     = downstreamReadyState w.
Proof.
  destruct w. unfold handle; unfold_handlers; unfold_monad.
  unfold checkBackpressure. case_more; split; reflexivity.
Qed.

Lemma relayed_step (cfg : Gate.Config) (ev : Event) (w : World) :
  sends Downstream (snd (step cfg ev w)) = relayedBy ev w.
Proof.
  unfold step. destruct (enabled ev w) eqn:He.
  - destruct ev as [| | | | | | |data [] buffered| | | | | | | ];
      try (apply (sat_exec (silent Downstream)), silent_downstream_handle;
           intros ? ?; discriminate).
    cbn [relayedBy deliver]. rewrite He. cbn [andb].
    apply upstream_frame_relayed.
  - destruct ev as [| | | | | | |data [] buffered| | | | | | | ]; try reflexivity.
    cbn [relayedBy]. now rewrite He.
Qed.

Lemma relayed_run (cfg : Gate.Config) (evs : list Event) (w : World) :
  sends Downstream (snd (run cfg evs w)) = relayed cfg evs w.
Proof.
  revert w. induction evs as [|ev evs IH]; intros w; cbn [run relayed]; [reflexivity|].
  pose proof (relayed_step cfg ev w) as H1.
  destruct (step cfg ev w) as [w1 e1]. specialize (IH w1).
  destruct (run cfg evs w1) as [w2 e2]. cbn [fst snd] in *.
  now rewrite sends_app, H1, IH.
Qed.


(** ** Sockets do not reopen *)

#[local] Instance stillOpen_composable : Composable stillOpen.
Proof. split; unfold stillOpen; auto. Qed.

Ltac stillOpen_exec :=
  let w := fresh "w" in
  intros w; destruct w; unfold stillOpen;
  unfold_monad; unfold beginClosing, readyState, set_readyState;
  case_reads; congruence.

Lemma stillOpen_sendAll (leg : Leg) (messages : list Buffer) :
  sat stillOpen (sendAll leg messages).
Proof. intros w. rewrite sendAll_run. now unfold stillOpen. Qed.

Lemma stillOpen_applyBackpressure f get set :
  (forall st w, downstreamReadyState (set st w) = downstreamReadyState w) ->
  sat stillOpen (applyBackpressure f get set).
Proof.
  intros Hs w. unfold stillOpen, applyBackpressure.
  destruct (f (get w)) as [st e]. cbn [fst snd]. now rewrite Hs.
Qed.

Ltac stillOpen_leaf :=
  idtac;
  match goal with
  | |- sat _ (sendAll _ _) => apply stillOpen_sendAll
  | |- sat _ (applyBackpressure _ _ _) =>
      apply stillOpen_applyBackpressure; intros ? []; reflexivity
  | |- sat _ (modify _) => stillOpen_exec
  | |- sat _ (emit _) => stillOpen_exec
  | |- sat _ (clearTimer _) => stillOpen_exec
  | |- sat _ (setTimer _) => stillOpen_exec
  end.

Lemma stillOpen_handle (cfg : Gate.Config) (ev : Event) : sat stillOpen (handle cfg ev).
Proof. destruct ev; unfold_all; sat_split stillOpen_leaf. Qed.

Lemma stillOpen_step (cfg : Gate.Config) (ev : Event) (w : World) :
  downstreamReadyState (fst (step cfg ev w)) = OPEN -> downstreamReadyState w = OPEN.
Proof.
  unfold step. destruct (enabled ev w); [|auto]. intros H.
  apply (sat_exec stillOpen (handle cfg ev) (deliver ev w) (stillOpen_handle cfg ev)) in H.
  revert H. destruct ev, w; unfold deliver, beginClosing, readyState, set_readyState; cbn;
    try congruence;
    match goal with |- context [match ?x with _ => _ end] => destruct x end; cbn; congruence.
Qed.

Lemma stillOpen_run (cfg : Gate.Config) (evs : list Event) (w : World) :
  downstreamReadyState (fst (run cfg evs w)) = OPEN -> downstreamReadyState w = OPEN.
Proof.
  revert w. induction evs as [|ev evs IH]; intros w; cbn [run]; [auto|].
  pose proof (stillOpen_step cfg ev w) as H1.
  destruct (step cfg ev w) as [w1 e1]. specialize (IH w1).
  destruct (run cfg evs w1) as [w2 e2]. cbn [fst snd] in *. auto.
Qed.

Lemma run_cons (cfg : Gate.Config) (ev : Event) (evs : list Event) (w : World) :
  run cfg (ev :: evs) w
  = (fst (run cfg evs (fst (step cfg ev w))),
     snd (step cfg ev w) ++ snd (run cfg evs (fst (step cfg ev w)))).
Proof.
  cbn [run]. destruct (step cfg ev w) as [w1 e1]. cbn [fst snd].
  now destruct (run cfg evs w1) as [w2 e2].
Qed.

Lemma relayed_all (cfg : Gate.Config) (evs : list Event) (w : World) :
  feasible cfg evs w = true ->
  downstreamReadyState (fst (run cfg evs w)) = OPEN ->
  relayed cfg evs w = framesFrom Upstream evs.
Proof.
  revert w. induction evs as [|ev evs IH]; intros w Hf Ho; [reflexivity|].
  cbn [feasible] in Hf. apply andb_true_iff in Hf as [He Hf].
  rewrite run_cons in Ho. cbn [fst] in Ho.
  cbn [relayed framesFrom flat_map]. rewrite (IH _ Hf Ho). f_equal.
  apply stillOpen_run, stillOpen_step in Ho.
  destruct ev as [| | | | | | |data [] buffered| | | | | | | ]; try reflexivity.
  cbn [relayedBy binaryFrom]. now rewrite He, Ho.
Qed.

(** X11. Upstream to downstream, nothing is queued: over every sequence
    of events, from every state, the frames written to the downstream
    socket are the binary frames that upstream delivered while that socket
    was open, each once and in their order of arrival.  So for a feasible
    sequence that leaves the downstream socket open, the frames sent
    downstream are exactly the binary frames that arrived from upstream. *)
Theorem upstream_frames_reach_downstream (cfg : Gate.Config) (evs : list Event) (w : World) :
  sends Downstream (snd (run cfg evs w)) = relayed cfg evs w
  /\ (feasible cfg evs w = true ->
      downstreamReadyState (fst (run cfg evs w)) = OPEN ->
      sends Downstream (snd (run cfg evs w)) = framesFrom Upstream evs).
Proof.
  split; [apply relayed_run|].
  intros Hf Ho. rewrite relayed_run. now apply relayed_all.
Qed.

Lemma upstream_frames_reach_downstream_witness :
  sends Downstream (snd (run Gate.cfgTelegram exampleSession initial))
  = [[Byte.x04]; [Byte.x06; Byte.x07]].
Proof.
  apply (proj2 (upstream_frames_reach_downstream Gate.cfgTelegram exampleSession initial));
    vm_compute; reflexivity.
Defined.

(** ** Downstream to upstream *)

Lemma upstream_shut_stays (cfg : Gate.Config) (ev : Event) (w : World) :
  shut (upstreamReadyState w) = true ->
  shut (upstreamReadyState (fst (step cfg ev w))) = true.
Proof.
  intros Hs. destruct (passive ev) eqn:Hp.
  - destruct (bystander_step cfg ev w Hp) as (_ & _ & [Hr|Hr]); [now rewrite Hr | exact Hr].
  - unfold step.
    destruct ev as [data isBinary buffered| | | | | | | | | | | | | | ];
      try discriminate; (destruct (enabled _ w) eqn:He; [|exact Hs]).
    + cbn [deliver]. destruct isBinary; [|now rewrite downstream_text_frame].
      destruct (upstreamReadyState w) eqn:Hu; try discriminate.
      * destruct (downstream_frame_shut cfg w data buffered) as (_ & _ & Hu' & _);
          [now rewrite Hu | now rewrite Hu', Hu].
      * destruct (downstream_frame_shut cfg w data buffered) as (_ & _ & Hu' & _);
          [now rewrite Hu | now rewrite Hu', Hu].
    + apply enabled_open in He. rewrite He in Hs. discriminate.
Qed.

Lemma forwardable_before (cfg : Gate.Config) (evs : list Event) (w : World) :
  forwardable (upstreamReadyState (fst (run cfg evs w))) = true ->
  forwardable (upstreamReadyState w) = true.
Proof.
  revert w. induction evs as [|ev evs IH]; intros w; [auto|].
  rewrite run_cons. cbn [fst]. intros H. apply IH in H.
  pose proof (upstream_shut_stays cfg ev w) as Hs.
  destruct (upstreamReadyState w); try reflexivity;
    specialize (Hs eq_refl); destruct (upstreamReadyState (fst (step cfg ev w)));
    discriminate.
Qed.

Lemma accepted_all (cfg : Gate.Config) (evs : list Event) (w : World) :
  feasible cfg evs w = true ->
  forwardable (upstreamReadyState (fst (run cfg evs w))) = true ->
  accepted cfg evs w = framesFrom Downstream evs.
Proof.
  revert w. induction evs as [|ev evs IH]; intros w Hf Ho; [reflexivity|].
  cbn [feasible] in Hf. apply andb_true_iff in Hf as [He Hf].
  rewrite run_cons in Ho. cbn [fst] in Ho.
  cbn [accepted framesFrom flat_map]. rewrite (IH _ Hf Ho). f_equal.
  apply forwardable_before in Ho.
  pose proof (upstream_shut_stays cfg ev w) as Hs.
  assert (Hw : forwardable (upstreamReadyState w) = true).
  { destruct (upstreamReadyState w); try reflexivity;
      specialize (Hs eq_refl); destruct (upstreamReadyState (fst (step cfg ev w)));
      discriminate. }
  destruct ev as [data [] buffered| | | | | | | | | | | | | | ]; try reflexivity.
  cbn [acceptedBy binaryFrom]. now rewrite He, Hw.
Qed.

Lemma connecting_step (cfg : Gate.Config) (ev : Event) (w : World) :
  upstreamReadyState (fst (step cfg ev w)) = CONNECTING ->
  upstreamReadyState w = CONNECTING /\ sends Upstream (snd (step cfg ev w)) = [].
Proof.
  intros Hc.
  assert (Hw : upstreamReadyState w = CONNECTING).
  { destruct (upstreamReadyState w) eqn:Hu; [reflexivity|..];
      destruct (connecting_only_once cfg ev w); congruence. }
  split; [exact Hw|].
  destruct (passive ev) eqn:Hp.
  - now destruct (bystander_step cfg ev w Hp) as (Hs & _).
  - revert Hc. unfold step.
    destruct ev as [data isBinary buffered| | | | | | | | | | | | | | ];
      try discriminate; (destruct (enabled _ w) eqn:He; [|reflexivity]).
    + cbn [deliver]. intros _. destruct isBinary; [|now rewrite downstream_text_frame].
      now destruct (downstream_frame_connecting cfg w data buffered Hw) as (_ & Hs & _).
    + destruct (upstream_open_flushes cfg (deliver UpstreamOpen w)) as (_ & _ & Hr).
      rewrite Hr. destruct w; discriminate.
Qed.

Lemma connecting_run (cfg : Gate.Config) (evs : list Event) (w : World) :
  upstreamReadyState (fst (run cfg evs w)) = CONNECTING ->
  sends Upstream (snd (run cfg evs w)) = [].
Proof.
  revert w. induction evs as [|ev evs IH]; intros w; [reflexivity|].
  rewrite run_cons. cbn [fst snd]. intros Hc. rewrite sends_app, (IH _ Hc).
  assert (H1 : upstreamReadyState (fst (step cfg ev w)) = CONNECTING).
  { clear IH. revert Hc. generalize (fst (step cfg ev w)). clear w.
    induction evs as [|ev' evs IH]; intros w; [auto|].
    rewrite run_cons. cbn [fst]. intros Hc. apply IH in Hc.
    now apply connecting_step in Hc. }
  apply connecting_step in H1 as [_ ->]. reflexivity.
Qed.

(** X10. Downstream to upstream, nothing is lost or reordered while
    upstream can take frames: for a feasible sequence of events from the
    start of a connection, if the upstream socket is open at the end, the
    frames sent upstream are exactly the binary frames that arrived from
    downstream, in their order of arrival, and the queue is empty; if it is
    still connecting, nothing has been sent and the queue holds exactly
    these frames. *)
Theorem downstream_frames_reach_upstream (cfg : Gate.Config) (evs : list Event) :
  feasible cfg evs initial = true ->
  (upstreamReadyState (fst (run cfg evs initial)) = OPEN ->
   sends Upstream (snd (run cfg evs initial)) = framesFrom Downstream evs
   /\ pendingMessages (fst (run cfg evs initial)) = [])
  /\ (upstreamReadyState (fst (run cfg evs initial)) = CONNECTING ->
      sends Upstream (snd (run cfg evs initial)) = []
      /\ pendingMessages (fst (run cfg evs initial)) = framesFrom Downstream evs).
Proof.
  intros Hf.
  assert (H0 : flushedWhenOpen initial) by (rewrite initial_eq; intros H; discriminate).
  destruct (frames_run cfg evs initial H0) as [H1 H2].
  replace (pendingMessages initial) with (@nil Buffer) in H1 by now rewrite initial_eq.
  cbn [app] in H1. split.
  - intros Ho. specialize (H2 Ho). rewrite H2, app_nil_r in H1.
    rewrite H1. split; [|exact H2]. apply accepted_all; [exact Hf | now rewrite Ho].
  - intros Hc.
    rewrite (accepted_all cfg evs initial Hf) in H1 by now rewrite Hc.
    rewrite (connecting_run cfg evs initial Hc) in *. auto.
Qed.

Lemma downstream_frames_reach_upstream_witness :
  sends Upstream (snd (run Gate.cfgTelegram exampleSession initial))
  = [[Byte.x01]; [Byte.x02; Byte.x03]]
  /\ pendingMessages (fst (run Gate.cfgTelegram exampleSession initial)) = [].
Proof.
  apply (proj1 (downstream_frames_reach_upstream Gate.cfgTelegram exampleSession
                  ltac:(vm_compute; reflexivity))).
  vm_compute. reflexivity.
Defined.


(** X12. No frame is ever handed to a socket that is not open: when the
    handlers of an event send on a leg, the event was delivered and the
    socket of that leg is open, both when the handlers start and when they
    return. *)
Theorem sends_only_on_open_sockets (cfg : Gate.Config) (ev : Event) (w : World) (leg : Leg) :
  sends leg (snd (step cfg ev w)) <> [] ->
  enabled ev w = true
  /\ readyState leg (deliver ev w) = OPEN
  /\ readyState leg (fst (step cfg ev w)) = OPEN.
Proof.
  intros Hs.
  assert (He : enabled ev w = true).
  { destruct (enabled ev w) eqn:He; [reflexivity|].
    unfold step in Hs. rewrite He in Hs. now destruct Hs. }
  split; [exact He|]. destruct leg; cbn [readyState].
  - rewrite relayed_step in Hs.
    destruct ev as [| | | | | | |data [] buffered| | | | | | | ]; try now destruct Hs.
    cbn [relayedBy] in Hs. rewrite He in Hs. cbn [andb deliver] in *.
    unfold step. rewrite He. cbn [deliver].
    destruct (upstream_frame_relayed cfg w data buffered) as [_ Hr].
    rewrite exec_fst in *. rewrite Hr.
    destruct (downstreamReadyState w); try now destruct Hs. auto.
  - destruct (passive ev) eqn:Hp.
    { destruct (bystander_step cfg ev w Hp) as (H & _). contradiction. }
    unfold step in *. rewrite He in *.
    destruct ev as [data isBinary buffered| | | | | | | | | | | | | | ]; try discriminate.
    + cbn [deliver] in *.
      destruct isBinary; [|rewrite downstream_text_frame in Hs; now destruct Hs].
      destruct (upstreamReadyState w) eqn:Hu.
      * destruct (downstream_frame_connecting cfg w data buffered Hu) as (_ & H & _).
        contradiction.
      * destruct (downstream_frame_open cfg w data buffered Hu) as (_ & _ & Hu').
        split; [reflexivity|]. congruence.
      * destruct (downstream_frame_shut cfg w data buffered) as (_ & H & _);
          [now rewrite Hu | contradiction].
      * destruct (downstream_frame_shut cfg w data buffered) as (_ & H & _);
          [now rewrite Hu | contradiction].
    + destruct (upstream_open_flushes cfg (deliver UpstreamOpen w)) as (_ & _ & Hr).
      rewrite Hr. split; now destruct w.
Qed.

Lemma sends_only_on_open_sockets_witness :
  enabled UpstreamOpen (fst (run Gate.cfgTelegram [DownstreamMessage [Byte.x01] true 0] initial))
  = true
  /\ readyState Upstream
       (deliver UpstreamOpen
          (fst (run Gate.cfgTelegram [DownstreamMessage [Byte.x01] true 0] initial))) = OPEN
  /\ readyState Upstream
       (fst (step Gate.cfgTelegram UpstreamOpen
               (fst (run Gate.cfgTelegram [DownstreamMessage [Byte.x01] true 0] initial))))
     = OPEN.
Proof.
  apply (sends_only_on_open_sockets Gate.cfgTelegram UpstreamOpen
           (fst (run Gate.cfgTelegram [DownstreamMessage [Byte.x01] true 0] initial)) Upstream).
  vm_compute. discriminate.
Defined.


(** ** The byte counters *)

Ltac keeps_exec :=
  let w := fresh "w" in
  intros w; destruct w; unfold keeps;
  unfold_monad; unfold beginClosing, readyState, set_readyState;
  case_reads; reflexivity.

Lemma keeps_sendAll {A : Type} (f : World -> A) (leg : Leg) (messages : list Buffer) :
  sat (keeps f) (sendAll leg messages).
Proof. intros w. rewrite sendAll_run. reflexivity. Qed.

Lemma keeps_applyBackpressure {A : Type} (f : World -> A) g get set :
  (forall st w, f (set st w) = f w) ->
  sat (keeps f) (applyBackpressure g get set).
Proof.
  intros Hs w. unfold keeps, applyBackpressure.
  destruct (g (get w)) as [st e]. cbn [fst snd]. apply Hs.
Qed.

Ltac keeps_leaf :=
  idtac;
  match goal with
  | |- sat _ (sendAll _ _) => apply keeps_sendAll
  | |- sat _ (applyBackpressure _ _ _) =>
      apply keeps_applyBackpressure; intros ? []; reflexivity
  | |- sat _ (modify _) => keeps_exec
  | |- sat _ (emit _) => keeps_exec
  | |- sat _ (clearTimer _) => keeps_exec
  | |- sat _ (setTimer _) => keeps_exec
  end.

Lemma keeps_deliver {A : Type} (f : World -> A) (ev : Event) (w : World) :
  (forall rs w, f (set_downstreamReadyState rs w) = f w) ->
  (forall rs w, f (set_upstreamReadyState rs w) = f w) ->
  f (deliver ev w) = f w.
Proof.
  intros Hd Hu. destruct ev; cbn [deliver]; auto;
    unfold beginClosing, readyState, set_readyState;
    match goal with |- context [match ?x with _ => _ end] => destruct x end; auto.
Qed.

Lemma bytesOf_app (a b : list Buffer) :
  bytesOf (a ++ b) = bytesOf a + bytesOf b.
Proof.
  unfold bytesOf. induction a as [|x a IH]; cbn [app fold_right]; [reflexivity | lia].
Qed.

Lemma counted_downstream (cfg : Gate.Config) (ev : Event) (w : World) :
  enabled ev w = true ->
  bytesDownstreamToUpstream (fst (step cfg ev w))
  = bytesDownstreamToUpstream w + bytesOf (binaryFrom Downstream ev).
Proof.
  intros He. unfold step. rewrite He.
  assert (Hd : bytesDownstreamToUpstream (deliver ev w) = bytesDownstreamToUpstream w).
  { apply (keeps_deliver bytesDownstreamToUpstream); intros ? []; reflexivity. }
  destruct ev as [data [] buffered| | | | | | |data' b' buffered'| | | | | | | ];
    try solve [unfold bytesOf, binaryFrom; cbn [fold_right]; rewrite Z.add_0_r, <- Hd;
               apply (sat_exec (keeps bytesDownstreamToUpstream));
               unfold_all; cbv [negb]; cbv iota; sat_split keeps_leaf].
  clear. destruct w. unfold handle; unfold_handlers; unfold_monad; unfold checkBackpressure.
  case_more; unfold bytesOf; cbn [binaryFrom fold_right]; lia.
Qed.

Lemma counted_upstream (cfg : Gate.Config) (ev : Event) (w : World) :
  enabled ev w = true ->
  bytesUpstreamToDownstream (fst (step cfg ev w))
  = bytesUpstreamToDownstream w + bytesOf (binaryFrom Upstream ev).
Proof.
  intros He. unfold step. rewrite He.
  assert (Hd : bytesUpstreamToDownstream (deliver ev w) = bytesUpstreamToDownstream w).
  { apply (keeps_deliver bytesUpstreamToDownstream); intros ? []; reflexivity. }
  destruct ev as [data' b' buffered'| | | | | | |data [] buffered| | | | | | | ];
    try solve [unfold bytesOf, binaryFrom; cbn [fold_right]; rewrite Z.add_0_r, <- Hd;
               apply (sat_exec (keeps bytesUpstreamToDownstream));
               unfold_all; cbv [negb]; cbv iota; sat_split keeps_leaf].
  clear. destruct w. unfold handle; unfold_handlers; unfold_monad; unfold checkBackpressure.
  case_more; unfold bytesOf; cbn [binaryFrom fold_right]; lia.
Qed.

Lemma counted_run (cfg : Gate.Config) (evs : list Event) (w : World) :
  feasible cfg evs w = true ->
  bytesDownstreamToUpstream (fst (run cfg evs w))
  = bytesDownstreamToUpstream w + bytesOf (framesFrom Downstream evs)
  /\ bytesUpstreamToDownstream (fst (run cfg evs w))
     = bytesUpstreamToDownstream w + bytesOf (framesFrom Upstream evs).
Proof.
  revert w. induction evs as [|ev evs IH]; intros w Hf.
  - cbn. lia.
  - cbn [feasible] in Hf. apply andb_true_iff in Hf as [He Hf].
    rewrite run_cons. cbn [fst framesFrom flat_map]. rewrite !bytesOf_app.
    destruct (IH _ Hf) as [-> ->].
    rewrite (counted_downstream cfg ev w He), (counted_upstream cfg ev w He).
    unfold framesFrom. lia.
Qed.

Lemma bytesOf_nonneg (frames : list Buffer) : 0 <= bytesOf frames.
Proof.
  unfold bytesOf. induction frames as [|x frames IH]; cbn [fold_right]; lia.
Qed.

Lemma accepted_le (cfg : Gate.Config) (evs : list Event) (w : World) :
  bytesOf (accepted cfg evs w) <= bytesOf (framesFrom Downstream evs).
Proof.
  revert w. induction evs as [|ev evs IH]; intros w; [reflexivity|].
  cbn [accepted framesFrom flat_map]. rewrite !bytesOf_app.
  specialize (IH (fst (step cfg ev w))). unfold framesFrom in *.
  assert (bytesOf (acceptedBy ev w) <= bytesOf (binaryFrom Downstream ev)); [|lia].
  destruct ev as [data [] buffered| | | | | | | | | | | | | | ]; try reflexivity.
  cbn [acceptedBy binaryFrom]. destruct (_ && _); [reflexivity|].
  apply bytesOf_nonneg.
Qed.

Lemma relayed_le (cfg : Gate.Config) (evs : list Event) (w : World) :
  bytesOf (relayed cfg evs w) <= bytesOf (framesFrom Upstream evs).
Proof.
  revert w. induction evs as [|ev evs IH]; intros w; [reflexivity|].
  cbn [relayed framesFrom flat_map]. rewrite !bytesOf_app.
  specialize (IH (fst (step cfg ev w))). unfold framesFrom in *.
  assert (bytesOf (relayedBy ev w) <= bytesOf (binaryFrom Upstream ev)); [|lia].
  destruct ev as [| | | | | | |data [] buffered| | | | | | | ]; try reflexivity.
  cbn [relayedBy binaryFrom]. destruct (_ && _); [reflexivity|].
  apply bytesOf_nonneg.
Qed.

(** X13. The byte counters count what arrives, not what is forwarded:
    over a feasible sequence of events from the start of a connection,
    [bytesDownstreamToUpstream] is the total length of the binary frames
    that arrived from downstream and [bytesUpstreamToDownstream] the total
    length of those that arrived from upstream, dropped frames included and
    text frames excluded; the bytes sent on a leg, with the bytes still
    queued, never exceed the counter of that direction. *)
Theorem byte_counters_count_arrivals (cfg : Gate.Config) (evs : list Event) :
  feasible cfg evs initial = true ->
  bytesDownstreamToUpstream (fst (run cfg evs initial))
  = bytesOf (framesFrom Downstream evs)
  /\ bytesUpstreamToDownstream (fst (run cfg evs initial))
     = bytesOf (framesFrom Upstream evs)
  /\ bytesOf (sends Upstream (snd (run cfg evs initial)))
     + bytesOf (pendingMessages (fst (run cfg evs initial)))
     <= bytesDownstreamToUpstream (fst (run cfg evs initial))
  /\ bytesOf (sends Downstream (snd (run cfg evs initial)))
     <= bytesUpstreamToDownstream (fst (run cfg evs initial)).
Proof.
  intros Hf. destruct (counted_run cfg evs initial Hf) as [Hd Hu].
  replace (bytesDownstreamToUpstream initial) with 0 in Hd by now rewrite initial_eq.
  replace (bytesUpstreamToDownstream initial) with 0 in Hu by now rewrite initial_eq.
  rewrite Hd, Hu. cbn [Z.add]. repeat split.
  - assert (H0 : flushedWhenOpen initial) by (rewrite initial_eq; intros H; discriminate).
    destruct (frames_run cfg evs initial H0) as [H1 _].
    replace (pendingMessages initial) with (@nil Buffer) in H1 by now rewrite initial_eq.
    cbn [app] in H1. rewrite <- bytesOf_app, H1. apply accepted_le.
  - rewrite relayed_run. apply relayed_le.
Qed.

Lemma byte_counters_count_arrivals_witness :
  bytesDownstreamToUpstream (fst (run Gate.cfgTelegram exampleSession initial)) = 3
  /\ bytesUpstreamToDownstream (fst (run Gate.cfgTelegram exampleSession initial)) = 3.
Proof.
  destruct (byte_counters_count_arrivals Gate.cfgTelegram exampleSession
              ltac:(vm_compute; reflexivity)) as (H1 & H2 & _).
  split; [exact H1 | exact H2].
Defined.

(** ** The keepalive *)

#[local] Instance keepaliveStep_composable : Composable keepaliveStep.
Proof. split; unfold keepaliveStep; auto. Qed.

#[local] Instance unanswered_composable : Composable unanswered.
Proof. split; unfold unanswered; auto. Qed.

Ltac keepalive_solve :=
  cbn in *;
  repeat match goal with
         | H : _ /\ _ |- _ => destruct H
         end;
  repeat split; try congruence; try lia;
  try (intros [=]; lia);
  try (intros; (discriminate ||
       (repeat first [rewrite lookup_insert_ne by lia
                     | rewrite lookup_delete_ne by congruence]; auto))).

Ltac keepalive_exec :=
  let w := fresh "w" in
  let Hinv := fresh "Hinv" in
  intros w Hinv; destruct w; unfold keepalive in *; cbn in Hinv;
  unfold cleanup; unfold_handlers; unfold_monad;
  unfold beginClosing, readyState, set_readyState in *;
  case_reads; keepalive_solve.

Lemma keepalive_resetDownstreamIdleTimer : sat keepaliveStep resetDownstreamIdleTimer.
Proof. keepalive_exec. Qed.

Lemma keepalive_resetIdleTimer : sat keepaliveStep resetIdleTimer.
Proof. keepalive_exec. Qed.

Lemma keepalive_cancelIdleTimer : sat keepaliveStep cancelIdleTimer.
Proof. keepalive_exec. Qed.

#[local] Instance closedStep_composable : Composable closedStep.
Proof. split; unfold closedStep; auto. Qed.

Ltac closedStep_exec :=
  let w := fresh "w" in
  let Hc := fresh "Hc" in
  let Hinv := fresh "Hinv" in
  intros w [Hc Hinv]; destruct w; unfold keepalive in *; cbn in Hc, Hinv; subst;
  unfold_monad; unfold beginClosing, readyState, set_readyState;
  case_reads; (split; [reflexivity|]);
  repeat match goal with
         | H : _ /\ _ |- _ => destruct H
         end;
  repeat split; auto; discriminate.

Ltac closedStep_leaf :=
  idtac;
  match goal with
  | |- sat _ (modify _) => closedStep_exec
  | |- sat _ (emit _) => closedStep_exec
  | |- sat _ (clearTimer _) => closedStep_exec
  end.

Lemma run_gets {A B : Type} (f : World -> A) (k : A -> M B) (w : World) :
  (gets f ≫= k) w = k (f w) w.
Proof.
  unfold mbind, M_bind, gets. now destruct (k (f w) w) as [[y w2] e2].
Qed.

Lemma run_modify {B : Type} (g : World -> World) (m : M B) (w : World) :
  (modify g ;; m) w = m (g w).
Proof.
  unfold mbind, M_bind, modify. now destruct (m (g w)) as [[y w2] e2].
Qed.

Lemma keepalive_cleanup (code : Z) (reason : string) : sat keepaliveStep (cleanup code reason).
Proof.
  intros w Hinv. destruct (closed w) eqn:Hc.
  { now rewrite (cleanup_closed code reason w Hc). }
  unfold cleanup. rewrite run_gets, Hc, run_modify.
  match goal with
  | |- keepalive (snd (fst (?m ?w0))) =>
      assert (Hm : sat closedStep m)
        by (unfold_handlers; sat_split closedStep_leaf);
      apply (Hm w0)
  end.
  destruct w; unfold keepalive in *; cbn in *.
  destruct Hinv as (_ & H2 & H3 & H4). repeat split; auto. discriminate.
Qed.

Lemma keepalive_sendAll (leg : Leg) (messages : list Buffer) :
  sat keepaliveStep (sendAll leg messages).
Proof. intros w. rewrite sendAll_run. now unfold keepaliveStep. Qed.

Lemma keepalive_applyBackpressure f get set :
  (forall st w, keepalive w -> keepalive (set st w)) ->
  sat keepaliveStep (applyBackpressure f get set).
Proof.
  intros Hs w. unfold keepaliveStep, applyBackpressure.
  destruct (f (get w)) as [st e]. cbn [fst snd]. apply Hs.
Qed.

Ltac keepalive_leaf :=
  idtac;
  match goal with
  | |- sat _ (cleanup _ _) => apply keepalive_cleanup
  | |- sat _ resetDownstreamIdleTimer => apply keepalive_resetDownstreamIdleTimer
  | |- sat _ resetIdleTimer => apply keepalive_resetIdleTimer
  | |- sat _ cancelIdleTimer => apply keepalive_cancelIdleTimer
  | |- sat _ (sendAll _ _) => apply keepalive_sendAll
  | |- sat _ (applyBackpressure _ _ _) =>
      apply keepalive_applyBackpressure; intros ? [] ?; assumption
  | |- sat _ (modify _) => keepalive_exec
  | |- sat _ (emit _) => keepalive_exec
  | |- sat _ (log _ _) => keepalive_exec
  end.

Lemma keepalive_handle (cfg : Gate.Config) (ev : Event) :
  (forall id, ev <> TimerFired id) -> sat keepaliveStep (handle cfg ev).
Proof.
  intros Hev. destruct ev; try solve [unfold_events; sat_split keepalive_leaf].
  now destruct (Hev id).
Qed.

Lemma exec_gets {A B : Type} (f : World -> A) (k : A -> M B) (w : World) :
  exec (gets f ≫= k) w = exec (k (f w)) w.
Proof.
  unfold exec, mbind, M_bind, gets. now destruct (k (f w) w) as [[y w2] e2].
Qed.

Lemma exec_modify {B : Type} (g : World -> World) (m : M B) (w : World) :
  exec (modify g ;; m) w = exec m (g w).
Proof.
  unfold exec, mbind, M_bind, modify. now destruct (m (g w)) as [[y w2] e2].
Qed.

Lemma exec_log {B : Type} (lvl : Level) (msg : string) (m : M B) (w : World) :
  exec (log lvl msg ;; m) w = (fst (exec m w), Log lvl msg :: snd (exec m w)).
Proof.
  unfold exec, mbind, M_bind, log, emit. now destruct (m w) as [[y w2] e2].
Qed.

Lemma keepalive_pingTick : sat keepaliveStep pingTick.
Proof. unfold pingTick, wsPing. sat_split keepalive_leaf. Qed.

Lemma keepalive_timer (cfg : Gate.Config) (id : nat) (w : World) :
  keepalive w -> keepalive (fst (exec (handle cfg (TimerFired id)) w)).
Proof.
  intros Hinv. cbn [handle]. rewrite exec_gets.
  destruct (timers w !! id) as [[]|] eqn:Hid.
  - rewrite exec_modify.
    apply (sat_exec keepaliveStep); [unfold_events; sat_split keepalive_leaf|].
    destruct w; unfold keepalive in *; cbn in *.
    destruct Hinv as (H1 & H2 & H3 & H4). repeat split; auto.
    intros Hc. rewrite lookup_delete_ne; [auto|]. intros ->. rewrite (H1 Hc) in Hid.
    discriminate.
  - apply (sat_exec keepaliveStep); [apply keepalive_pingTick | exact Hinv].
  - rewrite exec_modify.
    apply (sat_exec keepaliveStep); [unfold_events; sat_split keepalive_leaf|].
    destruct w; unfold keepalive in *; cbn in *.
    destruct Hinv as (H1 & H2 & H3 & H4). repeat split; auto.
    intros Hc. rewrite lookup_delete_ne; [auto|]. intros ->. rewrite (H1 Hc) in Hid.
    discriminate.
  - exact Hinv.
Qed.

Lemma keepalive_deliver (ev : Event) (w : World) : keepalive w -> keepalive (deliver ev w).
Proof.
  destruct ev, w; unfold keepalive, deliver, beginClosing, readyState, set_readyState; cbn;
    auto;
    match goal with |- context [match ?x with _ => _ end] => destruct x end; cbn; auto.
Qed.

Lemma keepalive_step (cfg : Gate.Config) (ev : Event) (w : World) :
  keepalive w -> keepalive (fst (step cfg ev w)).
Proof.
  intros Hinv. unfold step. destruct (enabled ev w); [|exact Hinv].
  apply (keepalive_deliver ev) in Hinv.
  destruct ev; try (apply (sat_exec keepaliveStep);
                    [apply keepalive_handle; intros ?; discriminate | exact Hinv]).
  now apply keepalive_timer.
Qed.

Lemma keepalive_run (cfg : Gate.Config) (evs : list Event) (w : World) :
  keepalive w -> keepalive (fst (run cfg evs w)).
Proof.
  revert w. induction evs as [|ev evs IH]; intros w Hinv; [exact Hinv|].
  rewrite run_cons. cbn [fst]. now apply IH, keepalive_step.
Qed.

Lemma keepalive_initial : keepalive initial.
Proof.
  rewrite initial_eq. unfold keepalive. cbn. repeat split; try discriminate; try lia.
Qed.

(** Only a pong brings [downstreamAlive] back. *)
Ltac unanswered_exec :=
  let w := fresh "w" in
  intros w; destruct w; unfold unanswered;
  unfold_monad; unfold beginClosing, readyState, set_readyState;
  case_reads; congruence.

Lemma unanswered_sendAll (leg : Leg) (messages : list Buffer) :
  sat unanswered (sendAll leg messages).
Proof. intros w. rewrite sendAll_run. now unfold unanswered. Qed.

Lemma unanswered_applyBackpressure f get set :
  (forall st w, downstreamAlive (set st w) = downstreamAlive w) ->
  sat unanswered (applyBackpressure f get set).
Proof.
  intros Hs w. unfold unanswered, applyBackpressure.
  destruct (f (get w)) as [st e]. cbn [fst snd]. now rewrite Hs.
Qed.

Ltac unanswered_leaf :=
  idtac;
  match goal with
  | |- sat _ (sendAll _ _) => apply unanswered_sendAll
  | |- sat _ (applyBackpressure _ _ _) =>
      apply unanswered_applyBackpressure; intros ? []; reflexivity
  | |- sat _ (modify _) => unanswered_exec
  | |- sat _ (emit _) => unanswered_exec
  | |- sat _ (clearTimer _) => unanswered_exec
  | |- sat _ (setTimer _) => unanswered_exec
  end.

Lemma unanswered_handle (cfg : Gate.Config) (ev : Event) :
  ev <> DownstreamPong -> sat unanswered (handle cfg ev).
Proof.
  intros Hev. destruct ev; try (now destruct Hev); unfold_all; sat_split unanswered_leaf.
Qed.

Lemma unanswered_step (cfg : Gate.Config) (ev : Event) (w : World) :
  ev <> DownstreamPong ->
  downstreamAlive w = false -> downstreamAlive (fst (step cfg ev w)) = false.
Proof.
  intros Hev Ha. unfold step. destruct (enabled ev w); [|exact Ha].
  apply (sat_exec unanswered); [now apply unanswered_handle|].
  rewrite <- Ha. apply (keeps_deliver downstreamAlive); intros ? []; reflexivity.
Qed.

Lemma unanswered_run (cfg : Gate.Config) (evs : list Event) (w : World) :
  Forall (fun ev => ev <> DownstreamPong) evs ->
  downstreamAlive w = false -> downstreamAlive (fst (run cfg evs w)) = false.
Proof.
  intros Hall. revert w. induction Hall as [|ev evs Hev _ IH]; intros w Ha; [exact Ha|].
  rewrite run_cons. cbn [fst]. now apply IH, unanswered_step.
Qed.

Lemma closed_run (cfg : Gate.Config) (evs : list Event) (w : World) :
  closed w = true -> closed (fst (run cfg evs w)) = true.
Proof.
  revert w. induction evs as [|ev evs IH]; intros w Hc; [exact Hc|].
  rewrite run_cons. cbn [fst]. now apply IH, closed_stays.
Qed.

Lemma run_app (cfg : Gate.Config) (a b : list Event) (w : World) :
  run cfg (a ++ b) w
  = (fst (run cfg b (fst (run cfg a w))),
     snd (run cfg a w) ++ snd (run cfg b (fst (run cfg a w)))).
Proof.
  revert w. induction a as [|ev a IH]; intros w.
  - cbn [app run fst snd]. now destruct (run cfg b w).
  - cbn [app]. rewrite !run_cons, IH. cbn [fst snd]. now rewrite app_assoc.
Qed.

(** One tick of the keepalive. *)
Lemma tick_alive (cfg : Gate.Config) (w : World) :
  timers w !! 1%nat = Some TPing -> downstreamAlive w = true ->
  step cfg (TimerFired 1) w
  = (set_downstreamAlive false w, [WsPing Downstream; Log LvlTrace "Sent ping to downstream"]).
Proof.
  intros Ht Ha. unfold step, enabled. rewrite Ht.
  rewrite bool_decide_eq_true_2 by eauto.
  cbn [deliver handle]. rewrite exec_gets, Ht.
  destruct w; cbn in Ha; subst. reflexivity.
Qed.

Lemma tick_silent (cfg : Gate.Config) (w : World) :
  timers w !! 1%nat = Some TPing -> downstreamAlive w = false -> closed w = false ->
  snd (step cfg (TimerFired 1) w)
  = Log LvlWarn "Downstream ping timeout, terminating connection"
    :: cleanupEffects 1000 "Ping timeout" w
  /\ closed (fst (step cfg (TimerFired 1) w)) = true.
Proof.
  intros Ht Ha Hc. unfold step, enabled. rewrite Ht.
  rewrite bool_decide_eq_true_2 by eauto.
  cbn [deliver handle]. rewrite exec_gets, Ht. unfold pingTick.
  rewrite exec_gets, Ha. cbn [negb]. rewrite exec_log. cbn [fst snd].
  destruct (cleanup_first 1000 "Ping timeout" w Hc) as [He Hcl].
  unfold exec. destruct (cleanup 1000 "Ping timeout" w) as [[[] w1] e1].
  cbn [fst snd] in *. now rewrite He.
Qed.

(** X14. A client that does not answer the keepalive is disconnected at
    the second tick: from the start of a connection, after any sequence of
    events, two ticks of the keepalive interval with no pong from downstream
    between them leave the connection closed, whatever else happens in
    between.  A tick on a connection that has answered sends one ping and
    closes nothing; a tick on one that has not answered runs the terminal
    cleanup with code 1000 and reason [Ping timeout]; a pong counts as the
    answer. *)
Theorem keepalive_closes_silent_client (cfg : Gate.Config) (before between : list Event) :
  Forall (fun ev => ev <> DownstreamPong) between ->
  closed (fst (run cfg (before ++ TimerFired 1 :: between ++ [TimerFired 1]) initial)) = true
  /\ (closed (fst (run cfg before initial)) = false ->
      downstreamAlive (fst (run cfg before initial)) = true ->
      step cfg (TimerFired 1) (fst (run cfg before initial))
      = (set_downstreamAlive false (fst (run cfg before initial)),
         [WsPing Downstream; Log LvlTrace "Sent ping to downstream"]))
  /\ (closed (fst (run cfg before initial)) = false ->
      downstreamAlive (fst (run cfg before initial)) = false ->
      snd (step cfg (TimerFired 1) (fst (run cfg before initial)))
      = Log LvlWarn "Downstream ping timeout, terminating connection"
        :: cleanupEffects 1000 "Ping timeout" (fst (run cfg before initial)))
  /\ (enabled DownstreamPong (fst (run cfg before initial)) = true ->
      downstreamAlive (fst (step cfg DownstreamPong (fst (run cfg before initial)))) = true).
Proof.
  intros Hall.
  pose proof (keepalive_run cfg before initial keepalive_initial) as K0.
  set (w0 := fst (run cfg before initial)) in *.
  split; [|split; [|split]].
  - rewrite run_app. cbn [fst]. fold w0. rewrite run_cons. cbn [fst].
    rewrite run_app. cbn [fst]. rewrite run_cons. cbn [fst run].
    set (w1 := fst (step cfg (TimerFired 1) w0)).
    assert (K1 : keepalive w1) by now apply keepalive_step.
    set (w2 := fst (run cfg between w1)).
    assert (K2 : keepalive w2) by now apply keepalive_run.
    destruct (closed w2) eqn:Hc2; [now apply closed_stays|].
    assert (Hc1 : closed w1 = false).
    { destruct (closed w1) eqn:Hc1; [|reflexivity].
      unfold w2 in Hc2. rewrite (closed_run cfg between w1 Hc1) in Hc2. discriminate. }
    assert (Hc0 : closed w0 = false).
    { destruct (closed w0) eqn:Hc0; [|reflexivity].
      unfold w1 in Hc1. rewrite (closed_stays cfg _ w0 Hc0) in Hc1. discriminate. }
    assert (Ha1 : downstreamAlive w1 = false).
    { destruct (downstreamAlive w0) eqn:Ha0.
      - unfold w1. rewrite (tick_alive cfg w0 (proj1 K0 Hc0) Ha0). now destruct w0.
      - destruct (tick_silent cfg w0 (proj1 K0 Hc0) Ha0 Hc0) as [_ H].
        unfold w1 in Hc1. congruence. }
    assert (Ha2 : downstreamAlive w2 = false) by now apply unanswered_run.
    now destruct (tick_silent cfg w2 (proj1 K2 Hc2) Ha2 Hc2).
  - intros Hc Ha. apply tick_alive; [now apply (proj1 K0) | exact Ha].
  - intros Hc Ha. now apply tick_silent; [apply (proj1 K0)| |].
  - intros He. unfold step. rewrite He. cbn [deliver handle].
    clear. destruct w0. unfold_handlers. unfold_monad. case_reads; reflexivity.
Qed.

Lemma keepalive_closes_silent_client_witness :
  closed (fst (run Gate.cfgTelegram
                 ([UpstreamOpen] ++ TimerFired 1
                    :: [DownstreamMessage [Byte.x01] true 0; DownstreamPing; UpstreamPong]
                    ++ [TimerFired 1])
                 initial)) = true.
Proof.
  refine (proj1 (keepalive_closes_silent_client Gate.cfgTelegram [UpstreamOpen]
                   [DownstreamMessage [Byte.x01] true 0; DownstreamPing; UpstreamPong] _)).
  repeat (apply List.Forall_cons; [discriminate|]). apply List.Forall_nil.
Defined.

(** ** A close or an error on one leg reaches the other *)

Lemma socketActions_app (leg : Leg) (e1 e2 : list Effect) :
  socketActions leg (e1 ++ e2) = socketActions leg e1 ++ socketActions leg e2.
Proof. apply List.filter_app. Qed.

#[local] Instance aside_composable : Composable aside.
Proof.
  split; unfold aside.
  - intros w. auto.
  - intros w1 w2 w3 e1 e2 (A1 & C1 & R1) (A2 & C2 & R2). repeat split.
    + intros leg. now rewrite socketActions_app, A1, A2.
    + congruence.
    + intros leg. now rewrite R2, R1.
Qed.

Ltac aside_exec :=
  let w := fresh "w" in
  intros w; destruct w; unfold aside;
  unfold_monad; unfold readyState;
  case_reads; repeat split; intros []; reflexivity.

Ltac aside_leaf :=
  idtac;
  match goal with
  | |- sat _ (modify _) => aside_exec
  | |- sat _ (emit _) => aside_exec
  | |- sat _ (clearTimer _) => aside_exec
  | |- sat _ (setTimer _) => aside_exec
  end.

Lemma aside_connectorOnClose : sat aside connectorOnClose.
Proof. unfold connectorOnClose, cancelIdleTimer, log. sat_split aside_leaf. Qed.

Lemma aside_connectorOnError : sat aside connectorOnError.
Proof. unfold connectorOnError, cancelIdleTimer, log. sat_split aside_leaf. Qed.

Lemma exec_seq {A B : Type} (m : M A) (k : M B) (w : World) :
  exec (m ;; k) w
  = (fst (exec k (fst (exec m w))), snd (exec m w) ++ snd (exec k (fst (exec m w)))).
Proof.
  unfold exec, mbind, M_bind. destruct (m w) as [[x w1] e1]. cbn [fst snd].
  now destruct (k w1) as [[y w2] e2].
Qed.

Lemma cleanup_exec (code : Z) (reason : string) (w : World) :
  closed w = false ->
  snd (exec (cleanup code reason) w) = cleanupEffects code reason w
  /\ closed (fst (exec (cleanup code reason) w)) = true.
Proof.
  intros Hc. destruct (cleanup_first code reason w Hc) as [He Hcl].
  unfold exec. now destruct (cleanup code reason w) as [[[] w1] e1].
Qed.

(** The listeners of a close or an error: the one of the connector, if the
    leg has one, then the one of server.ts, which logs and runs [cleanup]. *)
Lemma close_listeners (pre : M unit) (lvl : Level) (msg : string) (code : Z)
      (reason : string) (w : World) (leg : Leg) :
  sat aside pre -> closed w = false ->
  socketActions leg (snd (exec (pre ;; (log lvl msg ;; cleanup code reason)) w))
  = [shutdownOf leg (readyState leg w) code reason]
  /\ closed (fst (exec (pre ;; (log lvl msg ;; cleanup code reason)) w)) = true.
Proof.
  intros Hpre Hc. rewrite exec_seq. cbn [fst snd].
  destruct (sat_exec aside pre w Hpre) as (Ha & Hc1 & Hr).
  rewrite exec_log. cbn [fst snd].
  destruct (cleanup_exec code reason (fst (exec pre w))) as [-> ->]; [congruence|].
  split; [|reflexivity].
  rewrite socketActions_app, Ha. cbn [app].
  change (Log lvl msg :: ?l) with ([Log lvl msg] ++ l).
  rewrite socketActions_app, socketActions_cleanupEffects, Hr. reflexivity.
Qed.

Lemma close_listener (lvl : Level) (msg : string) (code : Z)
      (reason : string) (w : World) (leg : Leg) :
  closed w = false ->
  socketActions leg (snd (exec (log lvl msg ;; cleanup code reason) w))
  = [shutdownOf leg (readyState leg w) code reason]
  /\ closed (fst (exec (log lvl msg ;; cleanup code reason) w)) = true.
Proof.
  intros Hc. rewrite exec_log. cbn [fst snd].
  destruct (cleanup_exec code reason w Hc) as [-> ->]. split; [|reflexivity].
  change (Log lvl msg :: ?l) with ([Log lvl msg] ++ l).
  now rewrite socketActions_app, socketActions_cleanupEffects.
Qed.

Lemma readyState_beginClosing (leg other : Leg) (w : World) :
  readyState other (beginClosing leg w)
  = if Leg_eqb leg other
    then match readyState leg w with CLOSED => CLOSED | _ => CLOSING end
    else readyState other w.
Proof.
  unfold beginClosing. destruct leg, other, w; cbn;
    match goal with |- context [match ?x with _ => _ end] => destruct x end; reflexivity.
Qed.

(** X15. A close or an error on one leg is passed on to the other: when
    a socket closes on a connection that is not yet closed, the other
    socket, if open, is closed with the same code (1005 and 1006 replaced by
    1000) and the same reason, or with the reason [Upstream closed] or
    [Downstream closed] where none was given; an error closes it with 1011
    and [Upstream error] or [Downstream error].  A socket on the other leg
    that is not open is terminated, as is the socket of the event itself;
    the connection ends closed. *)
Theorem close_reaches_other_leg (cfg : Gate.Config) (w : World) :
  closed w = false ->
  (forall code reason,
      enabled (UpstreamClose code reason) w = true ->
      socketActions Downstream (snd (step cfg (UpstreamClose code reason) w))
      = [shutdownOf Downstream (downstreamReadyState w) code (reasonOr reason "Upstream closed")]
      /\ socketActions Upstream (snd (step cfg (UpstreamClose code reason) w))
         = [WsTerminate Upstream]
      /\ closed (fst (step cfg (UpstreamClose code reason) w)) = true)
  /\ (forall code reason,
        enabled (DownstreamClose code reason) w = true ->
        socketActions Upstream (snd (step cfg (DownstreamClose code reason) w))
        = [shutdownOf Upstream (upstreamReadyState w) code
             (reasonOr reason "Downstream closed")]
        /\ socketActions Downstream (snd (step cfg (DownstreamClose code reason) w))
           = [WsTerminate Downstream]
        /\ closed (fst (step cfg (DownstreamClose code reason) w)) = true)
  /\ (enabled UpstreamError w = true ->
      socketActions Downstream (snd (step cfg UpstreamError w))
      = [shutdownOf Downstream (downstreamReadyState w) 1011 "Upstream error"]
      /\ socketActions Upstream (snd (step cfg UpstreamError w)) = [WsTerminate Upstream]
      /\ closed (fst (step cfg UpstreamError w)) = true)
  /\ (enabled DownstreamError w = true ->
      socketActions Upstream (snd (step cfg DownstreamError w))
      = [shutdownOf Upstream (upstreamReadyState w) 1011 "Downstream error"]
      /\ socketActions Downstream (snd (step cfg DownstreamError w)) = [WsTerminate Downstream]
      /\ closed (fst (step cfg DownstreamError w)) = true).
Proof.
  intros Hc. split; [|split; [|split]].
  - intros code reason He. unfold step. rewrite He. cbn [deliver handle].
    unfold onUpstreamClose.
    assert (Hc' : closed (set_upstreamReadyState CLOSED w) = false) by now destruct w.
    destruct (close_listeners connectorOnClose LvlInfo "Upstream closed" code
                (reasonOr reason "Upstream closed") _ Downstream
                aside_connectorOnClose Hc') as [-> ->].
    destruct (close_listeners connectorOnClose LvlInfo "Upstream closed" code
                (reasonOr reason "Upstream closed") _ Upstream
                aside_connectorOnClose Hc') as [-> _].
    now destruct w.
  - intros code reason He. unfold step. rewrite He. cbn [deliver handle].
    unfold onDownstreamClose.
    assert (Hc' : closed (set_downstreamReadyState CLOSED w) = false) by now destruct w.
    destruct (close_listener LvlInfo "Downstream closed" code
                (reasonOr reason "Downstream closed") _ Upstream Hc') as [-> ->].
    destruct (close_listener LvlInfo "Downstream closed" code
                (reasonOr reason "Downstream closed") _ Downstream Hc') as [-> _].
    now destruct w.
  - intros He. unfold step. rewrite He. cbn [deliver handle]. unfold onUpstreamError.
    assert (Hc' : closed (beginClosing Upstream w) = false)
      by now rewrite closed_beginClosing.
    destruct (close_listeners connectorOnError LvlError "Upstream error" 1011
                "Upstream error" _ Downstream aside_connectorOnError Hc') as [-> ->].
    destruct (close_listeners connectorOnError LvlError "Upstream error" 1011
                "Upstream error" _ Upstream aside_connectorOnError Hc') as [-> _].
    rewrite !readyState_beginClosing. cbn [Leg_eqb readyState].
    now destruct (upstreamReadyState w).
  - intros He. unfold step. rewrite He. cbn [deliver handle]. unfold onDownstreamError.
    assert (Hc' : closed (beginClosing Downstream w) = false)
      by now rewrite closed_beginClosing.
    destruct (close_listener LvlError "Downstream error" 1011
                "Downstream error" _ Upstream Hc') as [-> ->].
    destruct (close_listener LvlError "Downstream error" 1011
                "Downstream error" _ Downstream Hc') as [-> _].
    rewrite !readyState_beginClosing. cbn [Leg_eqb readyState].
    now destruct (downstreamReadyState w).
Qed.

(** Upstream goes away without a close frame: downstream is closed with
    1000 and [Upstream closed]. *)
Lemma close_reaches_other_leg_witness :
  socketActions Downstream
    (snd (step Gate.cfgTelegram (UpstreamClose 1006 EmptyString)
            (fst (run Gate.cfgTelegram [UpstreamOpen] initial))))
  = [WsClose Downstream 1000 "Upstream closed"].
Proof.
  apply (proj1 (close_reaches_other_leg Gate.cfgTelegram
                  (fst (run Gate.cfgTelegram [UpstreamOpen] initial))
                  ltac:(vm_compute; reflexivity)) 1006 EmptyString).
  vm_compute. reflexivity.
Defined.

(** ** Flow control of the two directions *)

Lemma flowsOn_app (leg : Leg) (e1 e2 : list Effect) :
  flowsOn leg (e1 ++ e2) = flowsOn leg e1 ++ flowsOn leg e2.
Proof. apply omap_app. Qed.

#[local] Instance calm_composable (leg : Leg) : Composable (calm leg).
Proof.
  split; unfold calm; [auto|].
  intros w1 w2 w3 e1 e2 [F1 P1] [F2 P2]. rewrite flowsOn_app, F1, F2. split; [reflexivity | congruence].
Qed.

Ltac calm_exec :=
  let w := fresh "w" in
  intros w; destruct w; unfold calm, pausedBy;
  unfold_monad; unfold beginClosing, readyState, set_readyState;
  case_reads;
  repeat match goal with |- context [match ?l with Downstream => _ | Upstream => _ end] =>
           is_var l; destruct l end;
  split; reflexivity.

Lemma calm_sendAll (leg other : Leg) (messages : list Buffer) :
  sat (calm leg) (sendAll other messages).
Proof.
  intros w. rewrite sendAll_run. unfold calm. cbn [fst snd]. split; [|reflexivity].
  induction messages as [|m ms IH]; [reflexivity | exact IH].
Qed.

Ltac calm_leaf :=
  idtac;
  match goal with
  | |- sat _ (sendAll _ _) => apply calm_sendAll
  | |- sat _ (modify _) => calm_exec
  | |- sat _ (emit _) => calm_exec
  | |- sat _ (clearTimer _) => calm_exec
  | |- sat _ (setTimer _) => calm_exec
  end.

Lemma calm_handle (cfg : Gate.Config) (leg : Leg) (ev : Event) :
  regulates ev = false -> sat (calm leg) (handle cfg ev).
Proof.
  intros Hev. destruct ev; try discriminate; unfold_all; sat_split calm_leaf.
Qed.

Lemma calm_deliver (leg : Leg) (ev : Event) (w : World) :
  pausedBy leg (deliver ev w) = pausedBy leg w.
Proof.
  apply (keeps_deliver (pausedBy leg)); intros ? []; now destruct leg.
Qed.

Lemma flow_step (cfg : Gate.Config) (leg : Leg) (ev : Event) (w : World) :
  flowsOn leg (snd (step cfg ev w)) = flowBy cfg leg ev w
  /\ pausedBy leg (fst (step cfg ev w))
     = List.last (flowBy cfg leg ev w) (pausedBy leg w).
Proof.
  destruct (regulates ev) eqn:Hr.
  - destruct w, leg, ev; try discriminate;
      unfold step, enabled, receiving, deliver, handle, flowBy, pausedBy;
      unfold_handlers; unfold_monad; unfold checkBackpressure, handleDrain;
      case_more; split; reflexivity.
  - assert (E : flowBy cfg leg ev w = []) by (destruct leg, ev; try discriminate; reflexivity).
    rewrite E. cbn [List.last]. unfold step. destruct (enabled ev w); [|auto].
    destruct (sat_exec (calm leg) (handle cfg ev) (deliver ev w) (calm_handle cfg leg ev Hr))
      as [F P].
    split; [exact F|]. rewrite P. apply calm_deliver.
Qed.

Lemma flowBy_cases (cfg : Gate.Config) (leg : Leg) (ev : Event) (w : World) :
  flowBy cfg leg ev w = [] \/ flowBy cfg leg ev w = [negb (pausedBy leg w)].
Proof.
  destruct leg, ev as [? [] ?| | | | | | |? [] ?| | | | | | | ]; cbn [flowBy]; auto;
    destruct (pausedBy _ w); rewrite ?andb_false_r; cbn [negb andb]; auto;
    match goal with |- context [if ?c then _ else _] => destruct c end; auto.
Qed.

Lemma flow_run (cfg : Gate.Config) (leg : Leg) (evs : list Event) (w : World) :
  alternates (pausedBy leg w) (flowsOn leg (snd (run cfg evs w)))
  /\ pausedBy leg (fst (run cfg evs w))
     = List.last (flowsOn leg (snd (run cfg evs w))) (pausedBy leg w).
Proof.
  revert w. induction evs as [|ev evs IH]; intros w; [now split|].
  rewrite run_cons. cbn [fst snd]. rewrite flowsOn_app.
  destruct (flow_step cfg leg ev w) as [-> Hp].
  specialize (IH (fst (step cfg ev w))). rewrite Hp in IH.
  destruct (flowBy_cases cfg leg ev w) as [E|E]; rewrite E in *; cbn [List.last app] in *;
    [exact IH|].
  destruct IH as [IHa IHl]. split.
  - cbn [alternates]. now split.
  - rewrite IHl.
    destruct (flowsOn leg (snd (run cfg evs (fst (step cfg ev w))))) as [|b l]; [reflexivity|].
    change (List.last (negb (pausedBy leg w) :: b :: l) (pausedBy leg w))
      with (List.last (b :: l) (pausedBy leg w)).
    apply last_nonempty_default.
Qed.

(** X16. Flow control of the relay: a leg is told to pause only when a
    binary frame that came from it has just been sent to the open socket of
    the other leg, that socket buffers more than [maxBufferedBytes] and the
    leg is not paused already; it is told to resume only when the other
    socket drains below half of [maxBufferedBytes] while the leg is paused.
    No other event gives a pause or a resume, so that over every sequence of
    events the instructions to each leg alternate, starting from its flag,
    and the flag of a leg always tells whether it is paused; the two
    directions do not disturb each other. *)
Theorem relay_flow_control (cfg : Gate.Config) (leg : Leg) :
  (forall ev w,
      flowsOn leg (snd (step cfg ev w)) = flowBy cfg leg ev w
      /\ pausedBy leg (fst (step cfg ev w)) = List.last (flowBy cfg leg ev w) (pausedBy leg w))
  /\ (forall evs w,
        alternates (pausedBy leg w) (flowsOn leg (snd (run cfg evs w)))
        /\ pausedBy leg (fst (run cfg evs w))
           = List.last (flowsOn leg (snd (run cfg evs w))) (pausedBy leg w)).
Proof.
  split; [intros ev w; apply flow_step | intros evs w; apply flow_run].
Qed.

(** ** The idle timers *)

#[local] Instance armsNo_composable (kind : TimerKind) : Composable (armsNo kind).
Proof. split; unfold armsNo; auto. Qed.

Ltac armsNo_exec :=
  let w := fresh "w" in
  let j := fresh "j" in
  let Hj := fresh "Hj" in
  intros w j Hj; destruct w;
  unfold_monad; unfold beginClosing, readyState, set_readyState in *;
  revert Hj; case_reads; intros Hj;
  repeat first
    [ rewrite lookup_insert in Hj
    | rewrite lookup_delete in Hj ];
  repeat case_decide; simplify_eq; auto.

Lemma armsNo_sendAll (kind : TimerKind) (leg : Leg) (messages : list Buffer) :
  sat (armsNo kind) (sendAll leg messages).
Proof. intros w. rewrite sendAll_run. now unfold armsNo. Qed.

Lemma armsNo_applyBackpressure (kind : TimerKind) f get set :
  (forall st w, timers (set st w) = timers w) ->
  sat (armsNo kind) (applyBackpressure f get set).
Proof.
  intros Hs w. unfold armsNo, applyBackpressure.
  destruct (f (get w)) as [st e]. cbn [fst snd]. now rewrite Hs.
Qed.

Ltac armsNo_leaf :=
  idtac;
  match goal with
  | |- sat _ (sendAll _ _) => apply armsNo_sendAll
  | |- sat _ (applyBackpressure _ _ _) =>
      apply armsNo_applyBackpressure; intros ? []; reflexivity
  | |- sat _ (modify _) => armsNo_exec
  | |- sat _ (emit _) => armsNo_exec
  | |- sat _ (clearTimer _) => armsNo_exec
  | |- sat _ (setTimer _) => armsNo_exec
  end.

Lemma armsNo_handle (cfg : Gate.Config) (kind : TimerKind) (ev : Event) :
  activity kind ev = false -> sat (armsNo kind) (handle cfg ev).
Proof.
  intros Hev.
  destruct kind, ev as [? [] ?| | | | | | |? ? ?| | | | | | | ]; try discriminate;
    unfold_all; cbv [negb]; cbv iota; sat_split armsNo_leaf.
Qed.

Ltac rearmed_solve Hinv :=
  cbn; split; [reflexivity|];
  let j := fresh "j" in
  intros j; split;
  [ let Hj := fresh "Hj" in
    intros Hj;
    repeat first
      [ rewrite lookup_insert in Hj
      | rewrite lookup_delete in Hj ];
    repeat case_decide; simplify_eq; try reflexivity;
    apply Hinv in Hj; cbn in Hj; congruence
  | intros ->; apply lookup_insert_eq ].

Lemma rearmed_connectorOnOpen (w : World) :
  timersOwned w ->
  idleTimer (fst (exec connectorOnOpen w)) = Some (nextTimerId w)
  /\ (forall id,
        timers (fst (exec connectorOnOpen w)) !! id = Some TUpstreamIdle
        <-> id = nextTimerId w).
Proof.
  intros Hinv. destruct w. unfold timersOwned in Hinv. cbn in Hinv.
  unfold_handlers; unfold_monad. case_more; rearmed_solve Hinv.
Qed.

Lemma keeps_onUpstreamOpen {A : Type} (f : World -> A) :
  (forall q w, f (set_pendingMessages q w) = f w) ->
  sat (keeps f) onUpstreamOpen.
Proof.
  intros Hq. unfold onUpstreamOpen, log, skip. sat_split keeps_leaf.
  intros w. apply Hq.
Qed.

Lemma rearmed (cfg : Gate.Config) (kind : TimerKind) (ev : Event) (w : World) :
  timersOwned w -> activity kind ev = true ->
  handleOf kind (fst (exec (handle cfg ev) w)) = Some (nextTimerId w)
  /\ (forall id,
        timers (fst (exec (handle cfg ev) w)) !! id = Some kind <-> id = nextTimerId w).
Proof.
  intros Hinv Hev.
  assert (Hd : ev = UpstreamOpen \/ ev <> UpstreamOpen)
    by (destruct ev; (now left) || (right; discriminate)).
  destruct Hd as [->|Hne].
  - destruct kind; try discriminate. cbn [handle handleOf]. rewrite exec_seq. cbn [fst].
    assert (Hk : sat (keeps (fun w => (idleTimer w, timers w))) onUpstreamOpen)
      by (apply keeps_onUpstreamOpen; now intros q []).
    pose proof (sat_exec _ onUpstreamOpen (fst (exec connectorOnOpen w)) Hk) as [= -> ->].
    now apply rearmed_connectorOnOpen.
  - destruct w. unfold timersOwned in Hinv. cbn in Hinv.
    destruct kind, ev as [? [] ?| | | | | | |? [] ?| | | | | | | ]; try discriminate;
      try (now destruct Hne);
      unfold handle; unfold_handlers; unfold_monad; unfold checkBackpressure, handleOf;
      case_more; rearmed_solve Hinv.
Qed.

Lemma cleanupEffects_timers (code : Z) (reason : string) (t : gmap nat TimerKind) (w : World) :
  cleanupEffects code reason (set_timers t w) = cleanupEffects code reason w.
Proof. now destruct w. Qed.

(** X17. The idle timers follow the activity of their leg.  A binary
    frame, a ping or a pong from downstream replaces the downstream idle
    timer by a fresh one; the opening of upstream and every frame, ping or
    pong from it do the same for the idle timer of the connector; after such
    an event exactly one timer of the kind is armed, the new one.  No other
    event arms a timer of the kind.  When the downstream idle timer expires
    on a connection that is not closed, the terminal cleanup runs with code
    1000 and reason [Idle timeout]; when the one of the connector expires,
    the upstream socket is terminated and nothing else is done. *)
Theorem idle_timers_follow_activity (cfg : Gate.Config) (kind : TimerKind) (ev : Event)
        (w : World) :
  timersOwned w -> enabled ev w = true ->
  (activity kind ev = true ->
   handleOf kind (fst (step cfg ev w)) = Some (nextTimerId w)
   /\ (forall id, timers (fst (step cfg ev w)) !! id = Some kind <-> id = nextTimerId w))
  /\ (activity kind ev = false ->
      forall id, timers (fst (step cfg ev w)) !! id = Some kind -> timers w !! id = Some kind)
  /\ (forall id,
        ev = TimerFired id -> timers w !! id = Some TDownstreamIdle -> closed w = false ->
        snd (step cfg ev w)
        = Log LvlWarn "Downstream idle timeout reached, closing connection"
          :: cleanupEffects 1000 "Idle timeout" w
        /\ closed (fst (step cfg ev w)) = true)
  /\ (forall id,
        ev = TimerFired id -> timers w !! id = Some TUpstreamIdle ->
        step cfg ev w
        = (beginClosing Upstream (set_timers (delete id (timers w)) w),
           [Log LvlWarn "Upstream idle timeout reached, closing connection";
            WsTerminate Upstream])).
Proof.
  intros Hinv He. unfold step. rewrite He.
  assert (Ht : timers (deliver ev w) = timers w)
    by (apply (keeps_deliver timers); now intros ? []).
  assert (Hn : nextTimerId (deliver ev w) = nextTimerId w)
    by (apply (keeps_deliver nextTimerId); now intros ? []).
  split; [|split; [|split]].
  - intros Ha. rewrite <- Hn. apply rearmed; [now apply owned_deliver | exact Ha].
  - intros Ha id Hid. rewrite <- Ht.
    now apply (sat_exec (armsNo kind) (handle cfg ev) (deliver ev w) (armsNo_handle cfg kind ev Ha)).
  - intros id -> Hid Hc. cbn [deliver handle].
    rewrite exec_gets, Hid, exec_modify. cbn [timerCallback]. unfold downstreamIdleTimeout.
    rewrite exec_log. cbn [fst snd].
    destruct (cleanup_exec 1000 "Idle timeout" (set_timers (delete id (timers w)) w))
      as [-> ->]; [now destruct w|].
    now rewrite cleanupEffects_timers.
  - intros id -> Hid. cbn [deliver handle].
    rewrite exec_gets, Hid, exec_modify. reflexivity.
Qed.

Lemma idle_timers_follow_activity_witness :
  nextTimerId initial = 2%nat
  /\ handleOf TDownstreamIdle (fst (step Gate.cfgTelegram DownstreamPong initial))
     = Some (nextTimerId initial)
  /\ (forall id,
        timers (fst (step Gate.cfgTelegram DownstreamPong initial)) !! id = Some TDownstreamIdle
        <-> id = nextTimerId initial).
Proof.
  split; [reflexivity|].
  apply (idle_timers_follow_activity Gate.cfgTelegram TDownstreamIdle DownstreamPong initial
           owned_initial); reflexivity.
Defined.

(** ** The keepalive interval ends with the connection *)

#[local] Instance pingClearedStep_composable : Composable pingClearedStep.
Proof. split; unfold pingClearedStep; auto. Qed.

#[local] Instance pingless_composable : Composable pingless.
Proof.
  split; unfold pingless; [reflexivity|].
  intros w1 w2 w3 e1 e2 H1 H2. now rewrite forallb_app, H1, H2.
Qed.

Ltac pingCleared_exec :=
  let w := fresh "w" in
  intros w; destruct w; unfold pingClearedStep, pingCleared;
  unfold_monad; unfold beginClosing, readyState, set_readyState;
  case_reads; auto.

Lemma pingCleared_cleanup (code : Z) (reason : string) :
  sat pingClearedStep (cleanup code reason).
Proof.
  intros w Hinv. destruct (closed w) eqn:Hc.
  { now rewrite (cleanup_closed code reason w Hc). }
  intros _. clear Hinv. destruct w; cbn in Hc; subst.
  unfold cleanup; unfold_handlers; unfold_monad;
    unfold beginClosing, readyState, set_readyState.
  case_reads; reflexivity.
Qed.

Lemma pingCleared_sendAll (leg : Leg) (messages : list Buffer) :
  sat pingClearedStep (sendAll leg messages).
Proof. intros w. rewrite sendAll_run. now unfold pingClearedStep. Qed.

Lemma pingCleared_applyBackpressure f get set :
  (forall st w, closed (set st w) = closed w /\ pingTimer (set st w) = pingTimer w) ->
  sat pingClearedStep (applyBackpressure f get set).
Proof.
  intros Hs w. unfold pingClearedStep, pingCleared, applyBackpressure.
  destruct (f (get w)) as [st e]. cbn [fst snd]. destruct (Hs st w) as [-> ->]. auto.
Qed.

Ltac pingCleared_leaf :=
  idtac;
  match goal with
  | |- sat _ (cleanup _ _) => apply pingCleared_cleanup
  | |- sat _ (sendAll _ _) => apply pingCleared_sendAll
  | |- sat _ (applyBackpressure _ _ _) =>
      apply pingCleared_applyBackpressure; intros ? []; split; reflexivity
  | |- sat _ (modify _) => pingCleared_exec
  | |- sat _ (emit _) => pingCleared_exec
  | |- sat _ (clearTimer _) => pingCleared_exec
  | |- sat _ (setTimer _) => pingCleared_exec
  end.

Lemma pingCleared_handle (cfg : Gate.Config) (ev : Event) :
  sat pingClearedStep (handle cfg ev).
Proof. destruct ev; unfold_handlers; sat_split pingCleared_leaf. Qed.

Lemma pingCleared_step (cfg : Gate.Config) (ev : Event) (w : World) :
  pingCleared w -> pingCleared (fst (step cfg ev w)).
Proof.
  intros Hinv. unfold step. destruct (enabled ev w); [|exact Hinv].
  apply (sat_exec pingClearedStep); [apply pingCleared_handle|].
  unfold pingCleared.
  rewrite (keeps_deliver closed), (keeps_deliver pingTimer); try (now intros ? []).
  exact Hinv.
Qed.

Lemma pingCleared_run (cfg : Gate.Config) (evs : list Event) (w : World) :
  pingCleared w -> pingCleared (fst (run cfg evs w)).
Proof.
  revert w. induction evs as [|ev evs IH]; intros w Hinv; [exact Hinv|].
  rewrite run_cons. cbn [fst]. now apply IH, pingCleared_step.
Qed.

(** Only a tick of the keepalive pings. *)
Lemma pingless_sendAll (leg : Leg) (messages : list Buffer) :
  sat pingless (sendAll leg messages).
Proof.
  intros w. rewrite sendAll_run. unfold pingless. cbn [snd].
  induction messages as [|m ms IH]; [reflexivity | exact IH].
Qed.

Lemma pingless_applyBackpressure f get set :
  (forall st, forallb (fun e => negb (isPing e)) (snd (f st)) = true) ->
  sat pingless (applyBackpressure f get set).
Proof.
  intros Hf w. unfold pingless, applyBackpressure.
  specialize (Hf (get w)). now destruct (f (get w)) as [st e].
Qed.

Ltac pingless_leaf :=
  idtac;
  match goal with
  | |- sat _ (sendAll _ _) => apply pingless_sendAll
  | |- sat _ (applyBackpressure _ _ _) =>
      apply pingless_applyBackpressure; intros ?;
      unfold checkBackpressure, handleDrain;
      match goal with |- context [if ?c then _ else _] => destruct c end; reflexivity
  | |- sat _ (modify _) => intros ?; reflexivity
  | |- sat _ (emit _) => intros ?; reflexivity
  | |- sat _ (clearTimer _) => intros ?; reflexivity
  | |- sat _ (setTimer _) => intros ?; reflexivity
  end.

Lemma pingless_handle (cfg : Gate.Config) (ev : Event) :
  (forall id, ev <> TimerFired id) -> sat pingless (handle cfg ev).
Proof.
  intros Hev. destruct ev; try (now destruct (Hev id)); unfold_all; sat_split pingless_leaf.
Qed.

Lemma pingless_callback (kind : TimerKind) :
  kind <> TPing -> sat pingless (timerCallback kind).
Proof.
  intros Hk. destruct kind; try (now destruct Hk); unfold timerCallback; unfold_all;
    sat_split pingless_leaf.
Qed.

(** X18. The keepalive interval lives exactly as long as the connection.
    In every state that a connection reaches: while it is not closed the
    interval armed at the start (handle 1) is armed and is the only timer of
    its kind; once it is closed the handle is null, no keepalive timer is
    armed and no event makes the relay ping downstream again; and at any
    time at most one timer of each kind is armed. *)
Theorem keepalive_ends_with_connection (cfg : Gate.Config) (evs : list Event) :
  (closed (fst (run cfg evs initial)) = false ->
   pingTimer (fst (run cfg evs initial)) = Some 1%nat
   /\ (forall id, timers (fst (run cfg evs initial)) !! id = Some TPing <-> id = 1%nat))
  /\ (closed (fst (run cfg evs initial)) = true ->
      pingTimer (fst (run cfg evs initial)) = None
      /\ (forall id, timers (fst (run cfg evs initial)) !! id <> Some TPing)
      /\ (forall ev e,
            In e (snd (step cfg ev (fst (run cfg evs initial)))) -> isPing e = false))
  /\ (forall id1 id2 kind,
        timers (fst (run cfg evs initial)) !! id1 = Some kind ->
        timers (fst (run cfg evs initial)) !! id2 = Some kind -> id1 = id2).
Proof.
  pose proof (owned_run cfg evs initial owned_initial) as Ho.
  pose proof (keepalive_run cfg evs initial keepalive_initial) as (Hk & _).
  assert (Hp : pingCleared (fst (run cfg evs initial))).
  { apply pingCleared_run. rewrite initial_eq. intros H. discriminate. }
  set (w := fst (run cfg evs initial)) in *.
  assert (Hone : forall id1 id2 kind,
             timers w !! id1 = Some kind -> timers w !! id2 = Some kind -> id1 = id2).
  { intros id1 id2 kind H1 H2. apply Ho in H1, H2. congruence. }
  split; [|split; [|exact Hone]].
  - intros Hc. specialize (Hk Hc). split; [exact (Ho _ _ Hk)|].
    intros id. split; [intros H; exact (Hone _ _ _ H Hk) | now intros ->].
  - intros Hc. specialize (Hp Hc).
    assert (Hno : forall id, timers w !! id <> Some TPing).
    { intros id H. apply Ho in H. cbn [handleOf] in H. congruence. }
    split; [exact Hp|]. split; [exact Hno|].
    intros ev e Hin.
    assert (Hall : forallb (fun e => negb (isPing e)) (snd (step cfg ev w)) = true).
    { unfold step. destruct (enabled ev w) eqn:He; [|reflexivity].
      destruct ev; try (apply (sat_exec pingless), pingless_handle; intros ?; discriminate).
      cbn [deliver handle]. rewrite exec_gets.
      destruct (timers w !! id) as [kind|] eqn:Hid; [|reflexivity].
      destruct kind; try (now destruct (Hno id));
        rewrite exec_modify; apply (sat_exec pingless), pingless_callback; discriminate. }
    rewrite forallb_forall in Hall. apply Hall in Hin. now destruct (isPing e).
Qed.

End TrafficFacts.

End RelayFacts.

(* ===================================================================== *)
(** * The figures of the stats line *)
(* ===================================================================== *)

Section FormatFacts.
Import Format.

(** X20. The figures of the stats line: below 1024 bytes [formatBytes]
    prints the exact count; from 1024 up to 1048575 it prints kilobytes and
    from 1048576 on megabytes, with two decimals, as the hundredth nearest
    to the exact quotient (at most half a hundredth away, a tie going up)
    and never below 1.00.  The unit is chosen before the rounding, so the
    counts from 1048571 to 1048575 are printed as 1024.00KB. *)
Theorem formatBytes_rounds_to_hundredths (bytes : Z) :
  (bytes < 1024 -> formatBytes bytes = pretty bytes +:+ "B")
  /\ (1024 <= bytes < 1048576 ->
      formatBytes bytes
      = (pretty (hundredths bytes 1024 / 100) +:+ "."
         +:+ twoDigits (hundredths bytes 1024 mod 100)) +:+ "KB"
      /\ 100 <= hundredths bytes 1024 <= 102400
      /\ 1024 * hundredths bytes 1024 - 512 <= 100 * bytes
         < 1024 * hundredths bytes 1024 + 512
      /\ (hundredths bytes 1024 = 102400 <-> 1048571 <= bytes))
  /\ (1048576 <= bytes ->
      formatBytes bytes
      = (pretty (hundredths bytes 1048576 / 100) +:+ "."
         +:+ twoDigits (hundredths bytes 1048576 mod 100)) +:+ "MB"
      /\ 100 <= hundredths bytes 1048576
      /\ 1048576 * hundredths bytes 1048576 - 524288 <= 100 * bytes
         < 1048576 * hundredths bytes 1048576 + 524288).
Proof.
  unfold formatBytes, toFixed2. change (1024 * 1024) with 1048576.
  split; [|split].
  - intros H. apply Z.ltb_lt in H. now rewrite H.
  - intros [H1 H2].
    replace (bytes <? 1024) with false by lia.
    replace (bytes <? 1048576) with true by lia.
    split; [reflexivity|]. unfold hundredths. change (2 * 1024) with 2048.
    pose proof (Z.div_mod (200 * bytes + 1024) 2048 ltac:(lia)) as E.
    pose proof (Z.mod_pos_bound (200 * bytes + 1024) 2048 ltac:(lia)) as B.
    set (n := (200 * bytes + 1024) / 2048) in *.
    repeat split; lia.
  - intros H.
    replace (bytes <? 1024) with false by lia.
    replace (bytes <? 1048576) with false by lia.
    split; [reflexivity|]. unfold hundredths. change (2 * 1048576) with 2097152.
    pose proof (Z.div_mod (200 * bytes + 1048576) 2097152 ltac:(lia)) as E.
    pose proof (Z.mod_pos_bound (200 * bytes + 1048576) 2097152 ltac:(lia)) as B.
    set (n := (200 * bytes + 1048576) / 2097152) in *.
    repeat split; lia.
Qed.

Lemma formatBytes_rounds_to_hundredths_witness :
  formatBytes 1023 = "1023B"
  /\ formatBytes 1536 = "1.50KB"
  /\ formatBytes 1048575 = "1024.00KB"
  /\ formatBytes 1048576 = "1.00MB".
Proof.
  destruct (formatBytes_rounds_to_hundredths 1023) as (H1 & _).
  destruct (formatBytes_rounds_to_hundredths 1536) as (_ & H2 & _).
  destruct (formatBytes_rounds_to_hundredths 1048575) as (_ & H3 & _).
  destruct (formatBytes_rounds_to_hundredths 1048576) as (_ & _ & H4).
  split; [exact (H1 ltac:(lia))|].
  split; [exact (proj1 (H2 ltac:(lia)))|].
  split; [exact (proj1 (H3 ltac:(lia))) | exact (proj1 (H4 ltac:(lia)))].
Defined.

End FormatFacts.

(* ===================================================================== *)
(** * More on the admission sequence *)
(* ===================================================================== *)

Section AdmissionFacts.

Import Gate.

Variable decodeURIComponent : string -> option string.
Variable URL_new : string -> option ParsedURL.

Lemma truthy_Some (x : option string) (v : string) :
  truthy x = Some v <-> x = Some v /\ v <> "".
Proof.
  unfold truthy. destruct x as [s|]; [|split; [discriminate | intros [? _]; discriminate]].
  destruct (String.eqb_spec s ""); split.
  - discriminate.
  - intros [[= ->] H]. contradiction.
  - intros [= ->]. auto.
  - intros [[= ->] _]. reflexivity.
Qed.

Lemma existsb_eqb_In (s : string) (l : list string) :
  existsb (String.eqb s) l = true <-> In s l.
Proof.
  rewrite existsb_exists. split.
  - intros (x & Hx & E). apply String.eqb_eq in E. now subst.
  - intros H. exists s. split; [exact H | apply String.eqb_refl].
Qed.

Lemma validateOrigin_iff (cfg : Config) (o : option string) :
  validateOrigin cfg o = true <->
  allowedOrigins cfg = [] \/ exists s, o = Some s /\ s <> "" /\ In s (allowedOrigins cfg).
Proof.
  unfold validateOrigin. destruct (allowedOrigins cfg) as [|a l] eqn:E.
  - cbn. tauto.
  - change (length (a :: l) =? 0)%nat with false. cbv iota.
    destruct (truthy o) as [s|] eqn:Ho.
    + apply truthy_Some in Ho as [-> Hs]. rewrite existsb_eqb_In. split.
      * intros H. right. exists s. auto.
      * intros [H | (s' & [= <-] & _ & H)]; [discriminate | exact H].
    + split; [discriminate|]. intros [H | (s & -> & Hs & _)]; [discriminate|].
      assert (truthy (Some s) = Some s) as H by (apply truthy_Some; auto).
      congruence.
Qed.

Lemma validateToken_iff (cfg : Config) (provided : option string) :
  validateToken cfg provided = true <->
  token cfg = None \/ token cfg = Some "" \/ (provided = token cfg /\ provided <> None).
Proof.
  unfold validateToken. destruct (truthy (token cfg)) as [t|] eqn:Ht.
  - apply truthy_Some in Ht as [Ht Hne]. rewrite Ht. destruct provided as [p|].
    + rewrite String.eqb_eq. split.
      * intros ->. right. right. split; [reflexivity | discriminate].
      * intros [H | [[= H] | [[= ->] _]]]; [discriminate | congruence | reflexivity].
    + split; [discriminate|]. intros [H | [[= H] | [_ H]]]; congruence.
  - split; [|reflexivity]. intros _. unfold truthy in Ht.
    destruct (token cfg) as [t|]; [|auto].
    destruct (String.eqb_spec t ""); [subst; auto | discriminate].
Qed.

Lemma admission_only_if (cfg : Config) (req : Request) (target : string) :
  admission decodeURIComponent URL_new cfg req = Admit target ->
  exists params p parsed,
    query req = Some params
    /\ params_get "upstream" params = Some p /\ p <> ""
    /\ decodeURIComponent p = Some target
    /\ URL_new target = Some parsed
    /\ (protocol parsed = "wss:" \/ protocol parsed = "ws:")
    /\ (exists pattern, In pattern (allowedUpstreamHostPatterns cfg)
                        /\ HostPattern.test pattern (hostname parsed) = true)
    /\ (allowedOrigins cfg = []
        \/ exists o, origin req = Some o /\ o <> "" /\ In o (allowedOrigins cfg))
    /\ (token cfg = None \/ token cfg = Some ""
        \/ exists t, token cfg = Some t /\ t <> "" /\ params_get "token" params = Some t).
Proof.
  unfold admission.
  destruct (query req) as [params|]; [|discriminate].
  destruct (truthy (params_get "upstream" params)) as [p|] eqn:Hp; [|discriminate].
  apply truthy_Some in Hp as [Hp Hpne].
  destruct (decodeURIComponent p) as [u|] eqn:Hd; [|discriminate].
  destruct (URL_new u) as [parsed|] eqn:Hn; [|discriminate].
  destruct (String.eqb_spec (protocol parsed) "wss:") as [Hs|Hs];
    destruct (String.eqb_spec (protocol parsed) "ws:") as [Hs'|Hs'];
    cbn [negb andb]; try discriminate;
    (destruct (allowedUpstreamHostPatterns cfg) as [|re res] eqn:Hpat; [discriminate|]);
    change (0 <? length (re :: res))%nat with true; cbv iota;
    (destruct (existsb _ (re :: res)) eqn:Hex; cbn [negb]; [|discriminate]);
    (destruct (validateOrigin cfg (origin req)) eqn:Ho; cbn [negb]; [|discriminate]);
    (destruct (validateToken cfg _) eqn:Ht; cbn [negb]; [|discriminate]);
    intros [= <-];
    exists params, p, parsed;
    apply existsb_exists in Hex; apply validateOrigin_iff in Ho;
    apply validateToken_iff in Ht;
    (repeat split; auto;
     destruct Ht as [Ht | [Ht | [Ht Hne]]]; auto;
     right; right;
     destruct (token cfg) as [t|] eqn:Etok; [|contradiction];
     apply truthy_Some in Ht as [Ht Htne]; eauto).
Qed.

Lemma admission_if (cfg : Config) (req : Request) (target : string) :
  (exists params p parsed,
    query req = Some params
    /\ params_get "upstream" params = Some p /\ p <> ""
    /\ decodeURIComponent p = Some target
    /\ URL_new target = Some parsed
    /\ (protocol parsed = "wss:" \/ protocol parsed = "ws:")
    /\ (exists pattern, In pattern (allowedUpstreamHostPatterns cfg)
                        /\ HostPattern.test pattern (hostname parsed) = true)
    /\ (allowedOrigins cfg = []
        \/ exists o, origin req = Some o /\ o <> "" /\ In o (allowedOrigins cfg))
    /\ (token cfg = None \/ token cfg = Some ""
        \/ exists t, token cfg = Some t /\ t <> "" /\ params_get "token" params = Some t)) ->
  admission decodeURIComponent URL_new cfg req = Admit target.
Proof.
  unfold admission.
  intros (params & p & parsed & Hq & Hp & Hpne & Hd & Hn & Hs & (re & Hin & Hre) & Ho & Ht).
  rewrite Hq. rewrite (proj2 (truthy_Some _ _) (conj Hp Hpne)), Hd, Hn.
  assert (Hsch : negb (protocol parsed =? "wss:")%string
                 && negb (protocol parsed =? "ws:")%string = false).
  { destruct Hs as [-> | ->]; reflexivity. }
  rewrite Hsch.
  destruct (allowedUpstreamHostPatterns cfg) as [|re0 res] eqn:Hpat; [destruct Hin|].
  change (0 <? length (re0 :: res))%nat with true. cbv iota.
  assert (Hex : existsb (fun pattern => HostPattern.test pattern (hostname parsed))
                  (re0 :: res) = true).
  { apply existsb_exists. eauto. }
  rewrite Hex. cbn [negb].
  rewrite (proj2 (validateOrigin_iff cfg (origin req)) Ho). cbn [negb].
  assert (Hv : validateToken cfg (truthy (params_get "token" params)) = true).
  { apply validateToken_iff. destruct Ht as [Ht | [Ht | (t & Ht & Hne & Hg)]]; auto.
    right. right. rewrite Ht, (proj2 (truthy_Some _ _) (conj Hg Hne)).
    split; [reflexivity | discriminate]. }
  rewrite Hv. reflexivity.
Qed.

(** X1. A request is admitted exactly when every check passes: its
    [upstream] parameter is present and not empty, decodes, and reads as a
    URL of scheme [ws] or [wss] whose host name matches one of the
    configured patterns; its [Origin] is on the allowlist, or the allowlist
    is empty; and its [token] parameter equals the configured token, or no
    token is configured. The admitted target is the decoded parameter. *)
Theorem admission_admits_iff (cfg : Config) (req : Request) (target : string) :
  admission decodeURIComponent URL_new cfg req = Admit target
  <->
  exists params p parsed,
    query req = Some params
    /\ params_get "upstream" params = Some p /\ p <> ""
    /\ decodeURIComponent p = Some target
    /\ URL_new target = Some parsed
    /\ (protocol parsed = "wss:" \/ protocol parsed = "ws:")
    /\ (exists pattern, In pattern (allowedUpstreamHostPatterns cfg)
                        /\ HostPattern.test pattern (hostname parsed) = true)
    /\ (allowedOrigins cfg = []
        \/ exists o, origin req = Some o /\ o <> "" /\ In o (allowedOrigins cfg))
    /\ (token cfg = None \/ token cfg = Some ""
        \/ exists t, token cfg = Some t /\ t <> "" /\ params_get "token" params = Some t).
Proof.
  split; [apply admission_only_if | apply admission_if].
Qed.


End AdmissionFacts.

(* ===================================================================== *)
(** * Properties of the configuration *)
(* ===================================================================== *)

Section ConfigFacts.

Import HostPattern Config.

(** ** White space and commas *)

Lemma trimStart_blank (s : string) : trimStart s = "" <-> isBlank s = true.
Proof.
  induction s as [|c s IH]; [easy|]. cbn [trimStart isBlank allChars].
  destruct (isWhiteSpace c); cbn [andb]; [exact IH | easy].
Qed.





Lemma trimStart_head (c : ascii) (s : string) :
  isWhiteSpace c = false -> trimStart (String c s) = String c s.
Proof. intros H. cbn [trimStart]. now rewrite H. Qed.














Lemma nonEmpty_true (s : string) : nonEmpty s = true <-> s <> "".
Proof.
  unfold nonEmpty. destruct (String.eqb_spec s ""); cbn; split; congruence.
Qed.


(** ** [parseOrigins] *)





(** ** [parseHostPatterns] on a CSV value *)







(** ** [parseInt] and [parseNumber] *)

Lemma digitValue_pretty_N_char (d : N) :
  (d < 10)%N -> digitValue (pretty_N_char d) = Some (Z.of_N d).
Proof.
  intros H.
  assert (d = 0 \/ d = 1 \/ d = 2 \/ d = 3 \/ d = 4 \/ d = 5 \/ d = 6 \/ d = 7
          \/ d = 8 \/ d = 9)%N as Hd by lia.
  repeat (destruct Hd as [-> | Hd]; [reflexivity|]). now subst.
Qed.

Lemma pretty_N_go_digits (x : N) :
  exists m, forall s acc,
    digitsPrefix acc (pretty_N_go x s) = digitsPrefix (acc * m + Z.of_N x) s.
Proof.
  induction (N.lt_wf_0 x) as [x _ IH].
  destruct (N.eq_dec x 0%N) as [->|Hx].
  - exists 1. intros s acc. rewrite pretty_N_go_0. f_equal. lia.
  - destruct (IH (x `div` 10)%N) as [m Hm]; [apply N.div_lt; lia|].
    exists (10 * m). intros s acc.
    rewrite pretty_N_go_step by lia. rewrite Hm. cbn [digitsPrefix].
    rewrite digitValue_pretty_N_char by (apply N.mod_lt; lia).
    f_equal. pose proof (N.div_mod x 10 ltac:(lia)) as E. lia.
Qed.

Lemma pretty_N_go_append (x : N) (s t : string) :
  pretty_N_go x s +:+ t = pretty_N_go x (s +:+ t).
Proof.
  revert s. induction (N.lt_wf_0 x) as [x _ IH]. intros s.
  destruct (N.eq_dec x 0%N) as [->|Hx].
  - now rewrite !pretty_N_go_0.
  - rewrite (pretty_N_go_step x s), (pretty_N_go_step x (s +:+ t)) by lia.
    rewrite IH by (apply N.div_lt; lia). reflexivity.
Qed.

Lemma pretty_N_go_startsWithDigit (x : N) (s : string) :
  (0 < x)%N -> startsWithDigit (pretty_N_go x s) = true.
Proof.
  revert s. induction (N.lt_wf_0 x) as [x _ IH]. intros s Hx.
  rewrite pretty_N_go_step by lia.
  destruct (N.eq_dec (x `div` 10)%N 0%N) as [E|E].
  - rewrite E, pretty_N_go_0. cbn [startsWithDigit].
    now rewrite digitValue_pretty_N_char by (apply N.mod_lt; lia).
  - apply IH; [apply N.div_lt; lia | now apply N.neq_0_lt_0].
Qed.

Lemma digit_is_plain (c : ascii) (d : Z) :
  digitValue c = Some d ->
  isWhiteSpace c = false /\ Ascii.eqb c "-" = false /\ Ascii.eqb c "+" = false.
Proof.
  destruct c as [[] [] [] [] [] [] [] []]; vm_compute; intros H;
    try discriminate; repeat split.
Qed.

Lemma parseInt10_digits (s : string) :
  startsWithDigit s = true -> parseInt10 s = Some (digitsPrefix 0 s).
Proof.
  intros H. destruct s as [|c r]; [discriminate|]. cbn [startsWithDigit] in H.
  destruct (digitValue c) as [d|] eqn:Hd; [|discriminate].
  destruct (digit_is_plain c d Hd) as (Hw & Hm & Hp).
  unfold parseInt10. rewrite (trimStart_head c r Hw), Hm, Hp.
  cbn [startsWithDigit]. rewrite Hd. f_equal. lia.
Qed.

Lemma parseInt10_minus (s : string) :
  startsWithDigit s = true -> parseInt10 (String "-" s) = Some (- digitsPrefix 0 s).
Proof.
  intros H. unfold parseInt10. cbn [trimStart]. change (isWhiteSpace "-") with false.
  cbv iota. change (Ascii.eqb "-" "-") with true. cbv iota. rewrite H.
  f_equal; lia.
Qed.

Lemma parseInt10_blank_prefix (ws s : string) :
  isBlank ws = true -> parseInt10 (ws +:+ s) = parseInt10 s.
Proof.
  intros H. unfold parseInt10.
  assert (E : trimStart (ws +:+ s) = trimStart s); [|now rewrite E].
  induction ws as [|c ws IH]; [reflexivity|]. unfold isBlank in *.
  cbn [allChars] in H. apply andb_true_iff in H as [Hc Hws].
  rewrite append_String. cbn [trimStart]. rewrite Hc. now apply IH.
Qed.

Lemma digitsPrefix_stop (acc : Z) (s : string) :
  startsWithDigit s = false -> digitsPrefix acc s = acc.
Proof.
  destruct s as [|c r]; [reflexivity|]. cbn [startsWithDigit digitsPrefix].
  now destruct (digitValue c).
Qed.

Lemma parseInt10_pretty (z : Z) (ws rest : string) :
  isBlank ws = true -> startsWithDigit rest = false ->
  parseInt10 (ws +:+ pretty z +:+ rest) = Some z.
Proof.
  intros Hws Hrest. rewrite (parseInt10_blank_prefix _ _ Hws).
  assert (Hpos : forall p : positive,
             startsWithDigit (pretty (N.pos p) +:+ rest) = true
             /\ digitsPrefix 0 (pretty (N.pos p) +:+ rest) = Z.pos p).
  { intros p. unfold pretty, pretty_N.
    destruct (decide (N.pos p = 0%N)) as [E|_]; [discriminate|].
    rewrite pretty_N_go_append, append_Empty. split.
    - now apply pretty_N_go_startsWithDigit.
    - destruct (pretty_N_go_digits (N.pos p)) as [m Hm]. rewrite Hm.
      rewrite (digitsPrefix_stop _ _ Hrest). reflexivity. }
  destruct z as [|p|p].
  - change (pretty 0) with "0". rewrite append_String, append_Empty.
    rewrite parseInt10_digits by reflexivity. cbn [digitsPrefix].
    change (digitValue "0") with (Some 0). cbv iota.
    now rewrite (digitsPrefix_stop _ _ Hrest).
  - change (pretty (Z.pos p)) with (pretty (N.pos p)).
    destruct (Hpos p) as [H1 H2]. rewrite (parseInt10_digits _ H1). now rewrite H2.
  - change (pretty (Z.neg p) +:+ rest) with (String "-" (pretty (N.pos p)) +:+ rest).
    rewrite append_String.
    destruct (Hpos p) as [H1 H2]. rewrite (parseInt10_minus _ H1). now rewrite H2.
Qed.

(** X6. [parseNumber] returns the default for an absent or empty value;
    it reads a decimal number that may follow white space and ignores
    whatever comes after its digits, so that a value such as [8080abc] is
    accepted as 8080; and it throws on a value that is not empty but blank. *)
Theorem parseNumber_reads_decimal (defaultValue : Z) :
  parseNumber None defaultValue = inr defaultValue
  /\ parseNumber (Some "") defaultValue = inr defaultValue
  /\ (forall (z : Z) (ws rest : string),
        Z.abs z < maxSafe ->
        isBlank ws = true -> startsWithDigit rest = false ->
        parseNumber (Some (ws +:+ pretty z +:+ rest)) defaultValue = inr z)
  /\ (forall v,
        v <> "" -> isBlank v = true ->
        parseNumber (Some v) defaultValue = inl ("Invalid number value: " +:+ v)).
Proof.
  split; [reflexivity|]. split; [reflexivity|]. split.
  - intros z ws rest _ Hws Hrest. unfold parseNumber.
    assert (Hne : ws +:+ pretty z +:+ rest <> "").
    { intros E. pose proof (parseInt10_pretty z ws rest Hws Hrest) as H.
      rewrite E in H. discriminate. }
    assert (Ht : Gate.truthy (Some (ws +:+ pretty z +:+ rest))
                 = Some (ws +:+ pretty z +:+ rest)).
    { unfold Gate.truthy. destruct (String.eqb_spec (ws +:+ pretty z +:+ rest) "");
        [contradiction | reflexivity]. }
    rewrite Ht. now rewrite parseInt10_pretty.
  - intros v Hne Hb. unfold parseNumber, Gate.truthy.
    destruct (String.eqb_spec v ""); [contradiction|].
    unfold parseInt10. now rewrite (proj2 (trimStart_blank v) Hb).
Qed.

Lemma parseNumber_reads_decimal_witness :
  parseNumber (Some (" " +:+ pretty 8080 +:+ "abc")) 1 = inr 8080
  /\ parseNumber (Some (" " +:+ pretty (-1) +:+ ".5")) 8080 = inr (-1)
  /\ parseNumber (Some "  ") 8080 = inl "Invalid number value:   ".
Proof.
  split; [|split].
  - apply (proj1 (proj2 (proj2 (parseNumber_reads_decimal 1))));
      [vm_compute; reflexivity | reflexivity | reflexivity].
  - apply (proj1 (proj2 (proj2 (parseNumber_reads_decimal 8080))));
      [vm_compute; reflexivity | reflexivity | reflexivity].
  - apply (proj2 (proj2 (proj2 (parseNumber_reads_decimal 8080))));
      [discriminate | reflexivity].
Defined.

(** ** [parseLogLevel] and the configuration object *)

Lemma andThen_inr {A B : Type} (r : string + A) (k : A -> string + B) (b : B) :
  andThen r k = inr b <-> exists a, r = inr a /\ k a = inr b.
Proof.
  unfold andThen. destruct r as [e|a]; split.
  - discriminate.
  - intros (a & [=] & _).
  - eauto.
  - now intros (a' & [= <-] & H).
Qed.

Lemma check_inr (failed : bool) (message : string) (u : unit) :
  check failed message = inr u <-> failed = false.
Proof.
  unfold check. destruct failed, u; split; (discriminate || reflexivity).
Qed.

Lemma parseLogLevel_cases (level : option string) :
  parseLogLevel level = "trace" \/ parseLogLevel level = "debug"
  \/ parseLogLevel level = "info" \/ parseLogLevel level = "warn"
  \/ parseLogLevel level = "error".
Proof.
  destruct level as [l|]; [|auto]. unfold parseLogLevel. cbv zeta.
  destruct (existsb _ validLevels) eqn:E; [|auto].
  apply existsb_exists in E as (v & Hin & Hv). apply String.eqb_eq in Hv. subst v.
  cbn in Hin. intuition auto.
Qed.

Lemma loadConfig_inr (env : gmap string string) (s : Settings) :
  loadConfig env = inr s <->
  parseNumber (env !! "PORT") 8080 = inr (port s)
  /\ parseNumber (env !! "CLIENT_IDLE_TIMEOUT_MS") 120000 = inr (clientIdleTimeoutMs s)
  /\ parseNumber (env !! "UPSTREAM_IDLE_TIMEOUT_MS") 120000 = inr (upstreamIdleTimeoutMs s)
  /\ parseNumber (env !! "PING_INTERVAL_MS") 25000 = inr (pingIntervalMs s)
  /\ parseNumber (env !! "MAX_BUFFERED_BYTES") 5000000 = inr (maxBufferedBytes s)
  /\ parseHostPatterns (env !! "ALLOWED_UPSTREAM_HOSTS") = inr (allowedUpstreamHostPatterns s)
  /\ allowedOrigins s = parseOrigins (env !! "ALLOWED_ORIGINS")
  /\ token s = Gate.truthy (env !! "TOKEN")
  /\ logLevel s = parseLogLevel (env !! "LOG_LEVEL")
  /\ logPretty s = bool_decide (env !! "LOG_PRETTY" = Some "true")
  /\ 1 <= port s <= 65535
  /\ 1000 <= clientIdleTimeoutMs s
  /\ 1000 <= upstreamIdleTimeoutMs s
  /\ 1000 <= pingIntervalMs s
  /\ 1024 <= maxBufferedBytes s.
Proof.
  assert (Hpretty : forall o : option string,
            match o with Some v => String.eqb v "true" | None => false end
            = bool_decide (o = Some "true")).
  { intros [v|]; [|reflexivity]. destruct (String.eqb_spec v "true") as [->|Hn].
    - reflexivity.
    - symmetry. apply bool_decide_eq_false. congruence. }
  unfold loadConfig. cbv zeta. rewrite Hpretty. split.
  - intros H.
    repeat (apply andThen_inr in H as (? & ? & H)).
    repeat match goal with
           | Hc : check _ _ = inr _ |- _ => apply check_inr in Hc
           end.
    injection H as <-. cbn.
    repeat split; auto; lia.
  - destruct s as [p ao tk ll lp ci ui pi mb pats]. cbn.
    intros (-> & -> & -> & -> & -> & -> & -> & -> & -> & -> & Hp & Hc & Hu & Hi & Hm).
    cbn [andThen].
    replace ((p <? 1) || (65535 <? p)) with false by lia.
    replace (ci <? 1000) with false by lia.
    replace (ui <? 1000) with false by lia.
    replace (pi <? 1000) with false by lia.
    replace (mb <? 1024) with false by lia.
    reflexivity.
Qed.


Lemma parseOrigins_nonEmpty (csv : option string) (o : string) :
  In o (parseOrigins csv) -> o <> "".
Proof.
  unfold parseOrigins. destruct csv as [s|]; [|intros []].
  destruct (String.eqb s "" || String.eqb (trim s) ""); [intros []|].
  rewrite filter_In, nonEmpty_true. tauto.
Qed.

Lemma parseNumber_default (value : option string) (defaultValue n : Z) :
  Gate.truthy value = None -> parseNumber value defaultValue = inr n -> n = defaultValue.
Proof. unfold parseNumber. intros ->. now intros [= <-]. Qed.

(** X7. A configuration that loads respects its bounds: the port lies
    between 1 and 65535, the three intervals are at least one second, the
    buffer threshold is at least 1024 bytes, the log level is one of the
    five known levels, the token is never the empty string, and no allowed
    origin is empty.  A number whose variable is unset or empty takes its
    default: 8080, 120000, 120000, 25000 and 5000000. *)
Theorem loadConfig_respects_bounds (env : gmap string string) (s : Settings) :
  loadConfig env = inr s ->
  1 <= port s <= 65535
  /\ 1000 <= clientIdleTimeoutMs s
  /\ 1000 <= upstreamIdleTimeoutMs s
  /\ 1000 <= pingIntervalMs s
  /\ 1024 <= maxBufferedBytes s
  /\ In (logLevel s) validLevels
  /\ token s <> Some ""
  /\ Forall (fun o => o <> "") (allowedOrigins s)
  /\ (Gate.truthy (env !! "PORT") = None -> port s = 8080)
  /\ (Gate.truthy (env !! "CLIENT_IDLE_TIMEOUT_MS") = None -> clientIdleTimeoutMs s = 120000)
  /\ (Gate.truthy (env !! "UPSTREAM_IDLE_TIMEOUT_MS") = None
      -> upstreamIdleTimeoutMs s = 120000)
  /\ (Gate.truthy (env !! "PING_INTERVAL_MS") = None -> pingIntervalMs s = 25000)
  /\ (Gate.truthy (env !! "MAX_BUFFERED_BYTES") = None -> maxBufferedBytes s = 5000000).
Proof.
  intros H. apply loadConfig_inr in H
    as (Hp & Hc & Hu & Hi & Hm & _ & Ho & Ht & Hl & _ & Bp & Bc & Bu & Bi & Bm).
  repeat (split; [assumption|]).
  split.
  { rewrite Hl. cbn [validLevels In].
    destruct (parseLogLevel_cases (env !! "LOG_LEVEL")) as [E|[E|[E|[E|E]]]];
      rewrite E; tauto. }
  split.
  { rewrite Ht. intros E. apply truthy_Some in E as [_ E]. now apply E. }
  split.
  { rewrite Ho. apply List.Forall_forall. intros o. apply parseOrigins_nonEmpty. }
  repeat split; intros E; eapply parseNumber_default; eassumption.
Qed.

Lemma loadConfig_respects_bounds_witness :
  loadConfig exampleEnv = inr exampleSettings
  /\ 1 <= port exampleSettings <= 65535
  /\ 1024 <= maxBufferedBytes exampleSettings
  /\ In (logLevel exampleSettings) validLevels
  /\ port (mkSettings 8080 [] None "debug" false 120000 120000 25000 5000000 []) = 8080.
Proof.
  assert (E : loadConfig exampleEnv = inr exampleSettings) by (vm_compute; reflexivity).
  pose proof (loadConfig_respects_bounds exampleEnv exampleSettings E) as H.
  assert (E0 : loadConfig ∅
               = inr (mkSettings 8080 [] None "debug" false 120000 120000 25000 5000000 []))
    by (vm_compute; reflexivity).
  pose proof (loadConfig_respects_bounds ∅ _ E0) as H0.
  repeat split; try tauto.
Defined.

(** X8. [parseLogLevel] always returns one of the five levels: a known
    level in any letter case is returned in lower case, and anything else,
    an absent value included, falls back to [debug]. *)
Theorem parseLogLevel_known_or_debug :
  (forall level, In (parseLogLevel level) validLevels)
  /\ (forall l, In (toLowerCase l) validLevels -> parseLogLevel (Some l) = toLowerCase l)
  /\ (forall l, ~ In (toLowerCase l) validLevels -> parseLogLevel (Some l) = "debug")
  /\ parseLogLevel None = "debug"
  /\ (forall l, toLowerCase (toLowerCase l) = toLowerCase l).
Proof.
  split.
  { intros level. cbn [validLevels In].
    destruct (parseLogLevel_cases level) as [E|[E|[E|[E|E]]]]; rewrite E; tauto. }
  assert (Hex : forall l, existsb (String.eqb (toLowerCase l)) validLevels = true
                          <-> In (toLowerCase l) validLevels).
  { intros l. rewrite existsb_exists. split.
    - intros (v & Hin & Hv). apply String.eqb_eq in Hv. now subst.
    - intros Hin. exists (toLowerCase l). split; [exact Hin | apply String.eqb_refl]. }
  split.
  { intros l Hin. unfold parseLogLevel. cbv zeta. now rewrite (proj2 (Hex l) Hin). }
  split.
  { intros l Hn. unfold parseLogLevel. cbv zeta.
    destruct (existsb _ validLevels) eqn:E; [|reflexivity].
    apply Hex in E. contradiction. }
  split; [reflexivity|].
  induction l as [|c l IH]; [reflexivity|]. cbn [toLowerCase]. f_equal; [|exact IH].
  unfold toLowerAscii.
  destruct ((65 <=? nat_of_ascii c)%nat && (nat_of_ascii c <=? 90)%nat) eqn:E; [|now rewrite E].
  apply andb_true_iff in E as [E1 E2]. apply Nat.leb_le in E1, E2.
  rewrite nat_ascii_embedding by lia.
  replace ((65 <=? nat_of_ascii c + 32)%nat && (nat_of_ascii c + 32 <=? 90)%nat) with false;
    [reflexivity|].
  symmetry. apply andb_false_iff. right. apply Nat.leb_gt. lia.
Qed.


End ConfigFacts.

(* ===================================================================== *)
(** * The configured allowlist and the admission sequence *)
(* ===================================================================== *)

Section ConfiguredGateFacts.

Import HostPattern Config Gate.

Variable decodeURIComponent : string -> option string.
Variable URL_new : string -> option ParsedURL.




End ConfiguredGateFacts.


